(** * SRT audio sync: a shallow embedding of the core of [ghepvoice.py]

    The development follows the source file top-down:

    - binary64 arithmetic (Python [float]) on top of [SpecFloat];
    - the [str] methods the core relies on ([strip], [replace], [lower],
      [zfill], [startswith], ...);
    - a backtracking matcher for the fragment of [re] used by the two
      timestamp patterns and the cue-block pattern;
    - [parse_srt_time], [parse_srt_file], [find_audio_for_subtitle], the
      speed decision of [_sync_thread], the [atempo] chain of
      [process_audio_speed] and the segment walk of [create_timeline];
    - the path utilities ([get_app_dir], [get_default_ffmpeg_path],
      [get_default_ffprobe_path], for a platform other than win32), the
      command built by [process_audio_speed] and the matching and
      processing loops of [_sync_thread].

    Characters are [ascii] values read as the code points 0..255.  In that
    range [\d] is exactly [0-9], and [\s] / [str.isspace] is the set
    09-0D, 1C-1F, 20, 85, A0. *)

From Stdlib Require Import ZArith List Bool Ascii String Lia.
From Stdlib Require Import Permutation Sorted.
From Stdlib Require Import SpecFloat QArith Qabs.
Import ListNotations.

Open Scope Z_scope.

(** ** Python exceptions raised by the embedded code *)

Inductive exc : Type :=
| ValueError         (* the spec's FormatError *)
| ZeroDivisionError.

Inductive result (A : Type) : Type :=
| Ok (a : A)
| Raise (e : exc).

Arguments Ok {A} a.
Arguments Raise {A} e.

Definition bind {A B : Type} (r : result A) (f : A -> result B) : result B :=
  match r with
  | Ok a => f a
  | Raise e => Raise e
  end.

Notation "x <- c ;; k" := (bind c (fun x => k))
  (at level 61, c at next level, right associativity).

(** ** binary64 *)

Definition float := spec_float.

Definition prec : Z := 53.
Definition emax : Z := 1024.

Definition fadd : float -> float -> float := SFadd prec emax.
Definition fsub : float -> float -> float := SFsub prec emax.
Definition fmul : float -> float -> float := SFmul prec emax.

(** IEEE division; Python's [/] first tests the divisor, see [py_truediv]. *)
Definition fdiv : float -> float -> float := SFdiv prec emax.

Definition fltb : float -> float -> bool := SFltb.
Definition fleb : float -> float -> bool := SFleb.
Definition feqb : float -> float -> bool := SFeqb.

(** [a > b] and [a >= b] on floats. *)
Definition fgtb (a b : float) : bool := fltb b a.
Definition fgeb (a b : float) : bool := fleb b a.

(** [float(z)], correctly rounded (exact whenever [|z| < 2^53]). *)
Definition of_Z (z : Z) : float := binary_normalize prec emax z 0 false.

(** The decimal literal [m / 10^k]: both operands are exact for the
    literals of this program, so the correctly rounded quotient is the
    double the Python parser produces for the literal. *)
Definition dec (m : Z) (k : nat) : float :=
  fdiv (of_Z m) (of_Z (10 ^ Z.of_nat k)).

Definition is_zero (x : float) : bool :=
  match x with
  | S754_zero _ => true
  | _ => false
  end.

Definition is_nan (x : float) : bool :=
  match x with
  | S754_nan => true
  | _ => false
  end.

Definition is_finite (x : float) : bool :=
  match x with
  | S754_zero _ | S754_finite _ _ _ => true
  | _ => false
  end.

(** [a / b] on Python floats: ZeroDivisionError on a zero divisor. *)
Definition py_truediv (a b : float) : result float :=
  if is_zero b then Raise ZeroDivisionError else Ok (fdiv a b).

(** ** Python numbers: [parse_srt_time] returns an [int] on its fallback
    branch and a [float] otherwise. *)

Inductive pynum : Type :=
| PyInt (z : Z)
| PyFloat (f : float).

(** Exact comparison of an integer with a float (CPython compares the
    mathematical values, without rounding the integer). *)
Definition Z_compare_float (z : Z) (f : float) : option comparison :=
  match f with
  | S754_nan => None
  | S754_infinity s => Some (if s then Gt else Lt)
  | S754_zero _ => Some (z ?= 0)
  | S754_finite s m e =>
      let v := if s then Zneg m else Zpos m in
      Some (if 0 <=? e then z ?= v * 2 ^ e else z * 2 ^ (- e) ?= v)
  end.

Definition py_eq (a b : pynum) : bool :=
  match a, b with
  | PyInt x, PyInt y => x =? y
  | PyFloat x, PyFloat y => feqb x y
  | PyInt x, PyFloat y
  | PyFloat y, PyInt x =>
      match Z_compare_float x y with
      | Some Eq => true
      | _ => false
      end
  end.

(** The value a float-annotated dataclass field carries in later float
    arithmetic: an [int] is promoted (exactly, for the magnitudes
    [parse_srt_time] can return). *)
Definition to_float (a : pynum) : float :=
  match a with
  | PyInt z => of_Z z
  | PyFloat f => f
  end.

(** [a - b]: integer subtraction on two ints, float subtraction after
    promotion otherwise. *)
Definition py_sub (a b : pynum) : pynum :=
  match a, b with
  | PyInt x, PyInt y => PyInt (x - y)
  | _, _ => PyFloat (fsub (to_float a) (to_float b))
  end.

(** ** Strings *)

Definition str := list ascii.

Definition py (s : string) : str := list_ascii_of_string s.

Definition code (c : ascii) : N := N_of_ascii c.

Definition isdigit (c : ascii) : bool :=
  ((48 <=? code c) && (code c <=? 57))%N.

Definition isspace (c : ascii) : bool :=
  let n := code c in
  (((9 <=? n) && (n <=? 13)) || ((28 <=? n) && (n <=? 32))
   || (n =? 133) || (n =? 160))%N.

Definition digit_val (c : ascii) : Z := Z.of_N (code c) - 48.

(** [int(s)] for a string of decimal digits. *)
Definition int_of_digits (s : str) : Z :=
  fold_left (fun acc c => 10 * acc + digit_val c) s 0.

Fixpoint lstrip (s : str) : str :=
  match s with
  | c :: s' => if isspace c then lstrip s' else s
  | [] => []
  end.

Definition rstrip (s : str) : str := rev (lstrip (rev s)).

Definition strip (s : str) : str := rstrip (lstrip s).

Fixpoint startswith (s p : str) {struct p} : bool :=
  match p, s with
  | [], _ => true
  | x :: p', y :: s' => Ascii.eqb x y && startswith s' p'
  | _ :: _, [] => false
  end.

(** [s.replace(old, new)] for a non-empty [old]: leftmost non-overlapping
    occurrences; [skip] counts the characters of an occurrence still to be
    dropped. *)
Fixpoint replace_from (old new s : str) (skip : nat) : str :=
  match s with
  | [] => []
  | c :: s' =>
      match skip with
      | S n => replace_from old new s' n
      | O =>
          if startswith s old
          then (new ++ replace_from old new s' (Nat.pred (List.length old)))%list
          else c :: replace_from old new s' O
      end
  end.

Definition replace (old new s : str) : str := replace_from old new s O.

(** ** The fragment of [re] used by the program

    Quantifiers only ever apply to a single character class in the three
    patterns of the source, so [Rep] carries the class.  [Eos] is [$]
    without MULTILINE: the end of the string, or just before a final
    newline. *)

Inductive regex : Type :=
| Eps
| Chr (p : ascii -> bool)
| Cat (r1 r2 : regex)
| Alt (r1 r2 : regex)
| Rep (greedy : bool) (lo : nat) (hi : option nat) (p : ascii -> bool)
| Grp (i : nat) (r : regex)
| Look (r : regex)
| Eos.

Definition Lit (c : ascii) : regex := Chr (Ascii.eqb c).

Fixpoint sequence (rs : list regex) : regex :=
  match rs with
  | [] => Eps
  | [r] => r
  | r :: rs' => Cat r (sequence rs')
  end.

Definition nl : ascii := "010"%char.

Definition any (c : ascii) : bool := true.

(** Captured groups, most recent first. *)
Definition captures := list (nat * str).

Fixpoint group (i : nat) (caps : captures) : str :=
  match caps with
  | [] => []
  | (j, s) :: caps' => if Nat.eqb i j then s else group i caps'
  end.

Definition orelse {A : Type} (a b : option A) : option A :=
  match a with
  | Some x => Some x
  | None => b
  end.

Definition more (hi : option nat) : bool :=
  match hi with
  | Some O => false
  | _ => true
  end.

(** The text consumed between [s] and its suffix [s']. *)
Definition consumed (s s' : str) : str :=
  firstn (List.length s - List.length s') s.

Definition answer := option (str * captures).

(** Backtracking repetition of a character class: a greedy quantifier
    tries one more character before stopping, a lazy one stops first. *)
Fixpoint rep (greedy : bool) (p : ascii -> bool) (s : str) (lo : nat)
    (hi : option nat) (k : str -> answer) {struct s} : answer :=
  let stop := if Nat.eqb lo 0 then k s else None in
  let step :=
    match s with
    | c :: s' =>
        if p c && more hi
        then rep greedy p s' (Nat.pred lo) (option_map Nat.pred hi) k
        else None
    | [] => None
    end in
  if greedy then orelse step stop else orelse stop step.

(** The matcher, in continuation-passing style: [k] is the rest of the
    pattern, and a [None] from it makes the matcher try its next
    alternative. *)
Fixpoint rmatch (r : regex) (s : str) (caps : captures)
    (k : str -> captures -> answer) {struct r} : answer :=
  match r with
  | Eps => k s caps
  | Chr p =>
      match s with
      | c :: s' => if p c then k s' caps else None
      | [] => None
      end
  | Cat r1 r2 => rmatch r1 s caps (fun s1 c1 => rmatch r2 s1 c1 k)
  | Alt r1 r2 => orelse (rmatch r1 s caps k) (rmatch r2 s caps k)
  | Rep g lo hi p => rep g p s lo hi (fun s1 => k s1 caps)
  | Grp i r1 =>
      rmatch r1 s caps (fun s1 c1 => k s1 ((i, consumed s s1) :: c1))
  | Look r1 =>
      match rmatch r1 s caps (fun s1 c1 => Some (s1, c1)) with
      | Some (_, c1) => k s c1
      | None => None
      end
  | Eos =>
      match s with
      | [] => k s caps
      | [c] => if Ascii.eqb c nl then k s caps else None
      | _ => None
      end
  end.

(** [re.match(r, s)]: anchored at the start, any remainder allowed. *)
Definition re_match (r : regex) (s : str) : answer :=
  rmatch r s [] (fun s1 c1 => Some (s1, c1)).

(** [re.findall(r, s)] for a pattern that cannot match the empty string:
    the captures of the successive non-overlapping matches, scanning left
    to right; [skip] counts the characters of the last match still to be
    passed. *)
Fixpoint findall_from (r : regex) (s : str) (skip : nat) : list captures :=
  match skip with
  | S n =>
      match s with
      | [] => []
      | _ :: s' => findall_from r s' n
      end
  | O =>
      match re_match r s with
      | Some (rest, caps) =>
          caps ::
          match s with
          | [] => []
          | _ :: s' =>
              findall_from r s' (Nat.pred (List.length s - List.length rest))
          end
      | None =>
          match s with
          | [] => []
          | _ :: s' => findall_from r s' O
          end
      end
  end.

Definition findall (r : regex) (s : str) : list captures :=
  findall_from r s O.

(** ** TimeCodec: [parse_srt_time] *)

Definition digits (lo hi : nat) : regex := Rep true lo (Some hi) isdigit.

(** [(\d{1,2}):(\d{2}):(\d{2})\.(\d{3})] *)
Definition time_frac : regex :=
  sequence [Grp 1 (digits 1 2); Lit ":"; Grp 2 (digits 2 2); Lit ":";
       Grp 3 (digits 2 2); Lit "."; Grp 4 (digits 3 3)].

(** [(\d{1,2}):(\d{2}):(\d{2})] *)
Definition time_plain : regex :=
  sequence [Grp 1 (digits 1 2); Lit ":"; Grp 2 (digits 2 2); Lit ":";
       Grp 3 (digits 2 2)].

(** [int(ms) / 1000]: true division of two ints, correctly rounded. *)
Definition int_truediv (a b : Z) : float := fdiv (of_Z a) (of_Z b).

(** [int + float]. *)
Definition int_add_float (a : Z) (b : float) : float := fadd (of_Z a) b.

Definition parse_srt_time (time_str : str) : result pynum :=
  let time_str := replace (py ",") (py ".") (strip time_str) in
  match re_match time_frac time_str with
  | None =>
      match re_match time_plain time_str with
      | Some (_, m) =>
          let h := int_of_digits (group 1 m) in
          let mi := int_of_digits (group 2 m) in
          let s := int_of_digits (group 3 m) in
          Ok (PyInt (h * 3600 + mi * 60 + s))
      | None => Raise ValueError
      end
  | Some (_, m) =>
      let h := int_of_digits (group 1 m) in
      let mi := int_of_digits (group 2 m) in
      let s := int_of_digits (group 3 m) in
      let ms := int_of_digits (group 4 m) in
      Ok (PyFloat (int_add_float (h * 3600 + mi * 60 + s)
                                 (int_truediv ms 1000)))
  end.

(** ** CueTrackParser: [parse_srt_file] *)

Record SubtitleLine : Type := mkSubtitleLine {
  index : Z;
  start_time : float;
  end_time : float;
  duration : float;
  text : str
}.

(** [\d{1,2}:\d{2}:\d{2}[,\.]\d{3}] *)
Definition stamp : regex :=
  sequence [digits 1 2; Lit ":"; digits 2 2; Lit ":"; digits 2 2;
       Chr (fun c => Ascii.eqb c "," || Ascii.eqb c ".");
       digits 3 3].

Definition spaces : regex := Rep true 0 None isspace.

(** [(\d+)\s*\n(stamp)\s*-->\s*(stamp)\s*\n(.*?)(?=\n\n|\n*$)], DOTALL. *)
Definition block : regex :=
  sequence [Grp 1 (Rep true 1 None isdigit); spaces; Lit nl;
       Grp 2 stamp; spaces; Lit "-"; Lit "-"; Lit ">"; spaces;
       Grp 3 stamp; spaces; Lit nl;
       Grp 4 (Rep false 0 None any);
       Look (Alt (Cat (Lit nl) (Lit nl))
                 (Cat (Rep true 0 None (Ascii.eqb nl)) Eos))].

(** [list.sort(key=...)]: Python's sort is stable and compares keys with
    [<] only.  [insert_by x l] puts [x] in front of the first element whose
    key is not below the key of [x], so equal keys keep their order. *)
Section Sort.
Context {A K : Type}.
Variable key : A -> K.
Variable lt : K -> K -> bool.

Fixpoint insert_by (x : A) (l : list A) : list A :=
  match l with
  | [] => [x]
  | y :: l' => if lt (key y) (key x) then y :: insert_by x l' else x :: l
  end.

Definition sort_by (l : list A) : list A := fold_right insert_by [] l.

(** [a] may stand before [b]: the key of [b] is not below the key of [a]. *)
Definition ascending (a b : A) : Prop := lt (key b) (key a) = false.
End Sort.

(** One iteration of [for match in matches]. *)
Definition cue_of_match (m : captures) : result SubtitleLine :=
  let idx := int_of_digits (group 1 m) in
  start <- parse_srt_time (group 2 m) ;;
  stop <- parse_srt_time (group 3 m) ;;
  let txt := strip (group 4 m) in
  let dur := py_sub stop start in
  Ok (mkSubtitleLine idx (to_float start) (to_float stop) (to_float dur) txt).

Fixpoint cues_of_matches (ms : list captures) : result (list SubtitleLine) :=
  match ms with
  | [] => Ok []
  | m :: ms' =>
      c <- cue_of_match m ;;
      cs <- cues_of_matches ms' ;;
      Ok (c :: cs)
  end.

(** [parse_srt_file], from the decoded content of the file on. *)
Definition parse_srt_file (content : str) : result (list SubtitleLine) :=
  subtitles <- cues_of_matches (findall block content) ;;
  Ok (sort_by index Z.ltb subtitles).

(** ** ClipLocator: [find_audio_for_subtitle] *)

Definition str_eqb (a b : str) : bool :=
  if list_eq_dec ascii_dec a b then true else false.

Definition mem (x : str) (l : list str) : bool := existsb (str_eqb x) l.

(** [str(n)] for an int. *)
Definition digit_char (d : Z) : ascii := ascii_of_N (Z.to_N (48 + d)).

(** The decimal digits of [n >= 0], most significant first; [fuel] bounds
    their number. *)
Fixpoint digits_of (fuel : nat) (n : Z) : str :=
  match fuel with
  | O => []
  | S f =>
      ((if n <? 10 then [] else digits_of f (n / 10))
       ++ [digit_char (n mod 10)])%list
  end.

Definition str_of_nonneg (n : Z) : str :=
  digits_of (S (Z.to_nat (Z.log2 n))) n.

Definition str_of_Z (z : Z) : str :=
  if z <? 0 then "-"%char :: str_of_nonneg (- z) else str_of_nonneg z.

Definition zero_char : ascii := "0"%char.

(** [s.zfill(width)]: the padding goes after a leading sign. *)
Definition zfill (width : nat) (s : str) : str :=
  if (width <=? List.length s)%nat then s
  else
    let pad := repeat zero_char (width - List.length s) in
    match s with
    | c :: s' =>
        if Ascii.eqb c "+" || Ascii.eqb c "-"
        then (c :: pad ++ s')%list
        else (pad ++ s)%list
    | [] => pad
    end.

(** [c.lower()] on the code points 0..255: A-Z, and C0-DE except D7. *)
Definition lower_char (c : ascii) : ascii :=
  let n := code c in
  if (((65 <=? n) && (n <=? 90))
      || ((192 <=? n) && (n <=? 222) && negb (n =? 215)))%N
  then ascii_of_N (n + 32)
  else c.

Definition lower (s : str) : str := map lower_char s.

(** [ext.upper()] for the lower-case ASCII names of [extensions_list]. *)
Definition upper_char (c : ascii) : ascii :=
  let n := code c in
  if ((97 <=? n) && (n <=? 122))%N then ascii_of_N (n - 32) else c.

Definition upper (s : str) : str := map upper_char s.

(** [s.rfind(c)], [-1] when absent. *)
Fixpoint rfind_from (c : ascii) (s : str) (i : Z) (last : Z) : Z :=
  match s with
  | [] => last
  | x :: s' => rfind_from c s' (i + 1) (if Ascii.eqb x c then i else last)
  end.

Definition rfind (c : ascii) (s : str) : Z := rfind_from c s 0 (-1).

Definition slice (s : str) (lo hi : Z) : str :=
  firstn (Z.to_nat (hi - lo)) (skipn (Z.to_nat lo) s).

(** [posixpath.splitext]: the extension starts at the last dot of the
    final component, unless only dots precede it there. *)
Definition splitext (p : str) : str * str :=
  let sepIndex := rfind "/" p in
  let dotIndex := rfind "." p in
  if (sepIndex <? dotIndex)
     && existsb (fun c => negb (Ascii.eqb c ".")) (slice p (sepIndex + 1) dotIndex)
  then (firstn (Z.to_nat dotIndex) p, skipn (Z.to_nat dotIndex) p)
  else (p, []).

Definition endswith_sep (s : str) : bool :=
  match rev s with
  | c :: _ => Ascii.eqb c "/"
  | [] => false
  end.

(** [posixpath.join(a, b)] *)
Definition join (a b : str) : str :=
  if startswith b (py "/") then b
  else if (match a with [] => true | _ => false end) || endswith_sep a
       then (a ++ b)%list
       else (a ++ py "/" ++ b)%list.

(** What the locator asks of the file system. *)
Record os_view : Type := mkOs {
  listdir : str -> option (list str);   (* [None]: os.listdir raises *)
  isfile : str -> bool;
  exists_ : str -> bool;
  glob : str -> list str
}.

Definition audio_extensions : list str :=
  map py [".wav"; ".mp3"; ".m4a"; ".aac"; ".flac"; ".ogg";
          ".wma"; ".opus"; ".webm"; ".amr"; ".3gp"; ".ape";
          ".alac"; ".aiff"; ".aif"; ".au"; ".ra"; ".mid"; ".midi"]%string.

Definition extensions_list : list str :=
  map py ["wav"; "mp3"; "m4a"; "aac"; "flac"; "ogg"; "wma"; "opus";
          "webm"; "amr"; "3gp"]%string.

Definition index_formats (idx : Z) : list str :=
  [zfill 4 (str_of_Z idx); zfill 3 (str_of_Z idx); str_of_Z idx].

(** The body of the inner loop of the directory scan: does [filename]
    make the scan return for [index_str]? *)
Definition accepts (os : os_view) (audio_dir index_str filename : str) : bool :=
  let filepath := join audio_dir filename in
  if negb (isfile os filepath) then false
  else
    let '(name_without_ext, ext) := splitext filename in
    let ext_lower := lower ext in
    if negb (mem ext_lower audio_extensions) then false
    else if str_eqb name_without_ext index_str then true
    else startswith name_without_ext (index_str ++ py "_").

Fixpoint scan_files (os : os_view) (audio_dir index_str : str)
    (all_files : list str) : option str :=
  match all_files with
  | [] => None
  | filename :: rest =>
      if accepts os audio_dir index_str filename
      then Some (join audio_dir filename)
      else scan_files os audio_dir index_str rest
  end.

Fixpoint scan_formats (os : os_view) (audio_dir : str) (formats : list str)
    (all_files : list str) : option str :=
  match formats with
  | [] => None
  | index_str :: rest =>
      orelse (scan_files os audio_dir index_str all_files)
             (scan_formats os audio_dir rest all_files)
  end.

(** Method 1: the directory scan; any exception falls through. *)
Definition scan_directory (os : os_view) (audio_dir : str) (formats : list str)
  : option str :=
  match listdir os audio_dir with
  | Some all_files => scan_formats os audio_dir formats all_files
  | None => None
  end.

(** Method 2, for one extension of [extensions_list]. *)
Definition lookup_ext (os : os_view) (audio_dir index_str ext : str) : option str :=
  let exact_path := join audio_dir (index_str ++ py "." ++ ext) in
  if exists_ os exact_path then Some exact_path
  else
    let exact_path_upper := join audio_dir (index_str ++ py "." ++ upper ext) in
    if exists_ os exact_path_upper then Some exact_path_upper
    else
      match glob os (join audio_dir (index_str ++ py "_*." ++ ext)) with
      | m :: _ => Some m
      | [] => None
      end.

Fixpoint first_some {A B : Type} (f : A -> option B) (l : list A) : option B :=
  match l with
  | [] => None
  | x :: l' => orelse (f x) (first_some f l')
  end.

Definition lookup_any (os : os_view) (audio_dir index_str : str) : option str :=
  first_some
    (fun m =>
       if isfile os m && mem (lower (snd (splitext m))) audio_extensions
       then Some m else None)
    (glob os (join audio_dir (index_str ++ py ".*"))).

Definition lookup_format (os : os_view) (audio_dir index_str : str) : option str :=
  orelse (first_some (lookup_ext os audio_dir index_str) extensions_list)
         (lookup_any os audio_dir index_str).

Definition find_audio_for_subtitle (os : os_view) (subtitle : SubtitleLine)
    (audio_dir : str) : option str :=
  let formats := index_formats (index subtitle) in
  orelse (scan_directory os audio_dir formats)
         (first_some (lookup_format os audio_dir) formats).

(** ** The per-cue decision of [_sync_thread] *)

Record AudioMatch : Type := mkAudioMatch {
  subtitle : SubtitleLine;
  audio_path : str;
  audio_duration : float;
  needs_speedup : bool;
  speed_factor : float;
  processed_path : option str
}.

Definition zero : float := of_Z 0.   (* 0.0 *)
Definition one : float := of_Z 1.    (* 1.0 *)
Definition two : float := of_Z 2.    (* 2.0 *)
Definition half : float := dec 5 1.  (* 0.5 *)
Definition epsilon : float := dec 1 2.  (* 0.01 *)

(** Lines 709-718: the match built for a cue whose clip was found and
    probed. *)
Definition make_match (sub : SubtitleLine) (path : str)
    (clip_duration : float) : result AudioMatch :=
  let needs := fgtb clip_duration (duration sub) in
  factor <- (if needs then py_truediv clip_duration (duration sub)
             else Ok one) ;;
  Ok (mkAudioMatch sub path clip_duration needs factor None).

(** The matching loop, not interrupted ([is_processing] stays set);
    [probe] is [get_audio_duration], [None] standing for any exception it
    raises (the cue is then skipped). *)
Fixpoint match_all (os : os_view) (probe : str -> option float)
    (audio_dir : str) (subtitles : list SubtitleLine)
  : result (list AudioMatch) :=
  match subtitles with
  | [] => Ok []
  | sub :: rest =>
      match find_audio_for_subtitle os sub audio_dir with
      | None => match_all os probe audio_dir rest
      | Some path =>
          match probe path with
          | None => match_all os probe audio_dir rest
          | Some d =>
              m <- make_match sub path d ;;
              ms <- match_all os probe audio_dir rest ;;
              Ok (m :: ms)
          end
      end
  end.

(** ** StretchPlanner: the [atempo] chain of [process_audio_speed] *)

(** [n / d] rounded to the nearest integer, ties to even ([0 <= n], [0 < d]). *)
Definition round_half_even (n d : Z) : Z :=
  let q := n / d in
  match 2 * (n mod d) ?= d with
  | Lt => q
  | Gt => q + 1
  | Eq => if Z.even q then q else q + 1
  end.

(** [|x| * 10^6] correctly rounded to an integer, for a finite [x]. *)
Definition micros (x : float) : Z :=
  match x with
  | S754_finite _ m e =>
      if 0 <=? e then Zpos m * 2 ^ e * 10 ^ 6
      else round_half_even (Zpos m * 10 ^ 6) (2 ^ (- e))
  | _ => 0
  end.

Definition sign_of (x : float) : bool :=
  match x with
  | S754_zero s | S754_infinity s | S754_finite s _ _ => s
  | S754_nan => false
  end.

(** [f"{x:.6f}"] *)
Definition format_6f (x : float) : str :=
  match x with
  | S754_nan => py "nan"
  | S754_infinity s => if s then py "-inf" else py "inf"
  | _ =>
      let n := micros x in
      ((if sign_of x then py "-" else []) ++
       str_of_Z (n / 10 ^ 6) ++ py "." ++ zfill 6 (str_of_Z (n mod 10 ^ 6)))%list
  end.

(** [while speed > 2.0: append "atempo=2.0"; speed /= 2.0] *)
Fixpoint speed_up (fuel : nat) (speed : float) (filters : list str)
  : option (float * list str) :=
  if fgtb speed two then
    match fuel with
    | S n => speed_up n (fdiv speed two) (filters ++ [py "atempo=2.0"])
    | O => None
    end
  else Some (speed, filters).

(** [while speed < 0.5: append "atempo=0.5"; speed /= 0.5] *)
Fixpoint slow_down (fuel : nat) (speed : float) (filters : list str)
  : option (float * list str) :=
  if fltb speed half then
    match fuel with
    | S n => slow_down n (fdiv speed half) (filters ++ [py "atempo=0.5"])
    | O => None
    end
  else Some (speed, filters).

(** Lines 286-297: the list [atempo_filters]; [None] when a loop is still
    running after [fuel] iterations. *)
Definition atempo_filters (fuel : nat) (speed_factor : float)
  : option (list str) :=
  match speed_up fuel speed_factor [] with
  | Some (speed, filters) =>
      match slow_down fuel speed filters with
      | Some (speed', filters') =>
          Some (filters' ++ [py "atempo=" ++ format_6f speed'])%list
      | None => None
      end
  | None => None
  end.

(** The ratio a filter string denotes: [atempo=I.F] is [(I.F)] read as a
    decimal fraction. *)
Fixpoint split_dot (s : str) : str * option str :=
  match s with
  | [] => ([], None)
  | c :: s' =>
      if Ascii.eqb c "." then ([], Some s')
      else let '(a, b) := split_dot s' in (c :: a, b)
  end.

Definition decimal_value (s : str) : option Q :=
  match split_dot s with
  | (ip, Some fp) =>
      if forallb isdigit ip && forallb isdigit fp
         && negb (Nat.eqb (List.length ip) 0)
      then Some (Qmake (int_of_digits (ip ++ fp))
                       (Z.to_pos (10 ^ Z.of_nat (List.length fp))))
      else None
  | (_, None) => None
  end.

Definition atempo_value (filter : str) : option Q :=
  if startswith filter (py "atempo=")
  then decimal_value (skipn 7 filter)
  else None.

(** The product of the ratios of a chain, when every entry is an
    [atempo] filter. *)
Fixpoint chain_product (filters : list str) : option Q :=
  match filters with
  | [] => Some 1%Q
  | f :: fs =>
      match atempo_value f, chain_product fs with
      | Some v, Some p => Some (v * p)%Q
      | _, _ => None
      end
  end.

(** The exact value of a finite float. *)
Definition Q_of_float (x : float) : Q :=
  match x with
  | S754_finite s m e =>
      let v := if s then Zneg m else Zpos m in
      if 0 <=? e then inject_Z (v * 2 ^ e)
      else Qmake v (Z.to_pos (2 ^ (- e)))
  | _ => 0%Q
  end.

(** ** TimelineAssembler: [create_timeline] *)

(** An entry of [segment_files]; [Silence d p] also records the call
    [generate_silence(d, p)] that produced the file. *)
Inductive segment : Type :=
| Silence (d : float) (path : str)
| Clip (path : str).

Definition seg_path (s : segment) : str :=
  match s with
  | Silence _ p => p
  | Clip p => p
  end.

(** [f"{i:04d}"] for a loop index. *)
Definition fmt04d (i : nat) : str := zfill 4 (str_of_Z (Z.of_nat i)).

Definition enumerate {A : Type} (l : list A) : list (nat * A) :=
  combine (List.seq 0 (List.length l)) l.

(** The body of [for i, match in enumerate(matches)]. *)
Definition timeline_step (temp_dir : str) (st : list segment * float)
    (im : nat * AudioMatch) : list segment * float :=
  let '(segs, current_time) := st in
  let '(i, m) := im in
  let gap_before := fsub (start_time (subtitle m)) current_time in
  let segs1 :=
    if fgtb gap_before epsilon
    then (segs ++ [Silence gap_before
                     (join temp_dir (py "silence_" ++ fmt04d i ++ py "_before.wav"))])%list
    else segs in
  let segs2 :=
    match processed_path m with
    | Some (c :: p) => (segs1 ++ [Clip (c :: p)])%list
    | _ => segs1
    end in
  (segs2, end_time (subtitle m)).

Definition start_key (m : AudioMatch) : float := start_time (subtitle m).

(** The segment plan: sort in place, then walk. *)
Definition timeline_segments (matches : list AudioMatch) (temp_dir : str)
  : list segment :=
  let sorted := sort_by start_key fltb matches in
  fst (fold_left (timeline_step temp_dir) (enumerate sorted) ([], zero)).

(** Lines 346-350: the text written to [concat_list.txt]. *)
Definition manifest_entry (seg_file : str) : str :=
  let escaped_path := replace (py "'") (py "'\''") seg_file in
  (py "file '" ++ escaped_path ++ py "'" ++ [nl])%list.

Definition concat_manifest (segment_files : list str) : str :=
  fold_left (fun written seg_file => (written ++ manifest_entry seg_file)%list)
            segment_files [].

Definition create_timeline (matches : list AudioMatch) (temp_dir : str)
  : list segment * str :=
  let segs := timeline_segments matches temp_dir in
  (segs, concat_manifest (map seg_path segs)).

(** ** The spec's wording of the assembler (section 4.7), for comparison *)

Inductive Segment : Type :=
| SilenceSpan (d : float)
| ClipRef (path : str).

Definition clip_of (m : AudioMatch) : str :=
  match processed_path m with
  | Some p => p
  | None => []
  end.

Fixpoint assemble_spec (currentTime : float) (sorted : list AudioMatch)
  : list Segment :=
  match sorted with
  | [] => []
  | m :: rest =>
      let gap := fsub (start_key m) currentTime in
      ((if fgtb gap epsilon then [SilenceSpan gap] else []) ++
       ClipRef (clip_of m) :: assemble_spec (end_time (subtitle m)) rest)%list
  end.

Definition abstract (s : segment) : Segment :=
  match s with
  | Silence d _ => SilenceSpan d
  | Clip p => ClipRef p
  end.

Definition processed (m : AudioMatch) : Prop :=
  exists c p, processed_path m = Some (c :: p).

(** ** Reading the manifest back: its lines, and the escaping stated
    character by character *)

Fixpoint lines_from (cur : str) (s : str) : list str :=
  match s with
  | [] =>
      match cur with
      | [] => []
      | _ => [rev cur]
      end
  | c :: s' =>
      if Ascii.eqb c nl then rev cur :: lines_from [] s'
      else lines_from (c :: cur) s'
  end.

(** The lines of a text, without their terminating newline. *)
Definition lines (s : str) : list str := lines_from [] s.

Definition quote : ascii := "'"%char.

Definition escape_char (c : ascii) : str :=
  if Ascii.eqb c quote then py "'\''" else [c].

(** [file '<path with every quote escaped>'] *)
Definition quoted_line (p : str) : str :=
  (py "file '" ++ flat_map escape_char p ++ py "'")%list.

Definition no_newline (p : str) : bool := negb (existsb (Ascii.eqb nl) p).

(** The cues of the assembler example of the spec: start times 0, 2, 5 and
    end times 1.5, 3, 6, handed over in cue-index order 3, 1, 2. *)
Definition example_cue (i : Z) (start stop : float) : SubtitleLine :=
  mkSubtitleLine i start stop (fsub stop start) (py "text").

Definition example_match (i : Z) (start stop : float) (clip : string)
  : AudioMatch :=
  mkAudioMatch (example_cue i start stop) (py "clip.wav") one false one
               (Some (py clip)).

Definition example_matches : list AudioMatch :=
  [example_match 3 (of_Z 5) (of_Z 6) "clip3";
   example_match 1 (of_Z 0) (dec 15 1) "clip1";
   example_match 2 (of_Z 2) (of_Z 3) "clip2"].

(** ** The acceptance rule of the clip locator, stated on its own

    [filename] is a candidate for the index representation [r] when it is
    a regular file of the directory, its extension is in the whitelist up
    to case, and its name without the extension is [r] or starts with [r]
    followed by an underscore. *)
Definition candidate (os : os_view) (audio_dir r filename : str) : Prop :=
  isfile os (join audio_dir filename) = true
  /\ In (lower (snd (splitext filename))) audio_extensions
  /\ (fst (splitext filename) = r
      \/ exists rest, fst (splitext filename) = (r ++ py "_" ++ rest)%list).

(** [d] left-padded with zeros to [n] characters. *)
Definition zero_padded (n : nat) (d : str) : str :=
  (repeat zero_char (n - List.length d) ++ d)%list.

(** A directory view for the locator example: both entries are regular
    files, listed with the suffixed name first. *)
Definition example_dir : os_view :=
  mkOs (fun _ => Some [py "007_extra.wav"; py "0007.wav"])
       (fun _ => true) (fun _ => true) (fun _ => []).

Definition example_cue7 : SubtitleLine :=
  mkSubtitleLine 7 zero one one (py "seven").

(** ** What a match is, independently of the search order

    [Matches r s c s1 c1]: the pattern [r] can consume a prefix of [s]
    leaving [s1], turning the captures [c] into [c1]. *)
Inductive Matches : regex -> str -> captures -> str -> captures -> Prop :=
| MEps s c : Matches Eps s c s c
| MChr (p : ascii -> bool) x s c :
    p x = true -> Matches (Chr p) (x :: s) c s c
| MCat r1 r2 s c s1 c1 s2 c2 :
    Matches r1 s c s1 c1 -> Matches r2 s1 c1 s2 c2 ->
    Matches (Cat r1 r2) s c s2 c2
| MAltL r1 r2 s c s1 c1 :
    Matches r1 s c s1 c1 -> Matches (Alt r1 r2) s c s1 c1
| MAltR r1 r2 s c s1 c1 :
    Matches r2 s c s1 c1 -> Matches (Alt r1 r2) s c s1 c1
| MRep g lo hi (p : ascii -> bool) w s c :
    forallb p w = true ->
    (lo <= List.length w)%nat ->
    match hi with
    | Some h => (List.length w <= h)%nat
    | None => True
    end ->
    Matches (Rep g lo hi p) (w ++ s) c s c
| MGrp i r s c s1 c1 :
    Matches r s c s1 c1 ->
    Matches (Grp i r) s c s1 ((i, consumed s s1) :: c1)
| MLook r s c s1 c1 :
    Matches r s c s1 c1 -> Matches (Look r) s c s c1
| MEos s c :
    s = [] \/ s = [nl] -> Matches Eos s c s c.

(** ** Timestamp texts *)

(** The three digit fields of a timestamp: one or two digits of hours,
    two of minutes, two of seconds. *)
Definition hms (h m s : str) : Prop :=
  forallb isdigit h = true
  /\ (List.length h = 1 \/ List.length h = 2)%nat
  /\ forallb isdigit m = true /\ List.length m = 2%nat
  /\ forallb isdigit s = true /\ List.length s = 2%nat.

Definition millis (ms : str) : Prop :=
  forallb isdigit ms = true /\ List.length ms = 3%nat.

Definition separator (c : ascii) : Prop := c = ","%char \/ c = "."%char.

(** [H:MM:SS] *)
Definition plain_text (h m s : str) : str :=
  (h ++ ":"%char :: m ++ ":"%char :: s)%list.

(** [H:MM:SS.mmm] or [H:MM:SS,mmm] *)
Definition frac_text (h m s : str) (sep : ascii) (ms : str) : str :=
  (plain_text h m s ++ sep :: ms)%list.

(** The input, leading whitespace aside, starts with a timestamp with a
    fractional part. *)
Definition matches_frac (time_str : str) : Prop :=
  exists ws h m s sep ms rest,
    forallb isspace ws = true /\ hms h m s /\ separator sep /\ millis ms
    /\ time_str = (ws ++ frac_text h m s sep ms ++ rest)%list.

(** The input, leading whitespace aside, starts with a plain timestamp. *)
Definition matches_plain (time_str : str) : Prop :=
  exists ws h m s rest,
    forallb isspace ws = true /\ hms h m s
    /\ time_str = (ws ++ plain_text h m s ++ rest)%list.

(** [h*3600 + m*60 + s] *)
Definition seconds_of (h m s : str) : Z :=
  int_of_digits h * 3600 + int_of_digits m * 60 + int_of_digits s.

(** [h*3600 + m*60 + s + ms/1000] as Python evaluates it. *)
Definition time_value (h m s ms : str) : float :=
  fadd (of_Z (seconds_of h m s)) (fdiv (of_Z (int_of_digits ms)) (of_Z 1000)).

(** [replace(',', '.')] character by character. *)
Definition comma_to_dot (c : ascii) : str :=
  if Ascii.eqb c ","%char then py "." else [c].

(** A remainder that begins like a fractional part. *)
Definition frac_start (rest : str) : Prop :=
  exists sep ms r, separator sep /\ millis ms /\ rest = (sep :: ms ++ r)%list.

(** The text the two timestamp patterns are tried on. *)
Definition normalized (time_str : str) : str :=
  replace (py ",") (py ".") (strip time_str).

(** Patterns without capturing groups. *)
Fixpoint group_free (r : regex) : bool :=
  match r with
  | Eps | Chr _ | Rep _ _ _ _ | Eos => true
  | Cat r1 r2 | Alt r1 r2 => group_free r1 && group_free r2
  | Grp _ _ => false
  | Look r1 => group_free r1
  end.

(** A cue track of three blocks whose second block carries plain
    [H:MM:SS] timestamps, and a track made of such a block only. *)
Definition example_track : str :=
  py "1
00:00:01,000 --> 00:00:02,500
Hello
world

2
0:00:03 --> 0:00:04
plain

3
00:00:05.000 --> 00:00:06.250
Bye
".

(** The captures of the first block of [example_track]. *)
Definition example_caps : captures :=
  [(4%nat, py "Hello
world"); (3%nat, py "00:00:02,500");
   (2%nat, py "00:00:01,000"); (1%nat, py "1")].

Definition plain_block_track : str :=
  py "1
0:00:03 --> 0:00:04
plain
".

(** The captures of a block match: the index digits, two timestamps with
    a fractional part, and the text. *)
Definition block_captures (caps : captures) : Prop :=
  exists idx h1 m1 s1 sep1 ms1 h2 m2 s2 sep2 ms2 txt,
    forallb isdigit idx = true /\ (1 <= List.length idx)%nat
    /\ hms h1 m1 s1 /\ separator sep1 /\ millis ms1
    /\ hms h2 m2 s2 /\ separator sep2 /\ millis ms2
    /\ caps = [(4%nat, txt); (3%nat, frac_text h2 m2 s2 sep2 ms2);
               (2%nat, frac_text h1 m1 s1 sep1 ms1); (1%nat, idx)].

(** ** binary64 rounding: vocabulary *)

(** Lexicographic comparison of (exponent, mantissa), as [SFcompare] does
    for two finite floats of the same sign. *)
Definition lex (e1 : Z) (m1 : positive) (e2 : Z) (m2 : positive) : comparison :=
  match e1 ?= e2 with
  | Lt => Lt
  | Gt => Gt
  | Eq => Pos.compare_cont Eq m1 m2
  end.


Definition fexp64 (e : Z) : Z := SpecFloat.fexp prec emax e.


(** The shape of a rounded value. *)
Definition normal_or_inf (s : bool) (E : Z) (x : float) : Prop :=
  (exists mf ef,
      x = S754_finite s mf ef /\ Zpos (digits2_pos mf) = 53
      /\ (ef = E - 53 \/ ef = E - 52) /\ ef <= 971)
  \/ (x = S754_infinity s /\ 1024 <= E).

(** A cue whose end time precedes its start time, as the block pattern
    accepts it ([00:00:02,000 --> 00:00:01,000]): its duration is -1.0. *)
Definition inverted_cue : SubtitleLine := example_cue 1 (of_Z 2) (of_Z 1).

(** Zero, or a finite value that is not subnormal-small. *)
Definition finite_low (x : float) : Prop :=
  match x with
  | S754_zero _ => True
  | S754_finite _ _ e => -1022 <= e
  | _ => False
  end.

(** What [parse_srt_time] returns on its first branch: zero, or a
    positive normal double below 2^30 and not below 2^-10. *)
Definition time_like (x : float) : Prop :=
  x = S754_zero false
  \/ exists m e, x = S754_finite false m e /\ Zpos (digits2_pos m) = 53
                 /\ -63 <= e <= -23.

Definition time_likeb (x : float) : bool :=
  match x with
  | S754_zero false => true
  | S754_finite false m e =>
      (Zpos (digits2_pos m) =? 53) && (-63 <=? e) && (e <=? -23)
  | _ => false
  end.

(** A speed factor just above four: the double nearest to 4.0000016. *)
Definition factor_above_four : float := dec 40000016 7.

(** ** Path utilities (POSIX [os.path]) *)

(** [posixpath.basename]: what follows the last slash. *)
Definition basename (p : str) : str :=
  let i := rfind "/" p + 1 in
  skipn (Z.to_nat i) p.

Fixpoint lstrip_sep (s : str) : str :=
  match s with
  | c :: s' => if Ascii.eqb c "/" then lstrip_sep s' else s
  | [] => []
  end.

(** [s.rstrip('/')] *)
Definition rstrip_sep (s : str) : str := rev (lstrip_sep (rev s)).

(** [s == '/' * len(s)] *)
Definition all_sep (s : str) : bool := forallb (fun c => Ascii.eqb c "/") s.

Definition nonempty (s : str) : bool :=
  match s with
  | [] => false
  | _ => true
  end.

(** [posixpath.dirname]: up to the last slash, trailing slashes removed
    unless only slashes are left. *)
Definition dirname (p : str) : str :=
  let i := rfind "/" p + 1 in
  let head := firstn (Z.to_nat i) p in
  if nonempty head && negb (all_sep head) then rstrip_sep head else head.

(** A directory name as [dirname] returns it: empty, made of slashes only,
    or not ending with a slash. *)
Inductive dir_shape : str -> Prop :=
| dir_empty : dir_shape []
| dir_root (h : str) : h <> [] -> all_sep h = true -> dir_shape h
| dir_plain (h : str) (c : ascii) :
    Ascii.eqb c "/" = false -> dir_shape (h ++ [c]).

(** What [get_app_dir] reads of the interpreter: [sys.frozen],
    [sys.executable] and [os.path.abspath(__file__)]. *)
Record sys_view : Type := mkSys {
  frozen : bool;
  executable : str;
  script : str
}.

Definition get_app_dir (sys : sys_view) : str :=
  if frozen sys then dirname (executable sys) else dirname (script sys).

(** [get_default_ffmpeg_path] where [sys.platform] is not [win32]. *)
Definition get_default_ffmpeg_path (sys : sys_view) (os : os_view) : str :=
  let app_dir := get_app_dir sys in
  let local_ffmpeg := join app_dir (py "ffmpeg") in
  if exists_ os local_ffmpeg then local_ffmpeg else py "ffmpeg".

(** [get_default_ffprobe_path] where [sys.platform] is not [win32]. *)
Definition get_default_ffprobe_path (ffmpeg_path : str) : str :=
  if str_eqb ffmpeg_path (py "ffmpeg") then py "ffprobe"
  else
    let dir_path := dirname ffmpeg_path in
    join dir_path (py "ffprobe").

(** ** [process_audio_speed]: the command and the updated match *)

(** [sep.join(items)] *)
Fixpoint sep_join (sep : str) (items : list str) : str :=
  match items with
  | [] => []
  | [x] => x
  | x :: rest => (x ++ sep ++ sep_join sep rest)%list
  end.

Definition set_processed_path (m : AudioMatch) (p : str) : AudioMatch :=
  mkAudioMatch (subtitle m) (audio_path m) (audio_duration m)
               (needs_speedup m) (speed_factor m) (Some p).

(** The argument list handed to [subprocess.run] and the match as the
    function leaves it when the command succeeds; [None] when an [atempo]
    loop is still running after [fuel] iterations. *)
Definition process_audio_speed (fuel : nat) (m : AudioMatch)
    (output_dir ffmpeg_path : str) : option (list str * AudioMatch) :=
  let basename_ := basename (audio_path m) in
  let '(name, ext) := splitext basename_ in
  let output_path := join output_dir (name ++ py "_processed.wav") in
  let cmd :=
    if negb (needs_speedup m) then
      Some [ffmpeg_path; py "-y"; py "-i"; audio_path m;
            py "-acodec"; py "pcm_s16le"; py "-ar"; py "24000"; py "-ac"; py "1";
            output_path]
    else
      match atempo_filters fuel (speed_factor m) with
      | Some filters =>
          let filter_str := sep_join (py ",") filters in
          Some [ffmpeg_path; py "-y"; py "-i"; audio_path m;
                py "-af"; filter_str;
                py "-acodec"; py "pcm_s16le"; py "-ar"; py "24000"; py "-ac"; py "1";
                output_path]
      | None => None
      end in
  match cmd with
  | Some c => Some (c, set_processed_path m output_path)
  | None => None
  end.

(** The loop [for i, match in enumerate(matches): process_audio_speed(...)]
    of [_sync_thread], not interrupted. *)
Fixpoint process_all (fuel : nat) (matches : list AudioMatch)
    (temp_dir ffmpeg_path : str) : option (list AudioMatch) :=
  match matches with
  | [] => Some []
  | m :: rest =>
      match process_audio_speed fuel m temp_dir ffmpeg_path with
      | Some (_, m') =>
          match process_all fuel rest temp_dir ffmpeg_path with
          | Some rest' => Some (m' :: rest')
          | None => None
          end
      | None => None
      end
  end.

(** ** Vocabulary of the further properties *)

(** The cue gets a match in the matching loop: a clip is found for it and
    probing the clip succeeds. *)
Definition matched (os : os_view) (probe : str -> option float)
    (audio_dir : str) (sub : SubtitleLine) : bool :=
  match find_audio_for_subtitle os sub audio_dir with
  | Some path =>
      match probe path with
      | Some _ => true
      | None => false
      end
  | None => false
  end.

(** The text has two consecutive newlines. *)
Fixpoint blank_line (s : str) : bool :=
  match s with
  | a :: s' =>
      match s' with
      | b :: _ => (Ascii.eqb a nl && Ascii.eqb b nl) || blank_line s'
      | [] => false
      end
  | [] => false
  end.

(** The silence entries of a segment list: duration and file. *)
Fixpoint silences (segs : list segment) : list (float * str) :=
  match segs with
  | [] => []
  | Silence d p :: rest => (d, p) :: silences rest
  | Clip _ :: rest => silences rest
  end.

(** The clip entries of a segment list. *)
Fixpoint clips (segs : list segment) : list str :=
  match segs with
  | [] => []
  | Silence _ _ :: rest => clips rest
  | Clip p :: rest => p :: clips rest
  end.

(** The processed path of a match when it is set and not empty. *)
Definition clip_paths (m : AudioMatch) : list str :=
  match processed_path m with
  | Some (c :: p) => [c :: p]
  | _ => []
  end.

Definition has_sep (s : str) : bool := existsb (fun c => Ascii.eqb c "/") s.

(** [x <= 0.0]: a zero, a negative number or minus infinity. *)
Definition nonpositive (x : float) : Prop := fleb x zero = true.

(** The smallest positive normal double, 2^-1022. *)
Definition min_normal : float := S754_finite false 4503599627370496 (-1074).

(** * Properties *)

(** ** Strings and the manifest *)

Lemma replace_single (c : ascii) (new s : str) :
  replace [c] new s = flat_map (fun x => if Ascii.eqb x c then new else [x]) s.
Proof.
  unfold replace.
  induction s as [|a s IH]; simpl; [reflexivity|].
  rewrite (Ascii.eqb_sym c a), andb_true_r.
  destruct (Ascii.eqb a c); simpl; rewrite IH; reflexivity.
Qed.

Lemma manifest_entry_quoted (p : str) :
  manifest_entry p = (quoted_line p ++ [nl])%list.
Proof.
  unfold manifest_entry, quoted_line.
  change (py "'") with [quote].
  rewrite replace_single.
  unfold escape_char.
  rewrite <- !app_assoc. reflexivity.
Qed.

Lemma concat_manifest_from (segs : list str) (written : str) :
  fold_left (fun w seg_file => (w ++ manifest_entry seg_file)%list) segs written
  = (written ++ List.concat (map manifest_entry segs))%list.
Proof.
  revert written.
  induction segs as [|p segs IH]; intros written; simpl.
  - now rewrite app_nil_r.
  - rewrite IH, <- app_assoc. reflexivity.
Qed.

Lemma concat_manifest_entries (segs : list str) :
  concat_manifest segs = List.concat (map manifest_entry segs).
Proof. unfold concat_manifest. now rewrite concat_manifest_from. Qed.

Lemma lines_from_line (e rest cur : str) :
  no_newline e = true ->
  lines_from cur (e ++ nl :: rest) = (rev cur ++ e)%list :: lines_from [] rest.
Proof.
  revert cur.
  induction e as [|c e IH]; intros cur Hn; simpl.
  - now rewrite app_nil_r.
  - unfold no_newline in Hn. cbn [existsb] in Hn.
    rewrite negb_orb in Hn. apply andb_true_iff in Hn as [Hc He].
    rewrite Ascii.eqb_sym in Hc.
    apply negb_true_iff in Hc. rewrite Hc.
    rewrite IH by exact He.
    cbn [rev]. now rewrite <- app_assoc.
Qed.

Lemma no_newline_app (a b : str) :
  no_newline (a ++ b) = no_newline a && no_newline b.
Proof.
  unfold no_newline. now rewrite existsb_app, negb_orb.
Qed.

Lemma no_newline_escaped (p : str) :
  no_newline p = true -> no_newline (flat_map escape_char p) = true.
Proof.
  induction p as [|c p IH]; intros H; [reflexivity|].
  change (c :: p) with ([c] ++ p)%list in H.
  rewrite no_newline_app in H. apply andb_true_iff in H as [Hc Hp].
  simpl. rewrite no_newline_app, (IH Hp), andb_true_r.
  unfold escape_char. destruct (Ascii.eqb c quote); [reflexivity | exact Hc].
Qed.

Lemma no_newline_quoted (p : str) :
  no_newline p = true -> no_newline (quoted_line p) = true.
Proof.
  intros H. unfold quoted_line.
  now rewrite !no_newline_app, (no_newline_escaped p H).
Qed.

Lemma lines_entries (segs : list str) :
  forallb no_newline segs = true ->
  lines (List.concat (map manifest_entry segs)) = map quoted_line segs.
Proof.
  unfold lines.
  induction segs as [|p segs IH]; intros H; [reflexivity|].
  cbn [forallb] in H. apply andb_true_iff in H as [Hp Hs].
  cbn [map List.concat]. rewrite manifest_entry_quoted, <- app_assoc.
  cbn [app].
  rewrite lines_from_line by now apply no_newline_quoted.
  cbn [rev app]. now rewrite IH.
Qed.

(** C8 (as amended).  For every ordered list of segment file paths none of
    which contains a newline character, the manifest has exactly one line
    per segment, in segment order, and the line of a path is the word
    [file], a space, and the path between single quotes with every
    single-quote character of the path escaped as [quote backslash quote
    quote]. *)
Theorem manifest_one_line_per_segment (segment_files : list str) :
  forallb no_newline segment_files = true ->
  lines (concat_manifest segment_files) = map quoted_line segment_files.
Proof.
  intros H. rewrite concat_manifest_entries. now apply lines_entries.
Qed.

Lemma manifest_one_line_per_segment_witness :
  lines (concat_manifest [py "/tmp/it's/0001_processed.wav"; py "/tmp/s.wav"])
  = map quoted_line [py "/tmp/it's/0001_processed.wav"; py "/tmp/s.wav"].
Proof.
  apply (manifest_one_line_per_segment
           [py "/tmp/it's/0001_processed.wav"; py "/tmp/s.wav"]).
  reflexivity.
Defined.

(** C8 as stated fails on a path that contains a newline: the single
    segment [a<newline>b.wav] yields two manifest lines. *)
Lemma manifest_newline_path_two_lines :
  lines (concat_manifest [(py "a" ++ nl :: py "b.wav")%list])
  = [py "file 'a"; py "b.wav'"]
  /\ lines (concat_manifest [(py "a" ++ nl :: py "b.wav")%list])
     <> map quoted_line [(py "a" ++ nl :: py "b.wav")%list].
Proof.
  split; [reflexivity | vm_compute; discriminate].
Qed.

(** ** Order on floats *)

Lemma SFcompare_antisym (a b : float) :
  SFcompare b a = option_map CompOpp (SFcompare a b).
Proof.
  destruct a as [sa|sa| |sa ma ea], b as [sb|sb| |sb mb eb];
    try destruct sa; try destruct sb; try reflexivity; cbn;
    rewrite (Z.compare_antisym eb ea);
    change (Pos.compare_cont Eq ma mb) with (Pos.compare ma mb);
    change (Pos.compare_cont Eq mb ma) with (Pos.compare mb ma);
    rewrite (Pos.compare_antisym mb ma);
    destruct (eb ?= ea); cbn; try reflexivity;
    now destruct (mb ?= ma)%positive.
Qed.

Lemma fltb_asym (a b : float) : fltb a b = true -> fltb b a = false.
Proof.
  unfold fltb, SFltb. rewrite (SFcompare_antisym a b).
  destruct (SFcompare a b) as [[ | | ]|]; cbn; congruence.
Qed.

Lemma lex_Lt e1 m1 e2 m2 :
  lex e1 m1 e2 m2 = Lt <-> e1 < e2 \/ (e1 = e2 /\ Zpos m1 < Zpos m2).
Proof.
  unfold lex. change (Pos.compare_cont Eq m1 m2) with (Pos.compare m1 m2).
  destruct (Z.compare_spec e1 e2); destruct (Pos.compare_spec m1 m2);
    split; intros; try discriminate; try reflexivity; lia.
Qed.

Lemma lex_Gt e1 m1 e2 m2 :
  lex e1 m1 e2 m2 = Gt <-> e2 < e1 \/ (e1 = e2 /\ Zpos m2 < Zpos m1).
Proof.
  unfold lex. change (Pos.compare_cont Eq m1 m2) with (Pos.compare m1 m2).
  destruct (Z.compare_spec e1 e2); destruct (Pos.compare_spec m1 m2);
    split; intros; try discriminate; try reflexivity; lia.
Qed.

Lemma lex_Eq e1 m1 e2 m2 :
  lex e1 m1 e2 m2 = Eq <-> e1 = e2 /\ m1 = m2.
Proof.
  unfold lex. change (Pos.compare_cont Eq m1 m2) with (Pos.compare m1 m2).
  destruct (Z.compare_spec e1 e2); destruct (Pos.compare_spec m1 m2);
    split; intros; try discriminate; try reflexivity; lia.
Qed.

Lemma SFcompare_finite s1 m1 e1 s2 m2 e2 :
  SFcompare (S754_finite s1 m1 e1) (S754_finite s2 m2 e2)
  = Some match s1, s2 with
         | true, false => Lt
         | false, true => Gt
         | false, false => lex e1 m1 e2 m2
         | true, true => CompOpp (lex e1 m1 e2 m2)
         end.
Proof.
  unfold lex. cbn. destruct s1, s2; try reflexivity.
  now destruct (e1 ?= e2).
Qed.

(** [b >= a] and [c >= b] give [c >= a], NaN aside. *)
Lemma fltb_negtrans (a b c : float) :
  is_nan b = false ->
  fltb b a = false -> fltb c b = false -> fltb c a = false.
Proof.
  unfold fltb, SFltb.
  destruct a as [sa|sa| |sa ma ea], b as [sb|sb| |sb mb eb],
           c as [sc|sc| |sc mc ec]; intros Hb; try discriminate Hb;
    rewrite ?SFcompare_finite;
    try (destruct sa); try (destruct sb); try (destruct sc);
    cbn; try congruence.
  - destruct (lex ec mc ea ma) eqn:Hca; try reflexivity.
    destruct (lex eb mb ea ma) eqn:Hba; cbn; try discriminate; intros _;
    destruct (lex ec mc eb mb) eqn:Hcb; cbn; try discriminate; intros _;
    rewrite ?lex_Lt, ?lex_Gt, ?lex_Eq in *; lia.
  - destruct (lex ec mc ea ma) eqn:Hca; try reflexivity.
    destruct (lex eb mb ea ma) eqn:Hba; cbn; try discriminate; intros _;
    destruct (lex ec mc eb mb) eqn:Hcb; cbn; try discriminate; intros _;
    rewrite ?lex_Lt, ?lex_Gt, ?lex_Eq in *; lia.
Qed.

Lemma SFcompare_not_nan (a b : float) :
  is_nan a = false -> is_nan b = false -> exists c, SFcompare a b = Some c.
Proof.
  destruct a, b; cbn; intros Ha Hb; try discriminate; eexists; reflexivity.
Qed.

Lemma fleb_of_not_fltb (a b : float) :
  is_nan a = false -> is_nan b = false ->
  fltb b a = false -> fleb a b = true.
Proof.
  intros Ha Hb. unfold fltb, fleb, SFltb, SFleb.
  rewrite (SFcompare_antisym a b).
  destruct (SFcompare_not_nan a b Ha Hb) as [c ->].
  destruct c; cbn; congruence.
Qed.

(** ** The stable sort *)

Section SortFacts.
Context {A K : Type}.
Variable key : A -> K.
Variable lt : K -> K -> bool.
Variable P : K -> Prop.

Hypothesis lt_asym : forall x y, lt x y = true -> lt y x = false.
Hypothesis lt_negtrans :
  forall x y z, P y -> lt y x = false -> lt z y = false -> lt z x = false.

Lemma insert_by_perm (x : A) (l : list A) :
  Permutation (x :: l) (insert_by key lt x l).
Proof.
  induction l as [|y l IH]; cbn; [apply Permutation_refl|].
  destruct (lt (key y) (key x)); [|apply Permutation_refl].
  eapply perm_trans; [apply perm_swap|]. now apply perm_skip.
Qed.

Lemma sort_by_perm (l : list A) : Permutation l (sort_by key lt l).
Proof.
  induction l as [|x l IH]; cbn; [constructor|].
  eapply perm_trans; [apply perm_skip, IH | apply insert_by_perm].
Qed.

Lemma insert_by_sorted (x : A) (l : list A) :
  Forall (fun a => P (key a)) l ->
  StronglySorted (ascending key lt) l ->
  StronglySorted (ascending key lt) (insert_by key lt x l).
Proof.
  induction l as [|y l IH]; intros HP HS; cbn.
  - constructor; constructor.
  - inversion HP as [|? ? HPy HPl]; subst.
    inversion HS as [|? ? HSl Hy]; subst.
    destruct (lt (key y) (key x)) eqn:Hlt.
    + constructor; [now apply IH|].
      eapply Permutation_Forall; [apply insert_by_perm|].
      constructor; [|exact Hy].
      unfold ascending. now apply lt_asym.
    + constructor; [exact HS|].
      constructor; [exact Hlt|].
      eapply Forall_impl; [|exact Hy].
      intros z Hz. unfold ascending in *.
      now apply lt_negtrans with (y := key y).
Qed.

Lemma sort_by_sorted (l : list A) :
  Forall (fun a => P (key a)) l ->
  StronglySorted (ascending key lt) (sort_by key lt l).
Proof.
  induction l as [|x l IH]; intros HP; cbn; [constructor|].
  inversion HP; subst.
  apply insert_by_sorted; [|now apply IH].
  eapply Permutation_Forall; [apply sort_by_perm | assumption].
Qed.
End SortFacts.

(** ** TimelineAssembler *)

Lemma timeline_fold (temp_dir : str) (l : list AudioMatch) :
  Forall processed l ->
  forall (i : nat) (segs : list segment) (cur : float),
    map abstract
        (fst (fold_left (timeline_step temp_dir)
                        (combine (List.seq i (List.length l)) l) (segs, cur)))
    = (map abstract segs ++ assemble_spec cur l)%list.
Proof.
  induction 1 as [|m l Hm Hl IH]; intros i segs cur.
  - cbn. now rewrite app_nil_r.
  - cbn [List.length List.seq combine fold_left assemble_spec].
    unfold timeline_step at 2.
    destruct Hm as (c & p & Hp). unfold clip_of. rewrite Hp.
    fold (start_key m).
    destruct (fgtb (fsub (start_key m) cur) epsilon);
      rewrite IH, !map_app, <- !app_assoc; reflexivity.
Qed.

Lemma sorted_by_start (matches : list AudioMatch) :
  Forall (fun m => is_nan (start_key m) = false) matches ->
  StronglySorted (fun a b => fleb (start_key a) (start_key b) = true)
                 (sort_by start_key fltb matches).
Proof.
  intros Hn.
  assert (Hn' : Forall (fun m => is_nan (start_key m) = false)
                       (sort_by start_key fltb matches)).
  { eapply Permutation_Forall; [apply sort_by_perm | exact Hn]. }
  pose proof (sort_by_sorted start_key fltb (fun k => is_nan k = false)
                fltb_asym
                (fun x y z Hy => fltb_negtrans x y z Hy) matches Hn) as HS.
  revert Hn'. induction HS as [|a l HS IH Ha]; intros Hn'; constructor.
  - apply IH. now inversion Hn'.
  - inversion Hn' as [|? ? Hna Hnl]; subst.
    rewrite Forall_forall in *. intros b Hb.
    apply fleb_of_not_fltb; auto. now apply Ha.
Qed.

(** C1.  For every list of processed matches, [create_timeline] works on
    the matches sorted by cue start time (a permutation of its input, in
    ascending order of start time when no start time is NaN), and its
    segment list is the one the spec's walk yields from currentTime 0: a
    silence of duration gap = startTime - currentTime exactly when
    gap > 0.01, then the processed clip, then currentTime := the cue's end
    time.  For the cues with start times 0, 2, 5 and end times 1.5, 3, 6
    the segments are clip1, silence 0.5, clip2, silence 2.0, clip3. *)
Theorem create_timeline_walk (matches : list AudioMatch) (temp_dir : str) :
  Forall processed matches ->
  let sorted := sort_by start_key fltb matches in
  Permutation matches sorted
  /\ (Forall (fun m => is_nan (start_key m) = false) matches ->
      StronglySorted (fun a b => fleb (start_key a) (start_key b) = true) sorted)
  /\ map abstract (fst (create_timeline matches temp_dir))
     = assemble_spec zero sorted
  /\ map abstract (fst (create_timeline example_matches temp_dir))
     = [ClipRef (py "clip1"); SilenceSpan half; ClipRef (py "clip2");
        SilenceSpan two; ClipRef (py "clip3")].
Proof.
  intros Hp sorted.
  split; [apply sort_by_perm|].
  split; [apply sorted_by_start|].
  split; [|reflexivity].
  unfold create_timeline, timeline_segments, enumerate. cbn [fst].
  rewrite timeline_fold; [reflexivity|].
  eapply Permutation_Forall; [apply sort_by_perm | exact Hp].
Qed.

Lemma create_timeline_walk_witness :
  map abstract (fst (create_timeline example_matches (py "/tmp/srt_sync_0")))
  = assemble_spec zero (sort_by start_key fltb example_matches).
Proof.
  refine (proj1 (proj2 (proj2
            (create_timeline_walk example_matches (py "/tmp/srt_sync_0") _)))).
  repeat constructor; eexists; eexists; reflexivity.
Defined.

(** ** ClipLocator *)

Lemma str_eqb_eq (a b : str) : str_eqb a b = true <-> a = b.
Proof.
  unfold str_eqb. destruct (list_eq_dec ascii_dec a b); split; congruence.
Qed.

Lemma mem_In (x : str) (l : list str) : mem x l = true <-> In x l.
Proof.
  unfold mem. rewrite existsb_exists. split.
  - intros (y & Hy & He). apply str_eqb_eq in He. now subst.
  - intros H. exists x. split; [exact H | now apply str_eqb_eq].
Qed.

Lemma startswith_prefix (s p : str) :
  startswith s p = true <-> exists rest, s = (p ++ rest)%list.
Proof.
  revert s. induction p as [|x p IH]; intros s; cbn.
  - split; [intros _; now exists s | reflexivity].
  - destruct s as [|y s].
    + split; [discriminate | intros (rest & H); discriminate].
    + rewrite andb_true_iff, Ascii.eqb_eq, IH. split.
      * intros (-> & rest & ->). now exists rest.
      * intros (rest & H). injection H as -> ->. split; [reflexivity | now exists rest].
Qed.

Lemma accepts_candidate (os : os_view) (audio_dir r f : str) :
  accepts os audio_dir r f = true <-> candidate os audio_dir r f.
Proof.
  unfold accepts, candidate.
  destruct (splitext f) as [name ext]; cbn [fst snd].
  destruct (isfile os (join audio_dir f)); cbn [negb].
  2: { split; [discriminate | intros (H & _); discriminate]. }
  destruct (mem (lower ext) audio_extensions) eqn:Hm; cbn [negb].
  2: { split; [discriminate|]. intros (_ & H & _).
       apply mem_In in H. congruence. }
  apply mem_In in Hm.
  destruct (str_eqb name r) eqn:He.
  - apply str_eqb_eq in He. tauto.
  - rewrite startswith_prefix. split.
    + intros (rest & H). split; [reflexivity|]. split; [exact Hm|].
      right. exists rest. now rewrite <- app_assoc in H.
    + intros (_ & _ & [H | (rest & H)]).
      * apply str_eqb_eq in H. congruence.
      * exists rest. now rewrite <- app_assoc.
Qed.

Lemma scan_files_first (os : os_view) (d r : str) (files : list str) :
  forall (j : nat) (f : str),
    nth_error files j = Some f ->
    accepts os d r f = true ->
    (forall j' f', (j' < j)%nat -> nth_error files j' = Some f' ->
                   accepts os d r f' = false) ->
    scan_files os d r files = Some (join d f).
Proof.
  induction files as [|g files IH]; intros j f Hj Hf Hbefore.
  - destruct j; discriminate.
  - destruct j as [|j]; cbn in Hj.
    + injection Hj as ->. cbn. now rewrite Hf.
    + cbn. rewrite (Hbefore 0%nat g) by (cbn; (lia || reflexivity)).
      apply (IH j f Hj Hf).
      intros j' f' Hlt Hn. apply (Hbefore (S j') f'); [lia | exact Hn].
Qed.

Lemma scan_files_none (os : os_view) (d r : str) (files : list str) :
  (forall f, In f files -> accepts os d r f = false) ->
  scan_files os d r files = None.
Proof.
  induction files as [|g files IH]; intros H; cbn; [reflexivity|].
  rewrite (H g) by now left.
  apply IH. intros f Hf. apply H. now right.
Qed.

Lemma scan_formats_first (os : os_view) (d : str) (files formats : list str) :
  forall (i : nat) (r : str) (path : str),
    nth_error formats i = Some r ->
    scan_files os d r files = Some path ->
    (forall i' r', (i' < i)%nat -> nth_error formats i' = Some r' ->
                   scan_files os d r' files = None) ->
    scan_formats os d formats files = Some path.
Proof.
  induction formats as [|q formats IH]; intros i r path Hi Hr Hbefore.
  - destruct i; discriminate.
  - destruct i as [|i]; cbn in Hi.
    + injection Hi as ->. cbn. now rewrite Hr.
    + cbn. rewrite (Hbefore 0%nat q) by (cbn; (lia || reflexivity)).
      cbn. apply (IH i r path Hi Hr).
      intros i' r' Hlt Hn. apply (Hbefore (S i') r'); [lia | exact Hn].
Qed.

Lemma not_accepts (os : os_view) (d r f : str) :
  ~ candidate os d r f -> accepts os d r f = false.
Proof.
  intros H. destruct (accepts os d r f) eqn:E; [|reflexivity].
  apply accepts_candidate in E. contradiction.
Qed.

(** Decimal strings of non-negative integers. *)
Lemma digit_char_isdigit (d : Z) : 0 <= d <= 9 -> isdigit (digit_char d) = true.
Proof.
  intros H.
  assert (C : d = 0 \/ d = 1 \/ d = 2 \/ d = 3 \/ d = 4 \/ d = 5 \/ d = 6
              \/ d = 7 \/ d = 8 \/ d = 9) by lia.
  repeat (destruct C as [-> | C]; [reflexivity|]). now subst.
Qed.

Lemma digit_char_val (d : Z) : 0 <= d <= 9 -> digit_val (digit_char d) = d.
Proof.
  intros H.
  assert (C : d = 0 \/ d = 1 \/ d = 2 \/ d = 3 \/ d = 4 \/ d = 5 \/ d = 6
              \/ d = 7 \/ d = 8 \/ d = 9) by lia.
  repeat (destruct C as [-> | C]; [reflexivity|]). now subst.
Qed.

Lemma digits_of_isdigit (fuel : nat) :
  forall n, 0 <= n -> forallb isdigit (digits_of fuel n) = true.
Proof.
  induction fuel as [|f IH]; intros n Hn; cbn [digits_of]; [reflexivity|].
  rewrite forallb_app. cbn [forallb].
  rewrite digit_char_isdigit by (pose proof (Z.mod_pos_bound n 10); lia).
  rewrite andb_true_r.
  destruct (n <? 10); [reflexivity|].
  apply IH. apply Z.div_pos; lia.
Qed.

Lemma digits_of_nonempty (fuel : nat) (n : Z) :
  digits_of (S fuel) n <> [].
Proof. cbn [digits_of]. now destruct (if n <? 10 then _ else _). Qed.

Lemma str_of_Z_head (z : Z) :
  0 <= z ->
  match str_of_Z z with
  | c :: _ => isdigit c = true
  | [] => True
  end.
Proof.
  intros Hz. unfold str_of_Z.
  destruct (Z.ltb_spec z 0) as [|_]; [lia|].
  pose proof (digits_of_isdigit (S (Z.to_nat (Z.log2 z))) z Hz) as H.
  unfold str_of_nonneg.
  destruct (digits_of _ z) as [|c s]; [exact I|].
  cbn [forallb] in H. now apply andb_true_iff in H as [H _].
Qed.

Lemma zfill_unsigned (n : nat) (z : Z) :
  0 <= z -> zfill n (str_of_Z z) = zero_padded n (str_of_Z z).
Proof.
  intros Hz. unfold zfill, zero_padded.
  destruct (Nat.leb_spec n (List.length (str_of_Z z))) as [Hle|Hlt].
  - replace (n - List.length (str_of_Z z))%nat with 0%nat by lia. reflexivity.
  - pose proof (str_of_Z_head z Hz) as H.
    destruct (str_of_Z z) as [|c s]; [now rewrite app_nil_r|].
    replace (Ascii.eqb c "+" || Ascii.eqb c "-") with false; [reflexivity|].
    symmetry. apply orb_false_iff.
    split; apply Ascii.eqb_neq; intros ->; discriminate H.
Qed.

Lemma accepts_0007_exact (os : os_view) (d : str) :
  accepts os d (py "0007") (py "0007.wav") = isfile os (join d (py "0007.wav")).
Proof. unfold accepts. now destruct (isfile os (join d (py "0007.wav"))). Qed.

Lemma accepts_0007_extra (os : os_view) (d : str) :
  accepts os d (py "0007") (py "007_extra.wav") = false.
Proof. unfold accepts. now destruct (isfile os (join d (py "007_extra.wav"))). Qed.

(** C5.  When the directory can be listed, the locator goes through the
    index representations in the order 4-digit zero-padded, 3-digit
    zero-padded, unpadded, and within a representation through the listing
    in order; it returns the first candidate met, a candidate being a
    regular file whose lower-cased extension is in the whitelist and whose
    name without extension is the representation or starts with the
    representation and an underscore.  For index 7 and a directory made of
    the files [0007.wav] and [007_extra.wav], in either listing order, the
    result is [0007.wav]. *)
Theorem find_audio_priority (os : os_view) (sub : SubtitleLine)
    (audio_dir : str) (all_files : list str) :
  listdir os audio_dir = Some all_files ->
  let formats := index_formats (index sub) in
  let d := str_of_Z (index sub) in
  (0 <= index sub -> formats = [zero_padded 4 d; zero_padded 3 d; d])
  /\ (forall (i j : nat) (r f : str),
        nth_error formats i = Some r ->
        nth_error all_files j = Some f ->
        candidate os audio_dir r f ->
        (forall i' r' f', (i' < i)%nat -> nth_error formats i' = Some r' ->
                          In f' all_files -> ~ candidate os audio_dir r' f') ->
        (forall j' f', (j' < j)%nat -> nth_error all_files j' = Some f' ->
                       ~ candidate os audio_dir r f') ->
        find_audio_for_subtitle os sub audio_dir = Some (join audio_dir f))
  /\ (index sub = 7 ->
      all_files = [py "0007.wav"; py "007_extra.wav"]
      \/ all_files = [py "007_extra.wav"; py "0007.wav"] ->
      isfile os (join audio_dir (py "0007.wav")) = true ->
      isfile os (join audio_dir (py "007_extra.wav")) = true ->
      find_audio_for_subtitle os sub audio_dir
      = Some (join audio_dir (py "0007.wav"))).
Proof.
  intros Hl formats d. split; [|split].
  - intros Hz. unfold formats, index_formats.
    now rewrite !zfill_unsigned by exact Hz.
  - intros i j r f Hi Hj Hc Hfmt Hfile.
    unfold find_audio_for_subtitle, scan_directory. rewrite Hl.
    fold formats.
    rewrite (scan_formats_first os audio_dir all_files formats i r
               (join audio_dir f)); [reflexivity | exact Hi | |].
    + apply (scan_files_first os audio_dir r all_files j f Hj).
      * now apply accepts_candidate.
      * intros j' f' Hlt Hn. apply not_accepts. now apply (Hfile j' f').
    + intros i' r' Hlt Hn. apply scan_files_none.
      intros f' Hf'. apply not_accepts. now apply (Hfmt i' r' f').
  - intros Hidx Hfiles Ha Hb.
    unfold find_audio_for_subtitle, scan_directory. rewrite Hl, Hidx.
    change (index_formats 7) with [py "0007"; py "007"; py "7"].
    destruct Hfiles as [-> | ->]; cbn [scan_formats scan_files];
      rewrite ?accepts_0007_extra, accepts_0007_exact, Ha; reflexivity.
Qed.

Lemma find_audio_priority_witness :
  find_audio_for_subtitle example_dir example_cue7 (py "/clips")
  = Some (join (py "/clips") (py "0007.wav")).
Proof.
  refine (proj2 (proj2
            (find_audio_priority example_dir example_cue7 (py "/clips")
               [py "007_extra.wav"; py "0007.wav"] _)) _ _ _ _);
    try reflexivity.
  right. reflexivity.
Defined.

(** ** The matcher *)

Lemma orelse_Some {A : Type} (a b : option A) (x : A) :
  orelse a b = Some x -> a = Some x \/ b = Some x.
Proof. destruct a; cbn; intros H; [left | right]; assumption. Qed.

Lemma orelse_None_r {A : Type} (a : option A) : orelse a None = a.
Proof. now destruct a. Qed.

Lemma consumed_app (w s : str) : consumed (w ++ s) s = w.
Proof.
  unfold consumed. rewrite length_app.
  replace (List.length w + List.length s - List.length s)%nat
    with (List.length w + 0)%nat by lia.
  rewrite firstn_app_2. cbn. apply app_nil_r.
Qed.

Lemma rep_unfold (g : bool) (p : ascii -> bool) (s : str) (lo : nat)
    (hi : option nat) (k : str -> answer) :
  rep g p s lo hi k
  = let stop := if Nat.eqb lo 0 then k s else None in
    let step :=
      match s with
      | c :: s' =>
          if p c && more hi
          then rep g p s' (Nat.pred lo) (option_map Nat.pred hi) k
          else None
      | [] => None
      end in
    if g then orelse step stop else orelse stop step.
Proof. destruct s; reflexivity. Qed.

Lemma rep_sound (g : bool) (p : ascii -> bool) (k : str -> answer)
    (res : str * captures) (s : str) :
  forall (lo : nat) (hi : option nat),
    rep g p s lo hi k = Some res ->
    exists w s1,
      s = (w ++ s1)%list /\ forallb p w = true /\ (lo <= List.length w)%nat
      /\ match hi with
         | Some h => (List.length w <= h)%nat
         | None => True
         end
      /\ k s1 = Some res.
Proof.
  induction s as [|c s IH]; intros lo hi H; rewrite rep_unfold in H; cbv zeta in H.
  - assert (Hs : (if Nat.eqb lo 0 then k [] else None) = Some res).
    { destruct g; apply orelse_Some in H as [H | H]; congruence. }
    destruct (Nat.eqb_spec lo 0); [|discriminate].
    exists [], []. subst lo. repeat split; auto.
    destruct hi; [cbn; lia | exact I].
  - assert (Hs : (if Nat.eqb lo 0 then k (c :: s) else None) = Some res
                 \/ (if p c && more hi
                     then rep g p s (Nat.pred lo) (option_map Nat.pred hi) k
                     else None) = Some res).
    { destruct g; apply orelse_Some in H as [H | H]; auto. }
    destruct Hs as [Hs | Hs].
    + destruct (Nat.eqb_spec lo 0); [|discriminate].
      exists [], (c :: s). subst lo. repeat split; auto.
      destruct hi; [cbn; lia | exact I].
    + destruct (p c) eqn:Hc; [|discriminate].
      destruct (more hi) eqn:Hm; [|discriminate].
      cbn [andb] in Hs.
      apply IH in Hs as (w & s1 & -> & Hw & Hlo & Hhi & Hk).
      exists (c :: w), s1. cbn [forallb List.length]. rewrite Hc, Hw.
      repeat split; auto; [lia|].
      destruct hi as [[|h]|]; cbn in *; try discriminate; try exact I. lia.
Qed.

(** Whatever the matcher finds is a match. *)
Theorem rmatch_sound (r : regex) :
  forall (s : str) (c : captures) (k : str -> captures -> answer)
         (res : str * captures),
    rmatch r s c k = Some res ->
    exists s1 c1, Matches r s c s1 c1 /\ k s1 c1 = Some res.
Proof.
  induction r as [ | p | r1 IH1 r2 IH2 | r1 IH1 r2 IH2 | g lo hi p
                 | i r IH | r IH | ]; intros s c k res H; cbn [rmatch] in H.
  - exists s, c. split; [constructor | exact H].
  - destruct s as [|x s]; [discriminate|].
    destruct (p x) eqn:Hp; [|discriminate].
    exists s, c. split; [now constructor | exact H].
  - apply IH1 in H as (s1 & c1 & M1 & H).
    apply IH2 in H as (s2 & c2 & M2 & H).
    exists s2, c2. split; [econstructor; eassumption | exact H].
  - apply orelse_Some in H as [H | H].
    + apply IH1 in H as (s1 & c1 & M & H).
      exists s1, c1. split; [now apply MAltL | exact H].
    + apply IH2 in H as (s1 & c1 & M & H).
      exists s1, c1. split; [now apply MAltR | exact H].
  - apply rep_sound in H as (w & s1 & -> & Hw & Hlo & Hhi & Hk).
    exists s1, c. split; [now constructor | exact Hk].
  - apply IH in H as (s1 & c1 & M & H).
    exists s1, ((i, consumed s s1) :: c1). split; [now constructor | exact H].
  - destruct (rmatch r s c (fun s1 c1 => Some (s1, c1))) as [[x c1]|] eqn:E;
      [|discriminate].
    apply IH in E as (s1 & c1' & M & E). injection E as <- <-.
    exists s, c1'. split; [econstructor; eassumption | exact H].
  - destruct s as [|x [|y s]].
    + exists [], c. split; [constructor; now left | exact H].
    + destruct (Ascii.eqb_spec x nl); [|discriminate]. subst x.
      exists [nl], c. split; [constructor; now right | exact H].
    + discriminate.
Qed.

Lemma re_match_sound (r : regex) (s s1 : str) (c1 : captures) :
  re_match r s = Some (s1, c1) -> Matches r s [] s1 c1.
Proof.
  unfold re_match. intros H.
  apply rmatch_sound in H as (s1' & c1' & M & E). now injection E as <- <-.
Qed.

Lemma Matches_suffix r s c s1 c1 :
  Matches r s c s1 c1 -> exists w, s = (w ++ s1)%list.
Proof.
  induction 1.
  - now exists [].
  - now exists [x].
  - destruct IHMatches1 as (w1 & ->), IHMatches2 as (w2 & ->).
    exists (w1 ++ w2)%list. now rewrite app_assoc.
  - assumption.
  - assumption.
  - now exists w.
  - assumption.
  - now exists [].
  - now exists [].
Qed.

(** ** Evaluating the matcher on the pieces of a timestamp *)

Lemma rep_done (g : bool) (p : ascii -> bool) (s : str) (k : str -> answer) :
  rep g p s 0 (Some 0%nat) k = k s.
Proof.
  rewrite rep_unfold. cbv zeta. cbn [Nat.eqb more].
  destruct s as [|x s]; rewrite ?andb_false_r; destruct g; cbn [orelse];
    try reflexivity.
  - now destruct (k []).
  - now destruct (k (x :: s)).
Qed.

Lemma rep_exact (g : bool) (p : ascii -> bool) (w s : str) (k : str -> answer) :
  forallb p w = true ->
  rep g p (w ++ s) (List.length w) (Some (List.length w)) k = k s.
Proof.
  induction w as [|x w IH]; intros Hw.
  - apply rep_done.
  - cbn [forallb] in Hw. apply andb_true_iff in Hw as [Hx Hw].
    cbn [List.length app]. rewrite rep_unfold. cbv zeta.
    cbn [Nat.eqb more Nat.pred option_map]. rewrite Hx. cbn [andb].
    rewrite (IH Hw). destruct g; cbn [orelse]; [apply orelse_None_r | reflexivity].
Qed.

Lemma rmatch_lit (x : ascii) (s : str) (c : captures)
    (k : str -> captures -> answer) :
  rmatch (Lit x) (x :: s) c k = k s c.
Proof. cbn. now rewrite Ascii.eqb_refl. Qed.

Lemma rmatch_digits (i n : nat) (w s : str) (c : captures)
    (k : str -> captures -> answer) :
  forallb isdigit w = true -> List.length w = n ->
  rmatch (Grp i (digits n n)) (w ++ s) c k = k s ((i, w) :: c).
Proof.
  intros Hw <-. cbn [rmatch digits].
  rewrite rep_exact by exact Hw. now rewrite consumed_app.
Qed.

(** One or two digits, then something that stops at a digit: the greedy
    choice is the only one. *)
Lemma rmatch_hours (i : nat) (w : str) (x : ascii) (s : str) (c : captures)
    (k : str -> captures -> answer) :
  forallb isdigit w = true ->
  (List.length w = 1 \/ List.length w = 2)%nat ->
  isdigit x = false ->
  (forall y s' c', isdigit y = true -> k (y :: s') c' = None) ->
  rmatch (Grp i (digits 1 2)) (w ++ x :: s) c k = k (x :: s) ((i, w) :: c).
Proof.
  intros Hw Hl Hx Hk.
  destruct w as [|a [|b [|]]]; cbn in Hl; try lia.
  - cbn [forallb] in Hw. rewrite andb_true_r in Hw.
    cbn [rmatch digits app].
    rewrite rep_unfold. cbv zeta. cbn [Nat.eqb more Nat.pred option_map].
    rewrite Hw. cbn [andb].
    rewrite rep_unfold. cbv zeta. cbn [Nat.eqb more Nat.pred option_map].
    rewrite Hx. cbn [andb orelse].
    change (a :: x :: s) with ([a] ++ x :: s)%list.
    rewrite consumed_app. apply orelse_None_r.
  - cbn [forallb] in Hw. rewrite andb_true_r in Hw.
    apply andb_true_iff in Hw as [Ha Hb].
    cbn [rmatch digits app].
    rewrite rep_unfold. cbv zeta. cbn [Nat.eqb more Nat.pred option_map].
    rewrite Ha. cbn [andb].
    rewrite rep_unfold. cbv zeta. cbn [Nat.eqb more Nat.pred option_map].
    rewrite Hb. cbn [andb].
    rewrite rep_done.
    change (a :: b :: x :: s) with ([a; b] ++ x :: s)%list.
    rewrite consumed_app.
    rewrite (Hk b (x :: s)) by exact Hb.
    cbn [orelse]. rewrite !orelse_None_r. reflexivity.
Qed.

(** ** TimeCodec: normalising the input *)

Lemma digit_not_space (c : ascii) : isdigit c = true -> isspace c = false.
Proof.
  unfold isdigit, isspace. intros H.
  apply andb_true_iff in H as [H1 H2].
  apply N.leb_le in H1. apply N.leb_le in H2.
  repeat (apply orb_false_iff; split);
    try (apply andb_false_iff; (left; apply N.leb_gt; lia) || (right; apply N.leb_gt; lia));
    apply N.eqb_neq; lia.
Qed.

Lemma digit_code (c : ascii) :
  isdigit c = true -> (48 <= code c <= 57)%N.
Proof.
  unfold isdigit. intros H. apply andb_true_iff in H as [H1 H2].
  apply N.leb_le in H1. apply N.leb_le in H2. lia.
Qed.

Lemma digit_neq (c x : ascii) :
  isdigit c = true -> isdigit x = false -> c <> x.
Proof. intros Hc Hx ->. congruence. Qed.

Lemma digit_not_colon (c : ascii) :
  isdigit c = true -> Ascii.eqb ":" c = false.
Proof.
  intros H. apply Ascii.eqb_neq. intros <-. discriminate H.
Qed.

Lemma lstrip_spaces (ws : str) (x : ascii) (u : str) :
  forallb isspace ws = true -> isspace x = false ->
  lstrip (ws ++ x :: u) = x :: u.
Proof.
  intros Hws Hx. induction ws as [|w ws IH]; cbn.
  - now rewrite Hx.
  - cbn in Hws. apply andb_true_iff in Hws as [Hw Hws].
    rewrite Hw. now apply IH.
Qed.

Lemma lstrip_app_keep (a : str) (x : ascii) (b : str) :
  isspace x = false ->
  lstrip (a ++ x :: b) = (lstrip (a ++ [x]) ++ b)%list.
Proof.
  intros Hx. induction a as [|c a IH]; cbn.
  - now rewrite Hx.
  - destruct (isspace c); [exact IH|].
    cbn [app]. now rewrite <- app_assoc.
Qed.

Lemma lstrip_last_keep (a : str) (x : ascii) :
  isspace x = false -> exists a', lstrip (a ++ [x]) = (a' ++ [x])%list.
Proof.
  intros Hx. induction a as [|c a IH]; cbn.
  - rewrite Hx. now exists [].
  - destruct (isspace c); [exact IH | now exists (c :: a)].
Qed.

Lemma rstrip_keep (u : str) (z : ascii) (v : str) :
  isspace z = false ->
  rstrip (u ++ z :: v) = (u ++ z :: rstrip v)%list.
Proof.
  intros Hz. unfold rstrip.
  rewrite rev_app_distr. cbn [rev]. rewrite <- app_assoc. cbn [app].
  rewrite lstrip_app_keep by exact Hz.
  destruct (lstrip_last_keep (rev v) z Hz) as (a' & Ha).
  rewrite rev_app_distr, rev_involutive.
  f_equal.
  assert (Hl : lstrip (rev v ++ [z]) = (lstrip (rev v) ++ [z])%list
               \/ lstrip (rev v) = []).
  { clear. induction (rev v) as [|c a IH]; cbn; [now right|].
    destruct (isspace c); [exact IH | now left]. }
  destruct Hl as [Hl | Hl].
  - rewrite Hl, rev_app_distr. reflexivity.
  - rewrite Hl. cbn [rev app].
    assert (Hall : forallb isspace (rev v) = true).
    { revert Hl. clear. induction (rev v) as [|c a IH]; cbn; [reflexivity|].
      destruct (isspace c); [exact IH | discriminate]. }
    rewrite lstrip_spaces with (u := []) by assumption. reflexivity.
Qed.

Lemma strip_core (ws : str) (x : ascii) (u : str) (z : ascii) (rest : str) :
  forallb isspace ws = true -> isspace x = false -> isspace z = false ->
  strip (ws ++ (x :: u ++ [z]) ++ rest) = (x :: u ++ z :: rstrip rest)%list.
Proof.
  intros Hws Hx Hz. unfold strip.
  cbn [app]. rewrite lstrip_spaces by assumption.
  rewrite <- app_assoc. cbn [app].
  change (x :: u ++ z :: rest)%list with ((x :: u) ++ z :: rest)%list.
  now rewrite rstrip_keep.
Qed.

(** The input is its stripped text between two runs of whitespace. *)
Lemma lstrip_decompose (s : str) :
  exists ws, forallb isspace ws = true /\ s = (ws ++ lstrip s)%list.
Proof.
  induction s as [|c s (ws & Hws & Hs)]; cbn.
  - now exists [].
  - destruct (isspace c) eqn:Hc.
    + exists (c :: ws). cbn. rewrite Hc, Hws. split; [reflexivity|].
      now rewrite <- Hs.
    + now exists [].
Qed.

Lemma rstrip_decompose (s : str) :
  exists ws, s = (rstrip s ++ ws)%list.
Proof.
  unfold rstrip.
  destruct (lstrip_decompose (rev s)) as (ws & _ & Hs).
  exists (rev ws).
  rewrite <- rev_app_distr, <- Hs. now rewrite rev_involutive.
Qed.

Lemma strip_decompose (s : str) :
  exists ws ws', forallb isspace ws = true /\ s = (ws ++ strip s ++ ws')%list.
Proof.
  destruct (lstrip_decompose s) as (ws & Hws & Hs).
  destruct (rstrip_decompose (lstrip s)) as (ws' & Hs').
  exists ws, ws'. split; [exact Hws|].
  unfold strip. now rewrite <- Hs'.
Qed.

Lemma replace_comma (s : str) :
  replace (py ",") (py ".") s = flat_map comma_to_dot s.
Proof. change (py ",") with [","%char]. apply replace_single. Qed.

(** Text without commas is left alone. *)
Lemma comma_to_dot_id (w : str) :
  forallb (fun c => negb (Ascii.eqb c ",")) w = true ->
  flat_map comma_to_dot w = w.
Proof.
  induction w as [|c w IH]; intros H; [reflexivity|].
  cbn [forallb] in H. apply andb_true_iff in H as [Hc Hw].
  cbn [flat_map]. unfold comma_to_dot at 1.
  apply negb_true_iff in Hc. rewrite Hc. cbn. now rewrite IH.
Qed.

(** A prefix without dots of the replaced text is a prefix of the text. *)
Lemma comma_to_dot_prefix (w : str) :
  forallb (fun c => negb (Ascii.eqb c ".")) w = true ->
  forall u s1,
    flat_map comma_to_dot u = (w ++ s1)%list ->
    exists u2, u = (w ++ u2)%list /\ flat_map comma_to_dot u2 = s1.
Proof.
  induction w as [|a w IH]; intros Hw u s1 H.
  - now exists u.
  - cbn [forallb] in Hw. apply andb_true_iff in Hw as [Ha Hw].
    apply negb_true_iff, Ascii.eqb_neq in Ha.
    destruct u as [|c u]; [discriminate|].
    cbn [flat_map] in H. unfold comma_to_dot at 1 in H.
    destruct (Ascii.eqb c ","); cbn in H; injection H as Hc H.
    + congruence.
    + subst c. destruct (IH Hw u s1 H) as (u2 & -> & Hu2).
      now exists u2.
Qed.

Lemma digits_no_comma (w : str) :
  forallb isdigit w = true ->
  forallb (fun c => negb (Ascii.eqb c ",")) w = true.
Proof.
  intros H. rewrite forallb_forall in *. intros c Hc.
  apply negb_true_iff, Ascii.eqb_neq. intros ->. now apply H in Hc.
Qed.

Lemma digits_no_dot (w : str) :
  forallb isdigit w = true ->
  forallb (fun c => negb (Ascii.eqb c ".")) w = true.
Proof.
  intros H. rewrite forallb_forall in *. intros c Hc.
  apply negb_true_iff, Ascii.eqb_neq. intros ->. now apply H in Hc.
Qed.

Lemma plain_no_comma (h m s : str) :
  hms h m s ->
  forallb (fun c => negb (Ascii.eqb c ",")) (plain_text h m s) = true.
Proof.
  intros (Hh & _ & Hm & _ & Hs & _). unfold plain_text.
  rewrite forallb_app. cbn [forallb]. rewrite forallb_app. cbn [forallb].
  now rewrite !digits_no_comma.
Qed.

Lemma plain_no_dot (h m s : str) :
  hms h m s ->
  forallb (fun c => negb (Ascii.eqb c ".")) (plain_text h m s) = true.
Proof.
  intros (Hh & _ & Hm & _ & Hs & _). unfold plain_text.
  rewrite forallb_app. cbn [forallb]. rewrite forallb_app. cbn [forallb].
  now rewrite !digits_no_dot.
Qed.

(** A plain timestamp text is a digit, some text, and a digit. *)
Lemma plain_ends (h m s : str) :
  hms h m s ->
  exists x u z,
    plain_text h m s = (x :: u ++ [z])%list
    /\ isdigit x = true /\ isdigit z = true.
Proof.
  intros (Hh & Hlh & Hm & Hlm & Hs & Hls).
  destruct s as [|s1 [|s2 [|]]]; try discriminate Hls.
  destruct h as [|a h]; [cbn in Hlh; lia|].
  cbn [forallb] in Hh, Hs.
  apply andb_true_iff in Hh as [Ha _].
  apply andb_true_iff in Hs as [_ Hs]. rewrite andb_true_r in Hs.
  exists a, (h ++ ":"%char :: m ++ [":"%char; s1])%list, s2.
  split; [|now split].
  unfold plain_text. cbn [app]. f_equal.
  rewrite <- !app_assoc. cbn [app]. f_equal. f_equal.
  rewrite <- app_assoc. reflexivity.
Qed.

Lemma millis_end (ms : str) :
  millis ms -> exists u z, ms = (u ++ [z])%list /\ isdigit z = true.
Proof.
  intros (Hd & Hl).
  destruct ms as [|a [|b [|c [|]]]]; try discriminate Hl.
  cbn [forallb] in Hd.
  apply andb_true_iff in Hd as [_ Hd].
  apply andb_true_iff in Hd as [_ Hd]. rewrite andb_true_r in Hd.
  now exists [a; b], c.
Qed.

Lemma normalized_plain (ws h m s rest : str) :
  forallb isspace ws = true -> hms h m s ->
  normalized (ws ++ plain_text h m s ++ rest)
  = (plain_text h m s ++ flat_map comma_to_dot (rstrip rest))%list.
Proof.
  intros Hws H. unfold normalized. rewrite replace_comma.
  destruct (plain_ends h m s H) as (x & u & z & E & Hx & Hz).
  rewrite E.
  rewrite strip_core by auto using digit_not_space.
  change (x :: u ++ z :: rstrip rest)%list
    with ((x :: u) ++ z :: rstrip rest)%list.
  replace ((x :: u) ++ z :: rstrip rest)%list
    with ((x :: u ++ [z]) ++ rstrip rest)%list
    by (cbn [app]; now rewrite <- app_assoc).
  rewrite flat_map_app, <- E.
  now rewrite comma_to_dot_id by now apply plain_no_comma.
Qed.

Lemma normalized_frac (ws h m s : str) (sep : ascii) (ms rest : str) :
  forallb isspace ws = true -> hms h m s -> separator sep -> millis ms ->
  normalized (ws ++ frac_text h m s sep ms ++ rest)
  = (frac_text h m s "." ms ++ flat_map comma_to_dot (rstrip rest))%list.
Proof.
  intros Hws H Hsep Hms. unfold normalized. rewrite replace_comma.
  destruct (plain_ends h m s H) as (x & u & z & E & Hx & Hz).
  destruct (millis_end ms Hms) as (v & y & -> & Hy).
  unfold frac_text. rewrite E.
  replace ((x :: u ++ [z]) ++ sep :: v ++ [y])%list
    with (x :: (u ++ z :: sep :: v) ++ [y])%list
    by (cbn [app]; rewrite <- !app_assoc; reflexivity).
  rewrite strip_core by auto using digit_not_space.
  replace (x :: (u ++ z :: sep :: v) ++ y :: rstrip rest)%list
    with ((x :: u ++ [z]) ++ (sep :: (v ++ [y]) ++ rstrip rest))%list
    by (cbn [app]; rewrite <- !app_assoc; reflexivity).
  rewrite flat_map_app, <- E.
  rewrite comma_to_dot_id by now apply plain_no_comma.
  rewrite <- (app_assoc (plain_text h m s)). f_equal.
  cbn [flat_map]. rewrite flat_map_app.
  rewrite (comma_to_dot_id (v ++ [y])) by (apply digits_no_comma, Hms).
  destruct Hsep as [-> | ->]; reflexivity.
Qed.

(** ** TimeCodec: the two patterns on timestamp texts *)

Lemma rmatch_cat r1 r2 s c k :
  rmatch (Cat r1 r2) s c k = rmatch r1 s c (fun s1 c1 => rmatch r2 s1 c1 k).
Proof. reflexivity. Qed.

Lemma colon_stops_digit r (y : ascii) (s : str) (c : captures) k :
  isdigit y = true -> rmatch (Cat (Lit ":") r) (y :: s) c k = None.
Proof.
  intros Hy. rewrite rmatch_cat. unfold Lit. cbn [rmatch].
  now rewrite digit_not_colon.
Qed.

(** Hours, colon, minutes, colon, seconds, then the rest of the pattern. *)
Lemma rmatch_hms (h m s : str) (r : regex) (rest : str)
    (k : str -> captures -> answer) :
  hms h m s ->
  rmatch (Cat (Grp 1 (digits 1 2))
           (Cat (Lit ":") (Cat (Grp 2 (digits 2 2))
             (Cat (Lit ":") (Cat (Grp 3 (digits 2 2)) r)))))
         (plain_text h m s ++ rest) [] k
  = rmatch r rest [(3%nat, s); (2%nat, m); (1%nat, h)] k.
Proof.
  intros (Hh & Hlh & Hm & Hlm & Hs & Hls).
  unfold plain_text. rewrite <- app_assoc. cbn [app].
  rewrite rmatch_cat.
  rewrite rmatch_hours; auto.
  2: { intros y s' c' Hy. now apply colon_stops_digit. }
  rewrite rmatch_cat, rmatch_lit.
  rewrite <- app_assoc. cbn [app].
  rewrite rmatch_cat, rmatch_digits by assumption.
  rewrite rmatch_cat, rmatch_lit.
  rewrite rmatch_cat, rmatch_digits by assumption.
  reflexivity.
Qed.

Lemma re_match_plain (h m s rest : str) :
  hms h m s ->
  re_match time_plain (plain_text h m s ++ rest)
  = Some (rest, [(3%nat, s); (2%nat, m); (1%nat, h)]).
Proof.
  intros (Hh & Hlh & Hm & Hlm & Hs & Hls).
  unfold re_match, time_plain, plain_text. cbn [sequence].
  rewrite <- app_assoc. cbn [app].
  rewrite rmatch_cat.
  rewrite rmatch_hours; auto.
  2: { intros y s' c' Hy. now apply colon_stops_digit. }
  rewrite rmatch_cat, rmatch_lit.
  rewrite <- app_assoc. cbn [app].
  rewrite rmatch_cat, rmatch_digits by assumption.
  rewrite rmatch_cat, rmatch_lit.
  now rewrite rmatch_digits.
Qed.

Lemma re_match_frac (h m s ms rest : str) :
  hms h m s -> millis ms ->
  re_match time_frac (frac_text h m s "." ms ++ rest)
  = Some (rest, [(4%nat, ms); (3%nat, s); (2%nat, m); (1%nat, h)]).
Proof.
  intros H (Hd & Hl). unfold re_match, time_frac, frac_text. cbn [sequence].
  rewrite <- app_assoc. rewrite rmatch_hms by exact H.
  cbn [app]. rewrite rmatch_cat, rmatch_lit.
  now rewrite rmatch_digits.
Qed.

(** ** Reading a match back *)

Lemma Matches_lit_inv (x : ascii) s c s1 c1 :
  Matches (Lit x) s c s1 c1 -> s = x :: s1 /\ c1 = c.
Proof.
  unfold Lit. intros M. inversion M; subst.
  match goal with H : Ascii.eqb _ _ = true |- _ => apply Ascii.eqb_eq in H end.
  now subst.
Qed.

Lemma Matches_chr_inv (p : ascii -> bool) s c s1 c1 :
  Matches (Chr p) s c s1 c1 -> exists x, s = x :: s1 /\ p x = true /\ c1 = c.
Proof. intros M. inversion M; subst. eauto. Qed.

Lemma Matches_rep_inv g lo hi (p : ascii -> bool) s c s1 c1 :
  Matches (Rep g lo hi p) s c s1 c1 ->
  exists w, s = (w ++ s1)%list /\ forallb p w = true
            /\ (lo <= List.length w)%nat
            /\ match hi with
               | Some h => (List.length w <= h)%nat
               | None => True
               end
            /\ c1 = c.
Proof. intros M. inversion M; subst. exists w. auto. Qed.

Lemma Matches_digits_inv (lo hi : nat) s c s1 c1 :
  Matches (digits lo hi) s c s1 c1 ->
  exists w, s = (w ++ s1)%list /\ forallb isdigit w = true
            /\ (lo <= List.length w <= hi)%nat /\ c1 = c.
Proof.
  unfold digits. intros M.
  apply Matches_rep_inv in M as (w & -> & Hw & Hlo & Hhi & ->).
  exists w. auto.
Qed.

Lemma Matches_grp_inv i r s c s1 c1 :
  Matches (Grp i r) s c s1 c1 ->
  exists c0, Matches r s c s1 c0 /\ c1 = (i, consumed s s1) :: c0.
Proof. intros M. inversion M; subst. eauto. Qed.

Lemma Matches_cat_inv r1 r2 s c s2 c2 :
  Matches (Cat r1 r2) s c s2 c2 ->
  exists s1 c1, Matches r1 s c s1 c1 /\ Matches r2 s1 c1 s2 c2.
Proof. intros M. inversion M; subst. eauto. Qed.

Lemma Matches_group_digits_inv (i lo hi : nat) s c s1 c1 :
  Matches (Grp i (digits lo hi)) s c s1 c1 ->
  exists w, s = (w ++ s1)%list /\ forallb isdigit w = true
            /\ (lo <= List.length w <= hi)%nat /\ c1 = (i, w) :: c.
Proof.
  intros M. apply Matches_grp_inv in M as (c0 & M & ->).
  apply Matches_digits_inv in M as (w & -> & Hw & Hl & ->).
  exists w. rewrite consumed_app. auto.
Qed.

(** A match of [H:MM:SS] followed by [r]. *)
Lemma Matches_hms_inv (r : regex) t s2 c2 :
  Matches (Cat (Grp 1 (digits 1 2))
            (Cat (Lit ":") (Cat (Grp 2 (digits 2 2))
              (Cat (Lit ":") (Cat (Grp 3 (digits 2 2)) r)))))
          t [] s2 c2 ->
  exists h m s rest,
    hms h m s /\ t = (plain_text h m s ++ rest)%list
    /\ Matches r rest [(3%nat, s); (2%nat, m); (1%nat, h)] s2 c2.
Proof.
  intros M.
  apply Matches_cat_inv in M as (x1 & c1 & M1 & M).
  apply Matches_group_digits_inv in M1 as (h & -> & Hh & Hlh & ->).
  apply Matches_cat_inv in M as (x2 & c2' & M1 & M).
  apply Matches_lit_inv in M1 as (-> & ->).
  apply Matches_cat_inv in M as (x3 & c3 & M1 & M).
  apply Matches_group_digits_inv in M1 as (m & -> & Hm & Hlm & ->).
  apply Matches_cat_inv in M as (x4 & c4 & M1 & M).
  apply Matches_lit_inv in M1 as (-> & ->).
  apply Matches_cat_inv in M as (x5 & c5 & M1 & M).
  apply Matches_group_digits_inv in M1 as (s & -> & Hs & Hls & ->).
  exists h, m, s, x5. split; [|split; [|exact M]].
  - unfold hms. repeat split; auto; lia.
  - unfold plain_text. rewrite <- !app_assoc. cbn [app].
    now rewrite <- !app_assoc.
Qed.

Lemma time_plain_inv t s2 c2 :
  Matches time_plain t [] s2 c2 ->
  exists h m s, hms h m s /\ t = (plain_text h m s ++ s2)%list.
Proof.
  intros M.
  assert (M' : Matches (Cat (Grp 1 (digits 1 2))
                 (Cat (Lit ":") (Cat (Grp 2 (digits 2 2))
                   (Cat (Lit ":") (Cat (Grp 3 (digits 2 2)) Eps)))))
                 t [] s2 c2).
  { unfold time_plain in M. cbn [sequence] in M.
    repeat (apply Matches_cat_inv in M as (? & ? & ? & M);
            econstructor; [eassumption|]).
    econstructor; [exact M | constructor]. }
  apply Matches_hms_inv in M' as (h & m & s & rest & H & -> & M').
  inversion M'; subst. now exists h, m, s.
Qed.

Lemma time_frac_inv t s2 c2 :
  Matches time_frac t [] s2 c2 ->
  exists h m s ms,
    hms h m s /\ millis ms /\ t = (frac_text h m s "." ms ++ s2)%list.
Proof.
  intros M. unfold time_frac in M. cbn [sequence] in M.
  apply Matches_hms_inv in M as (h & m & s & rest & H & -> & M).
  apply Matches_cat_inv in M as (s1 & c1 & M1 & M).
  apply Matches_lit_inv in M1 as (-> & ->).
  apply Matches_group_digits_inv in M as (ms & -> & Hms & Hl & ->).
  exists h, m, s, ms. split; [exact H|]. split.
  - split; [exact Hms | lia].
  - unfold frac_text. rewrite <- !app_assoc. reflexivity.
Qed.

(** Two timestamp prefixes of one text have the same fields. *)
Lemma plain_text_unique (h m s r h' m' s' r' : str) :
  hms h m s -> hms h' m' s' ->
  (plain_text h m s ++ r)%list = (plain_text h' m' s' ++ r')%list ->
  h = h' /\ m = m' /\ s = s' /\ r = r'.
Proof.
  intros (Hh & Hlh & Hm & Hlm & Hs & Hls) (Hh' & Hlh' & Hm' & Hlm' & Hs' & Hls').
  destruct m as [|m1 [|m2 [|]]]; try discriminate Hlm.
  destruct m' as [|n1 [|n2 [|]]]; try discriminate Hlm'.
  destruct s as [|s1 [|s2 [|]]]; try discriminate Hls.
  destruct s' as [|t1 [|t2 [|]]]; try discriminate Hls'.
  destruct h as [|a [|b [|]]]; cbn in Hlh; try lia;
  destruct h' as [|a' [|b' [|]]]; cbn in Hlh'; try lia;
  cbn [forallb] in *; rewrite ?andb_true_r in *;
  repeat match goal with H : _ && _ = true |- _ =>
           apply andb_true_iff in H as [? ?] end;
  unfold plain_text; cbn [app]; intros E; injection E; intros; subst;
  try (exfalso; discriminate);
  auto.
Qed.

(** ** [parse_srt_time] *)

Lemma parse_srt_time_unfold (t : str) :
  parse_srt_time t
  = match re_match time_frac (normalized t) with
    | None =>
        match re_match time_plain (normalized t) with
        | Some (_, m) =>
            Ok (PyInt (seconds_of (group 1 m) (group 2 m) (group 3 m)))
        | None => Raise ValueError
        end
    | Some (_, m) =>
        Ok (PyFloat (time_value (group 1 m) (group 2 m) (group 3 m) (group 4 m)))
    end.
Proof. reflexivity. Qed.

Lemma parse_frac (ws h m s : str) (sep : ascii) (ms rest : str) :
  forallb isspace ws = true -> hms h m s -> separator sep -> millis ms ->
  parse_srt_time (ws ++ frac_text h m s sep ms ++ rest)
  = Ok (PyFloat (time_value h m s ms)).
Proof.
  intros Hws H Hsep Hms.
  rewrite parse_srt_time_unfold, normalized_frac by assumption.
  now rewrite re_match_frac.
Qed.

Lemma matches_frac_plain (t : str) : matches_frac t -> matches_plain t.
Proof.
  intros (ws & h & m & s & sep & ms & rest & Hws & H & _ & _ & ->).
  exists ws, h, m, s, (sep :: ms ++ rest)%list.
  repeat split; try apply H; auto.
  unfold frac_text. now rewrite <- !app_assoc.
Qed.

Lemma comma_to_dot_frac_start (u ms s2 : str) :
  millis ms ->
  flat_map comma_to_dot u = ("."%char :: ms ++ s2)%list ->
  exists sep u2, separator sep /\ u = (sep :: ms ++ u2)%list.
Proof.
  intros (Hd & Hl) E.
  destruct u as [|c u]; [discriminate|].
  cbn [flat_map] in E. unfold comma_to_dot at 1 in E.
  destruct (Ascii.eqb_spec c ","); cbn in E.
  - injection E as E. subst c.
    apply comma_to_dot_prefix in E as (u2 & -> & _);
      [|now apply digits_no_dot].
    exists ","%char, u2. split; [now left | reflexivity].
  - injection E as Hc E. subst c.
    apply comma_to_dot_prefix in E as (u2 & -> & _);
      [|now apply digits_no_dot].
    exists "."%char, u2. split; [now right | reflexivity].
Qed.

Lemma re_match_frac_on_plain (h m s rest : str) :
  hms h m s -> ~ frac_start rest ->
  re_match time_frac
    (plain_text h m s ++ flat_map comma_to_dot (rstrip rest)) = None.
Proof.
  intros H Hn.
  destruct (re_match time_frac _) as [[s2 c2]|] eqn:E; [|reflexivity].
  exfalso. apply Hn.
  apply re_match_sound, time_frac_inv in E
    as (h' & m' & s' & ms' & H' & Hms' & E).
  unfold frac_text in E. rewrite <- app_assoc in E.
  apply plain_text_unique in E as (_ & _ & _ & E); [|assumption..].
  cbn [app] in E.
  apply comma_to_dot_frac_start in E as (sep & u2 & Hsep & E); [|exact Hms'].
  destruct (rstrip_decompose rest) as (ws' & Hr).
  exists sep, ms', (u2 ++ ws')%list. repeat split; try apply Hms'; auto.
  rewrite Hr at 1. rewrite E. cbn [app]. now rewrite <- app_assoc.
Qed.

Lemma parse_plain (ws h m s rest : str) :
  forallb isspace ws = true -> hms h m s -> ~ frac_start rest ->
  parse_srt_time (ws ++ plain_text h m s ++ rest)
  = Ok (PyInt (seconds_of h m s)).
Proof.
  intros Hws H Hn.
  rewrite parse_srt_time_unfold, normalized_plain by assumption.
  rewrite re_match_frac_on_plain by assumption.
  now rewrite re_match_plain.
Qed.

Lemma matches_plain_parse_ok (t : str) :
  matches_plain t -> exists v, parse_srt_time t = Ok v.
Proof.
  intros (ws & h & m & s & rest & Hws & H & ->).
  rewrite parse_srt_time_unfold, normalized_plain by assumption.
  destruct (re_match time_frac _) as [[s2 c2]|]; [eauto|].
  rewrite re_match_plain by assumption. eauto.
Qed.

Lemma normalized_prefix_plain (t : str) (h m s x : str) :
  hms h m s ->
  normalized t = (plain_text h m s ++ x)%list -> matches_plain t.
Proof.
  intros H E. unfold normalized in E. rewrite replace_comma in E.
  apply comma_to_dot_prefix in E as (u2 & E & _); [|now apply plain_no_dot].
  destruct (strip_decompose t) as (ws & ws' & Hws & Ht).
  exists ws, h, m, s, (u2 ++ ws')%list. repeat split; try apply H; auto.
  rewrite Ht at 1. rewrite E. now rewrite <- app_assoc.
Qed.

Lemma parse_ok_matches_plain (t : str) (v : pynum) :
  parse_srt_time t = Ok v -> matches_plain t.
Proof.
  rewrite parse_srt_time_unfold.
  destruct (re_match time_frac (normalized t)) as [[s2 c2]|] eqn:E1.
  - intros _. apply re_match_sound, time_frac_inv in E1
      as (h & m & s & ms & H & _ & E).
    unfold frac_text in E. rewrite <- app_assoc in E.
    now apply normalized_prefix_plain in E.
  - destruct (re_match time_plain (normalized t)) as [[s2 c2]|] eqn:E2;
      [|discriminate].
    intros _. apply re_match_sound, time_plain_inv in E2 as (h & m & s & H & E).
    now apply normalized_prefix_plain in E.
Qed.

Lemma parse_ok_or_value_error (t : str) :
  (exists v, parse_srt_time t = Ok v) \/ parse_srt_time t = Raise ValueError.
Proof.
  rewrite parse_srt_time_unfold.
  destruct (re_match time_frac _) as [[? ?]|]; [eauto|].
  destruct (re_match time_plain _) as [[? ?]|]; eauto.
Qed.

Lemma no_frac_start_nil : ~ frac_start [].
Proof. intros (sep & ms & r & _ & _ & E). discriminate E. Qed.

Lemma parse_frac_text (h m s : str) (sep : ascii) (ms : str) :
  hms h m s -> separator sep -> millis ms ->
  parse_srt_time (frac_text h m s sep ms) = Ok (PyFloat (time_value h m s ms)).
Proof.
  intros H Hsep Hms.
  pose proof (parse_frac [] h m s sep ms [] eq_refl H Hsep Hms) as E.
  cbn [app] in E. now rewrite app_nil_r in E.
Qed.

Lemma parse_plain_text (h m s : str) :
  hms h m s ->
  parse_srt_time (plain_text h m s) = Ok (PyInt (seconds_of h m s)).
Proof.
  intros H.
  pose proof (parse_plain [] h m s [] eq_refl H no_frac_start_nil) as E.
  cbn [app] in E. now rewrite app_nil_r in E.
Qed.

(** C3.  A timestamp [H:MM:SS.mmm] or [H:MM:SS,mmm] (one or two digits of
    hours) parses to the float [h*3600 + m*60 + s + ms/1000]; the form
    [H:MM:SS] parses to [h*3600 + m*60 + s]; and
    [parse("01:02:03,456") == 3723.456], [parse("1:00:00") == 3600.0]. *)
Theorem parse_srt_time_value :
  (forall (h m s : str) (sep : ascii) (ms : str),
      hms h m s -> separator sep -> millis ms ->
      parse_srt_time (frac_text h m s sep ms)
      = Ok (PyFloat (time_value h m s ms)))
  /\ (forall h m s : str,
         hms h m s ->
         parse_srt_time (plain_text h m s) = Ok (PyInt (seconds_of h m s)))
  /\ (exists v, parse_srt_time (py "01:02:03,456") = Ok v
                /\ py_eq v (PyFloat (dec 3723456 3)) = true)
  /\ (exists v, parse_srt_time (py "1:00:00") = Ok v
                /\ py_eq v (PyFloat (dec 36000 1)) = true).
Proof.
  split; [|split; [|split]].
  - intros h m s sep ms H Hsep Hms.
    pose proof (parse_frac [] h m s sep ms [] eq_refl H Hsep Hms) as E.
    cbn [app] in E. now rewrite app_nil_r in E.
  - intros h m s H.
    pose proof (parse_plain [] h m s [] eq_refl H no_frac_start_nil) as E.
    cbn [app] in E. now rewrite app_nil_r in E.
  - eexists. split; reflexivity.
  - eexists. split; reflexivity.
Qed.

Lemma parse_srt_time_value_witness :
  parse_srt_time (frac_text (py "01") (py "02") (py "03") "," (py "456"))
  = Ok (PyFloat (time_value (py "01") (py "02") (py "03") (py "456"))).
Proof.
  apply (proj1 parse_srt_time_value (py "01") (py "02") (py "03") ","%char
               (py "456")).
  - repeat split; auto.
  - now left.
  - now split.
Defined.

(** C7.  The parser raises ValueError (the spec's FormatError) exactly on
    the inputs that match neither the fractional pattern nor the plain
    one. *)
Theorem parse_srt_time_fails_iff (time_str : str) :
  parse_srt_time time_str = Raise ValueError
  <-> ~ matches_frac time_str /\ ~ matches_plain time_str.
Proof.
  split.
  - intros E.
    assert (Hp : ~ matches_plain time_str).
    { intros Hm. apply matches_plain_parse_ok in Hm as (v & Hv). congruence. }
    split; [|exact Hp].
    intros Hf. now apply Hp, matches_frac_plain.
  - intros (_ & Hp).
    destruct (parse_ok_or_value_error time_str) as [(v & Hv) | E]; [|exact E].
    exfalso. now apply Hp, (parse_ok_matches_plain time_str v).
Qed.

(** C10.  Parsing is anchored at the start only: an input with a
    timestamp prefix parses, what follows a fractional timestamp is
    ignored, and so is what follows a plain timestamp unless it begins
    like a fractional part; [parse("01:02:03.45")] is the int 3723, which
    equals 3723.0. *)
Theorem parse_srt_time_prefix :
  (forall t, matches_plain t -> exists v, parse_srt_time t = Ok v)
  /\ (forall (ws h m s : str) (sep : ascii) (ms rest : str),
         forallb isspace ws = true -> hms h m s -> separator sep -> millis ms ->
         parse_srt_time (ws ++ frac_text h m s sep ms ++ rest)
         = parse_srt_time (frac_text h m s sep ms))
  /\ (forall ws h m s rest : str,
         forallb isspace ws = true -> hms h m s -> ~ frac_start rest ->
         parse_srt_time (ws ++ plain_text h m s ++ rest)
         = parse_srt_time (plain_text h m s))
  /\ parse_srt_time (py "01:02:03.45") = Ok (PyInt 3723)
  /\ py_eq (PyInt 3723) (PyFloat (dec 37230 1)) = true.
Proof.
  split; [exact matches_plain_parse_ok|].
  split; [|split; [|split; reflexivity]].
  - intros ws h m s sep ms rest Hws H Hsep Hms.
    rewrite parse_frac by assumption.
    symmetry. now apply parse_frac_text.
  - intros ws h m s rest Hws H Hn.
    rewrite parse_plain by assumption.
    symmetry. now apply parse_plain_text.
Qed.

Lemma parse_srt_time_prefix_witness :
  parse_srt_time (py " " ++ frac_text (py "1") (py "02") (py "03") "." (py "456")
                  ++ py "789 -->")
  = parse_srt_time (frac_text (py "1") (py "02") (py "03") "." (py "456")).
Proof.
  apply (proj1 (proj2 parse_srt_time_prefix)).
  - reflexivity.
  - repeat split; auto.
  - now right.
  - now split.
Defined.

(** ** CueTrackParser: what the block pattern captures *)

Lemma group_free_captures r s c s1 c1 :
  Matches r s c s1 c1 -> group_free r = true -> c1 = c.
Proof.
  induction 1; cbn [group_free]; intros G; try reflexivity;
    try discriminate G.
  - apply andb_true_iff in G as [G1 G2].
    rewrite (IHMatches2 G2). now apply IHMatches1.
  - apply andb_true_iff in G as [G1 G2]. now apply IHMatches.
  - apply andb_true_iff in G as [G1 G2]. now apply IHMatches.
  - now apply IHMatches.
Qed.

Lemma Matches_look_inv r s c s1 c1 :
  Matches (Look r) s c s1 c1 ->
  s1 = s /\ exists s', Matches r s c s' c1.
Proof. intros M. inversion M; subst. eauto. Qed.

Lemma Matches_stamp_inv t c s2 c2 :
  Matches stamp t c s2 c2 ->
  exists h m s sep ms,
    hms h m s /\ separator sep /\ millis ms
    /\ t = (frac_text h m s sep ms ++ s2)%list /\ c2 = c.
Proof.
  intros M.
  pose proof (group_free_captures _ _ _ _ _ M eq_refl) as ->.
  unfold stamp in M. cbn [sequence] in M.
  apply Matches_cat_inv in M as (x1 & c1 & M1 & M).
  apply Matches_digits_inv in M1 as (h & -> & Hh & Hlh & ->).
  apply Matches_cat_inv in M as (x2 & c2' & M1 & M).
  apply Matches_lit_inv in M1 as (-> & ->).
  apply Matches_cat_inv in M as (x3 & c3 & M1 & M).
  apply Matches_digits_inv in M1 as (m & -> & Hm & Hlm & ->).
  apply Matches_cat_inv in M as (x4 & c4 & M1 & M).
  apply Matches_lit_inv in M1 as (-> & ->).
  apply Matches_cat_inv in M as (x5 & c5 & M1 & M).
  apply Matches_digits_inv in M1 as (s & -> & Hs & Hls & ->).
  apply Matches_cat_inv in M as (x6 & c6 & M1 & M).
  apply Matches_chr_inv in M1 as (sep & -> & Hsep & ->).
  apply Matches_digits_inv in M as (ms & -> & Hms & Hlms & _).
  exists h, m, s, sep, ms. repeat split; auto; try lia.
  - apply orb_true_iff in Hsep as [Hsep | Hsep];
      apply Ascii.eqb_eq in Hsep; [now left | now right].
  - unfold frac_text, plain_text.
    repeat (rewrite <- app_assoc; cbn [app]). reflexivity.
Qed.

Lemma Matches_group_stamp_inv (i : nat) t c s2 c2 :
  Matches (Grp i stamp) t c s2 c2 ->
  exists h m s sep ms,
    hms h m s /\ separator sep /\ millis ms
    /\ t = (frac_text h m s sep ms ++ s2)%list
    /\ c2 = (i, frac_text h m s sep ms) :: c.
Proof.
  intros M. apply Matches_grp_inv in M as (c0 & M & ->).
  apply Matches_stamp_inv in M as (h & m & s & sep & ms & H & Hsep & Hms & -> & ->).
  exists h, m, s, sep, ms. rewrite consumed_app. auto.
Qed.

Lemma Matches_spaces_inv s c s1 c1 :
  Matches spaces s c s1 c1 -> c1 = c.
Proof. intros M. now apply (group_free_captures _ _ _ _ _ M). Qed.

Lemma block_inv t s2 c2 :
  Matches block t [] s2 c2 -> block_captures c2.
Proof.
  intros M. unfold block in M. cbn [sequence] in M.
  apply Matches_cat_inv in M as (x1 & c1 & M1 & M).
  apply Matches_grp_inv in M1 as (c0 & M1 & ->).
  apply Matches_rep_inv in M1 as (idx & -> & Hidx & Hlidx & _ & ->).
  rewrite consumed_app in M.
  apply Matches_cat_inv in M as (x2 & c2' & M1 & M).
  apply Matches_spaces_inv in M1 as ->.
  apply Matches_cat_inv in M as (x3 & c3 & M1 & M).
  apply Matches_lit_inv in M1 as (-> & ->).
  apply Matches_cat_inv in M as (x4 & c4 & M1 & M).
  apply Matches_group_stamp_inv in M1
    as (h1 & m1 & s1 & sep1 & ms1 & H1 & Hsep1 & Hms1 & -> & ->).
  apply Matches_cat_inv in M as (x5 & c5 & M1 & M).
  apply Matches_spaces_inv in M1 as ->.
  apply Matches_cat_inv in M as (x6 & c6 & M1 & M).
  apply Matches_lit_inv in M1 as (-> & ->).
  apply Matches_cat_inv in M as (x7 & c7 & M1 & M).
  apply Matches_lit_inv in M1 as (-> & ->).
  apply Matches_cat_inv in M as (x8 & c8 & M1 & M).
  apply Matches_lit_inv in M1 as (-> & ->).
  apply Matches_cat_inv in M as (x9 & c9 & M1 & M).
  apply Matches_spaces_inv in M1 as ->.
  apply Matches_cat_inv in M as (x10 & c10 & M1 & M).
  apply Matches_group_stamp_inv in M1
    as (h2 & m2 & s2' & sep2 & ms2 & H2 & Hsep2 & Hms2 & -> & ->).
  apply Matches_cat_inv in M as (x11 & c11 & M1 & M).
  apply Matches_spaces_inv in M1 as ->.
  apply Matches_cat_inv in M as (x12 & c12 & M1 & M).
  apply Matches_lit_inv in M1 as (-> & ->).
  apply Matches_cat_inv in M as (x13 & c13 & M1 & M).
  apply Matches_grp_inv in M1 as (c0 & M1 & ->).
  apply Matches_rep_inv in M1 as (txt & -> & _ & _ & _ & ->).
  rewrite consumed_app in M.
  apply Matches_look_inv in M as (-> & s' & M).
  apply group_free_captures in M as ->; [|reflexivity].
  exists idx, h1, m1, s1, sep1, ms1, h2, m2, s2', sep2, ms2, txt.
  repeat split; auto; try apply H1; try apply H2; try apply Hms1; try apply Hms2.
Qed.

Lemma findall_from_sound (r : regex) (s : str) :
  forall (skip : nat) (caps : captures),
    In caps (findall_from r s skip) ->
    exists s' rest, re_match r s' = Some (rest, caps).
Proof.
  induction s as [|x s IH]; intros skip caps H.
  - destruct skip as [|n]; cbn in H; [|contradiction].
    destruct (re_match r []) as [[rest c]|] eqn:E; cbn in H; [|contradiction].
    destruct H as [<- | []]. eauto.
  - destruct skip as [|n]; cbn [findall_from] in H.
    + destruct (re_match r (x :: s)) as [[rest c]|] eqn:E.
      * destruct H as [<- | H]; [eauto | now apply IH in H].
      * now apply IH in H.
    + now apply IH in H.
Qed.

Lemma findall_block_captures (content : str) (caps : captures) :
  In caps (findall block content) -> block_captures caps.
Proof.
  intros H. apply findall_from_sound in H as (s' & rest & E).
  now apply re_match_sound, block_inv in E.
Qed.

Lemma parse_stamp (h m s : str) (sep : ascii) (ms : str) :
  hms h m s -> separator sep -> millis ms ->
  parse_srt_time (frac_text h m s sep ms) = Ok (PyFloat (time_value h m s ms))
  /\ re_match time_frac (normalized (frac_text h m s sep ms)) <> None.
Proof.
  intros H Hsep Hms. split.
  - now apply parse_frac_text.
  - pose proof (normalized_frac [] h m s sep ms [] eq_refl H Hsep Hms) as E.
    cbn [app] in E. rewrite app_nil_r in E. rewrite E.
    rewrite re_match_frac by assumption. discriminate.
Qed.

Lemma frac_not_plain (h m s : str) (sep : ascii) (ms h' m' s' : str) :
  hms h m s -> hms h' m' s' ->
  frac_text h m s sep ms <> plain_text h' m' s'.
Proof.
  intros H H' E.
  assert (E' : (plain_text h m s ++ sep :: ms)%list
               = (plain_text h' m' s' ++ [])%list).
  { rewrite app_nil_r. exact E. }
  apply plain_text_unique in E' as (_ & _ & _ & E'); [discriminate | assumption..].
Qed.

(** C9.  Whatever the cue track, the two timestamps captured by the block
    pattern carry a three-digit fractional part, so they are never of the
    plain form [H:MM:SS], and [parse_srt_time] handles them with its first
    pattern and returns a float: its fallback branch is not taken.  A
    block with plain timestamps is absent from the result although
    [parse_srt_time] itself accepts such a timestamp. *)
Theorem block_timestamps_fractional :
  (forall (content : str) (caps : captures) (i : nat),
      In caps (findall block content) -> i = 2%nat \/ i = 3%nat ->
      (exists h m s sep ms,
          hms h m s /\ separator sep /\ millis ms
          /\ group i caps = frac_text h m s sep ms
          /\ parse_srt_time (group i caps) = Ok (PyFloat (time_value h m s ms)))
      /\ re_match time_frac (normalized (group i caps)) <> None
      /\ (forall h m s, hms h m s -> group i caps <> plain_text h m s))
  /\ findall block plain_block_track = []
  /\ parse_srt_file plain_block_track = Ok []
  /\ parse_srt_time (py "0:00:03") = Ok (PyInt 3)
  /\ (exists cues, parse_srt_file example_track = Ok cues
                   /\ map index cues = [1; 3]).
Proof.
  split; [|split; [|split; [|split]]].
  2-4: vm_compute; reflexivity.
  - intros content caps i Hin Hi.
    apply findall_block_captures in Hin
      as (idx & h1 & m1 & s1 & sep1 & ms1 & h2 & m2 & s2 & sep2 & ms2 & txt
          & Hidx & Hl & H1 & Hsep1 & Hms1 & H2 & Hsep2 & Hms2 & ->).
    destruct Hi as [-> | ->]; cbn [group Nat.eqb].
    + destruct (parse_stamp h1 m1 s1 sep1 ms1 H1 Hsep1 Hms1) as [Hp Hr].
      split; [|split; [exact Hr|]].
      * exists h1, m1, s1, sep1, ms1. auto.
      * intros h m s H. now apply frac_not_plain.
    + destruct (parse_stamp h2 m2 s2 sep2 ms2 H2 Hsep2 Hms2) as [Hp Hr].
      split; [|split; [exact Hr|]].
      * exists h2, m2, s2, sep2, ms2. auto.
      * intros h m s H. now apply frac_not_plain.
  - eexists. split; vm_compute; reflexivity.
Qed.

Lemma block_timestamps_fractional_witness :
  In example_caps (findall block example_track)
  /\ exists h m s sep ms,
       hms h m s /\ separator sep /\ millis ms
       /\ group 2 example_caps = frac_text h m s sep ms
       /\ parse_srt_time (group 2 example_caps)
          = Ok (PyFloat (time_value h m s ms)).
Proof.
  assert (H : In example_caps (findall block example_track)).
  { vm_compute. left. reflexivity. }
  split; [exact H|].
  exact (proj1 (proj1 block_timestamps_fractional example_track example_caps
                  2%nat H (or_introl eq_refl))).
Defined.

(** ** binary64 rounding

    The facts about [binary_round_aux] used below, for values in the
    normal range: the result has a 53-bit mantissa and keeps the magnitude
    of its argument up to one binade. *)

Lemma digits2_pos_bounds (p : positive) :
  2 ^ (Zpos (digits2_pos p) - 1) <= Zpos p < 2 ^ Zpos (digits2_pos p).
Proof.
  induction p as [p IH | p IH | ]; cbn [digits2_pos].
  - rewrite Pos2Z.inj_succ, (Pos2Z.inj_xI p).
    replace (Z.succ (Zpos (digits2_pos p)) - 1)
      with (Z.succ (Zpos (digits2_pos p) - 1)) by lia.
    rewrite !Z.pow_succ_r by lia.
    destruct IH as [IH1 IH2]. revert IH1 IH2.
    generalize (2 ^ (Zpos (digits2_pos p) - 1)) (2 ^ Zpos (digits2_pos p)).
    intros a b IH1 IH2. lia.
  - rewrite Pos2Z.inj_succ, (Pos2Z.inj_xO p).
    replace (Z.succ (Zpos (digits2_pos p)) - 1)
      with (Z.succ (Zpos (digits2_pos p) - 1)) by lia.
    rewrite !Z.pow_succ_r by lia.
    destruct IH as [IH1 IH2]. revert IH1 IH2.
    generalize (2 ^ (Zpos (digits2_pos p) - 1)) (2 ^ Zpos (digits2_pos p)).
    intros a b IH1 IH2. lia.
  - cbn. lia.
Qed.

Lemma digits2_pos_unique (p : positive) (d : Z) :
  2 ^ (d - 1) <= Zpos p < 2 ^ d -> Zpos (digits2_pos p) = d.
Proof.
  intros [Hlo Hhi].
  pose proof (digits2_pos_bounds p) as [Blo Bhi].
  assert (Hd : 0 < d).
  { destruct (Z.ltb_spec 0 d) as [|Hle]; [assumption|].
    exfalso. destruct (Z.eq_dec d 0) as [-> | Hne]; [cbn in Hhi; lia|].
    rewrite Z.pow_neg_r in Hhi by lia. lia. }
  destruct (Z.lt_trichotomy (Zpos (digits2_pos p)) d) as [Hlt | [Heq | Hgt]];
    [exfalso | exact Heq | exfalso].
  - assert (2 ^ Zpos (digits2_pos p) <= 2 ^ (d - 1))
      by (apply Z.pow_le_mono_r; lia). lia.
  - assert (2 ^ d <= 2 ^ (Zpos (digits2_pos p) - 1))
      by (apply Z.pow_le_mono_r; lia). lia.
Qed.

Lemma shr_1_m (mrs : shr_record) :
  0 <= shr_m mrs -> shr_m (shr_1 mrs) = shr_m mrs / 2.
Proof.
  destruct mrs as [m r s]. cbn [shr_m]. intros Hm.
  destruct m as [|[p|p|]|p]; cbn [shr_1 shr_m]; try lia.
  - reflexivity.
  - rewrite (Pos2Z.inj_xI p). apply Z.div_unique with (r := 1); lia.
  - rewrite (Pos2Z.inj_xO p). apply Z.div_unique with (r := 0); lia.
  - reflexivity.
Qed.

Lemma shr_1_nonneg (mrs : shr_record) :
  0 <= shr_m mrs -> 0 <= shr_m (shr_1 mrs).
Proof.
  intros H. rewrite shr_1_m by exact H. apply Z.div_pos; lia.
Qed.

Lemma iter_shr_m (p : positive) :
  forall mrs, 0 <= shr_m mrs ->
    shr_m (SpecFloat.iter_pos shr_1 p mrs) = shr_m mrs / 2 ^ Zpos p.
Proof.
  induction p as [p IH | p IH | ]; intros mrs Hm; cbn [SpecFloat.iter_pos].
  - assert (H1 : 0 <= shr_m (shr_1 mrs)) by now apply shr_1_nonneg.
    assert (H2 : 0 <= shr_m (SpecFloat.iter_pos shr_1 p (shr_1 mrs))).
    { rewrite IH by exact H1. apply Z.div_pos; lia. }
    rewrite IH by exact H2. rewrite IH by exact H1.
    rewrite shr_1_m by exact Hm.
    rewrite !Z.div_div by lia.
    f_equal. rewrite (Pos2Z.inj_xI p).
    replace (2 * Zpos p + 1) with (1 + Zpos p + Zpos p) by lia.
    rewrite !Z.pow_add_r by lia. lia.
  - assert (H2 : 0 <= shr_m (SpecFloat.iter_pos shr_1 p mrs)).
    { rewrite IH by exact Hm. apply Z.div_pos; lia. }
    rewrite IH by exact H2. rewrite IH by exact Hm.
    rewrite !Z.div_div by lia.
    f_equal. rewrite (Pos2Z.inj_xO p).
    replace (2 * Zpos p) with (Zpos p + Zpos p) by lia.
    rewrite !Z.pow_add_r by lia. lia.
  - now rewrite shr_1_m.
Qed.

Lemma shr_spec (mrs : shr_record) (e n : Z) :
  0 <= shr_m mrs -> 0 <= n ->
  shr_m (fst (shr mrs e n)) = shr_m mrs / 2 ^ n /\ snd (shr mrs e n) = e + n.
Proof.
  intros Hm Hn. destruct n as [|p|p]; cbn [shr fst snd]; [| |lia].
  - rewrite Z.div_1_r. split; [reflexivity | lia].
  - split; [now apply iter_shr_m | reflexivity].
Qed.

Lemma shr_m_of_loc (m : Z) (l : location) : shr_m (shr_record_of_loc m l) = m.
Proof. now destruct l as [|[| |]]. Qed.

Lemma round_nearest_even_bounds (m : Z) (l : location) :
  m <= round_nearest_even m l <= m + 1.
Proof.
  destruct l as [|[| |]]; cbn [round_nearest_even]; try lia.
  destruct (Z.even m); lia.
Qed.

Lemma fexp64_eq (e : Z) : fexp64 e = Z.max (e - 53) (-1074).
Proof. reflexivity. Qed.


Lemma pow2_split (a b : Z) : 0 <= a -> 0 <= b -> 2 ^ (a + b) = 2 ^ a * 2 ^ b.
Proof. intros. now apply Z.pow_add_r. Qed.

(** The second half of [binary_round_aux]: a mantissa of 53 bits, or
    2^53 after a carry. *)
Lemma round_finish (s : bool) (m2 e1 : Z) :
  2 ^ 52 <= m2 <= 2 ^ 53 -> -1074 <= e1 ->
  normal_or_inf s (e1 + 53)
    (let '(mrs, e2) := shr_fexp prec emax m2 e1 loc_Exact in
     match shr_m mrs with
     | Z0 => S754_zero s
     | Zpos m => if e2 <=? emax - prec then S754_finite s m e2
                 else S754_infinity s
     | Zneg _ => S754_nan
     end).
Proof.
  intros Hm He. unfold shr_fexp.
  destruct m2 as [|q|q]; try lia. cbn [Zdigits2].
  change (SpecFloat.fexp prec emax) with fexp64. rewrite fexp64_eq.
  destruct (Z.eq_dec (Zpos q) (2 ^ 53)) as [Heq | Hne].
  - assert (Hd : Zpos (digits2_pos q) = 54).
    { apply digits2_pos_unique. rewrite Heq.
      change (54 - 1) with 53. split; [lia|].
      apply Z.pow_lt_mono_r; lia. }
    rewrite Hd.
    replace (Z.max (54 + e1 - 53) (-1074) - e1) with 1 by lia.
    assert (Hq : q = 9007199254740992%positive).
    { change (2 ^ 53) with (Zpos 9007199254740992) in Heq. congruence. }
    subst q.
    cbn [shr shr_record_of_loc SpecFloat.iter_pos shr_1 shr_m].
    unfold emax, prec.
    destruct (Z.leb_spec (e1 + 1) (1024 - 53)) as [Hle | Hgt].
    + left. exists 4503599627370496%positive, (e1 + 1).
      split; [reflexivity|]. split; [reflexivity|]. split; lia.
    + right. split; [reflexivity | lia].
  - assert (Hd : Zpos (digits2_pos q) = 53).
    { apply digits2_pos_unique. change (53 - 1) with 52. lia. }
    rewrite Hd.
    replace (Z.max (53 + e1 - 53) (-1074) - e1) with 0 by lia.
    cbn [shr shr_record_of_loc shr_m].
    unfold emax, prec.
    destruct (Z.leb_spec e1 (1024 - 53)) as [Hle | Hgt].
    + left. exists q, e1.
      split; [reflexivity|]. split; [exact Hd|]. split; lia.
    + right. split; [reflexivity | lia].
Qed.

(** Rounding a mantissa of at least 53 bits whose value lies in the
    normal range. *)
Lemma binary_round_aux_normal (s : bool) (p : positive) (e : Z) (l : location) :
  e <= Zpos (digits2_pos p) + e - 53 ->
  -1021 <= Zpos (digits2_pos p) + e ->
  normal_or_inf s (Zpos (digits2_pos p) + e)
                (binary_round_aux prec emax s (Zpos p) e l).
Proof.
  intros He HE. unfold binary_round_aux.
  set (d := Zpos (digits2_pos p)) in *.
  assert (Hshr : shr_m (fst (shr_fexp prec emax (Zpos p) e l))
                 = Zpos p / 2 ^ (d - 53)
                 /\ snd (shr_fexp prec emax (Zpos p) e l) = e + (d - 53)).
  { unfold shr_fexp. cbn [Zdigits2]. fold d.
    change (SpecFloat.fexp prec emax) with fexp64. rewrite fexp64_eq.
    replace (Z.max (d + e - 53) (-1074) - e) with (d - 53) by lia.
    rewrite <- (shr_m_of_loc (Zpos p) l) at 2.
    apply shr_spec; [rewrite shr_m_of_loc; lia | lia]. }
  destruct (shr_fexp prec emax (Zpos p) e l) as [mrs1 e1].
  cbn [fst snd] in Hshr. destruct Hshr as [Hm1 ->].
  replace (d + e) with (e + (d - 53) + 53) by lia.
  apply round_finish; [|lia].
  pose proof (round_nearest_even_bounds (shr_m mrs1) (loc_of_shr_record mrs1)) as Hr.
  rewrite Hm1 in *.
  pose proof (digits2_pos_bounds p) as [Blo Bhi]. fold d in Blo, Bhi.
  assert (Hk : 0 <= d - 53) by lia.
  assert (Hlo : 2 ^ 52 <= Zpos p / 2 ^ (d - 53)).
  { apply Z.div_le_lower_bound; [lia|].
    rewrite <- pow2_split by lia.
    replace (d - 53 + 52) with (d - 1) by lia. exact Blo. }
  assert (Hhi : Zpos p / 2 ^ (d - 53) < 2 ^ 53).
  { apply Z.div_lt_upper_bound; [lia|].
    rewrite <- pow2_split by lia.
    replace (d - 53 + 53) with d by lia. exact Bhi. }
  lia.
Qed.

Lemma one_eq : one = S754_finite false 4503599627370496 (-52).
Proof. vm_compute. reflexivity. Qed.

Lemma two_eq : two = S754_finite false 4503599627370496 (-51).
Proof. vm_compute. reflexivity. Qed.

Lemma half_eq : half = S754_finite false 4503599627370496 (-53).
Proof. vm_compute. reflexivity. Qed.

Lemma zero_eq : zero = S754_zero false.
Proof. vm_compute. reflexivity. Qed.

Lemma leb_one_normal (E : Z) (x : float) :
  1 <= E -> normal_or_inf false E x -> fleb one x = true.
Proof.
  rewrite one_eq.
  intros HE [(mf & ef & -> & Hd & Hef & _) | (-> & _)]; [|reflexivity].
  unfold fleb, SFleb. rewrite SFcompare_finite.
  destruct (lex (-52) 4503599627370496 ef mf) eqn:Hl; try reflexivity.
  exfalso. apply lex_Gt in Hl.
  pose proof (digits2_pos_bounds mf) as [Blo _]. rewrite Hd in Blo.
  change (2 ^ (53 - 1)) with 4503599627370496 in Blo.
  lia.
Qed.

(** A valid finite double has at most 53 bits, and exactly 53 above the
    smallest exponent. *)
Lemma bounded_digits (m : positive) (e : Z) :
  bounded prec emax m e = true ->
  Zpos (digits2_pos m) <= 53 /\ -1074 <= e <= 971
  /\ (-1074 < e -> Zpos (digits2_pos m) = 53).
Proof.
  unfold bounded, canonical_mantissa. intros H.
  apply andb_true_iff in H as [Hc He].
  apply Z.eqb_eq in Hc. apply Z.leb_le in He.
  change (SpecFloat.fexp prec emax) with fexp64 in Hc. rewrite fexp64_eq in Hc.
  unfold emax, prec in He. lia.
Qed.

Lemma div_eucl_eq (a b : Z) : Z.div_eucl a b = (a / b, a mod b).
Proof. unfold Z.div, Z.modulo. now destruct (Z.div_eucl a b). Qed.


(** [a > d > 0] on valid doubles gives a quotient of at least one. *)
Lemma fdiv_ge_one (a d : float) :
  valid_binary prec emax a = true -> valid_binary prec emax d = true ->
  fltb zero d = true -> fltb d a = true ->
  fleb one (fdiv a d) = true.
Proof.
  intros Va Vd Hd Had.
  destruct d as [sd|sd| |sd md ed]; try discriminate Hd.
  { destruct sd; [discriminate Hd|]. destruct a as [sa|sa| |sa ma ea];
      try discriminate Had; destruct sa; discriminate Had. }
  destruct sd; [discriminate Hd|]. clear Hd.
  destruct a as [sa|sa| |sa ma ea]; try discriminate Had.
  { destruct sa; [discriminate Had | reflexivity]. }
  destruct sa; [discriminate Had|].
  unfold fltb, SFltb in Had. rewrite SFcompare_finite in Had.
  destruct (lex ed md ea ma) eqn:Hl; try discriminate Had. clear Had.
  apply lex_Lt in Hl.
  cbn [valid_binary] in Va, Vd.
  apply bounded_digits in Va as (Ha53 & Hea & Hanorm).
  apply bounded_digits in Vd as (Hd53 & Hed & Hdnorm).
  pose proof (digits2_pos_bounds ma) as [Alo Ahi].
  pose proof (digits2_pos_bounds md) as [Dlo Dhi].
  pose proof (Pos2Z.is_pos (digits2_pos ma)) as Hd1.
  pose proof (Pos2Z.is_pos (digits2_pos md)) as Hd2.
  set (d1 := Zpos (digits2_pos ma)) in *.
  set (d2 := Zpos (digits2_pos md)) in *.
  set (k := ea - ed).
  assert (Hk : 0 <= k) by (unfold k; lia).
  assert (Hd12 : k = 0 -> d2 <= d1).
  { intros Hk0. destruct Hl as [Hl | [_ Hl]]; [unfold k in Hk0; lia|].
    destruct (Z.le_gt_cases d2 d1) as [|Hgt]; [assumption|].
    exfalso.
    assert (2 ^ d1 <= 2 ^ (d2 - 1)) by (apply Z.pow_le_mono_r; lia).
    lia. }
  assert (Hk1 : 0 < k -> d1 = 53) by (unfold k; intros; apply Hanorm; lia).
  unfold fdiv, SFdiv, SFdiv_core_binary. cbn [Zdigits2 xorb].
  fold d1 d2.
  change (SpecFloat.fexp prec emax) with fexp64. rewrite fexp64_eq.
  set (s := 53 - d1 + d2).
  assert (Hs : 0 < s) by (unfold s; lia).
  replace (Z.min (Z.max (d1 + ea - (d2 + ed) - 53) (-1074)) (ea - ed))
    with (k - s) by (unfold s, k; lia).
  replace (ea - ed - (k - s)) with s by (unfold k; lia).
  destruct s as [|ps|ps] eqn:Es; try lia. rewrite <- Es in *.
  rewrite Z.shiftl_mul_pow2 by lia.
  rewrite div_eucl_eq.
  set (q := Zpos ma * 2 ^ s / Zpos md).
  assert (Hq52 : 2 ^ 52 <= q).
  { unfold q. apply Z.div_le_lower_bound; [lia|].
    apply Z.le_trans with (2 ^ 52 * 2 ^ d2); [nia|].
    rewrite <- pow2_split by lia.
    apply Z.le_trans with (2 ^ (d1 - 1) * 2 ^ s); [|nia].
    rewrite <- pow2_split by lia.
    apply Z.pow_le_mono_r; unfold s; lia. }
  assert (Hqs : k = 0 -> 2 ^ s <= q).
  { intros Hk0. unfold q. apply Z.div_le_lower_bound; [lia|].
    assert (Zpos md <= Zpos ma) by (destruct Hl as [Hl | [_ Hl]]; unfold k in *; lia).
    assert (0 < 2 ^ s) by (apply Z.pow_pos_nonneg; lia).
    nia. }
  destruct q as [|pq|pq] eqn:Eq; try lia.
  pose proof (digits2_pos_bounds pq) as [Qlo Qhi].
  set (dq := Zpos (digits2_pos pq)) in *.
  assert (Hdq : 53 <= dq).
  { destruct (Z.le_gt_cases 53 dq) as [|Hgt]; [assumption|]. exfalso.
    assert (2 ^ dq <= 2 ^ 52) by (apply Z.pow_le_mono_r; lia). lia. }
  assert (Hmag : 1 <= dq + (k - s)).
  { destruct (Z.eq_dec k 0) as [Hk0 | Hk0].
    - specialize (Hqs Hk0).
      destruct (Z.le_gt_cases (s + 1) dq) as [|Hgt]; [lia|]. exfalso.
      assert (2 ^ dq <= 2 ^ s) by (apply Z.pow_le_mono_r; lia). lia.
    - assert (d1 = 53) by (apply Hk1; lia). unfold s. lia. }
  apply leb_one_normal with (E := dq + (k - s)); [exact Hmag|].
  apply binary_round_aux_normal; fold dq; lia.
Qed.

(** ** The speed decision *)

(** C6 (as amended).  For every match built from a probed clip,
    needs_speedup holds exactly when the clip is longer than the cue,
    speed_factor is clip duration / cue duration in that case and exactly
    1.0 otherwise; and when the cue duration is positive, speed_factor is
    at least 1.0. *)
Theorem make_match_speed (sub : SubtitleLine) (path : str)
    (clip_duration : float) (m : AudioMatch) :
  make_match sub path clip_duration = Ok m ->
  needs_speedup m = fgtb clip_duration (duration sub)
  /\ (fgtb clip_duration (duration sub) = true ->
      speed_factor m = fdiv clip_duration (duration sub))
  /\ (fgtb clip_duration (duration sub) = false -> speed_factor m = one)
  /\ (valid_binary prec emax clip_duration = true ->
      valid_binary prec emax (duration sub) = true ->
      fgtb (duration sub) zero = true ->
      fgeb (speed_factor m) one = true).
Proof.
  unfold make_match, py_truediv. intros H.
  destruct (fgtb clip_duration (duration sub)) eqn:Hgt.
  - destruct (is_zero (duration sub)); [discriminate H|].
    cbn [bind] in H. injection H as <-. cbn [needs_speedup speed_factor].
    split; [reflexivity|]. split; [reflexivity|]. split; [discriminate|].
    intros Va Vd Hpos. unfold fgeb. now apply fdiv_ge_one.
  - cbn [bind] in H. injection H as <-. cbn [needs_speedup speed_factor].
    split; [reflexivity|]. split; [discriminate|]. split; [reflexivity|].
    intros _ _ _. vm_compute. reflexivity.
Qed.

Lemma make_match_speed_witness :
  exists m,
    make_match (example_cue 1 zero (dec 15 1)) (py "0001.wav") (of_Z 3) = Ok m
    /\ fgeb (speed_factor m) one = true.
Proof.
  eexists. split; [vm_compute; reflexivity|].
  refine (proj2 (proj2 (proj2
            (make_match_speed (example_cue 1 zero (dec 15 1)) (py "0001.wav")
               (of_Z 3) _ _))) _ _ _);
    vm_compute; reflexivity.
Defined.

(** C6 as stated fails on a cue of negative duration: a one-second clip
    matched to [inverted_cue] needs a speed-up by the factor -1.0. *)
Lemma inverted_cue_speed_below_one :
  exists m,
    make_match inverted_cue (py "0001.wav") one = Ok m
    /\ needs_speedup m = true
    /\ speed_factor m = S754_finite true 4503599627370496 (-52)
    /\ fgeb (speed_factor m) one = false.
Proof.
  eexists. split; [vm_compute; reflexivity|].
  repeat split; vm_compute; reflexivity.
Qed.

(** ** Rounding an integer mantissa, sums and differences *)

Lemma iter_xO_value (p k : positive) :
  Zpos (Pos.iter xO p k) = Zpos p * 2 ^ Zpos k.
Proof.
  induction k as [|k IH] using Pos.peano_ind.
  - cbn [Pos.iter]. rewrite (Pos2Z.inj_xO p). change (2 ^ 1) with 2. lia.
  - rewrite Pos.iter_succ, (Pos2Z.inj_xO (Pos.iter xO p k)), IH.
    rewrite Pos2Z.inj_succ, Z.pow_succ_r by lia. lia.
Qed.

Lemma digits_scaled (p q : positive) (k : Z) :
  0 <= k -> Zpos q = Zpos p * 2 ^ k ->
  Zpos (digits2_pos q) = Zpos (digits2_pos p) + k.
Proof.
  intros Hk Hq. apply digits2_pos_unique. rewrite Hq.
  pose proof (digits2_pos_bounds p) as [Blo Bhi].
  pose proof (Pos2Z.is_pos (digits2_pos p)) as Hd.
  replace (Zpos (digits2_pos p) + k - 1) with (Zpos (digits2_pos p) - 1 + k) by lia.
  rewrite !pow2_split by lia.
  assert (0 < 2 ^ k) by (apply Z.pow_pos_nonneg; lia).
  split; [apply Z.mul_le_mono_nonneg_r; lia | apply Z.mul_lt_mono_pos_r; lia].
Qed.

Lemma binary_round_normal (s : bool) (p : positive) (e : Z) :
  -1021 <= Zpos (digits2_pos p) + e ->
  normal_or_inf s (Zpos (digits2_pos p) + e) (binary_round prec emax s p e).
Proof.
  intros HE. unfold binary_round, shl_align.
  change (SpecFloat.fexp prec emax) with fexp64. rewrite fexp64_eq.
  set (d := Zpos (digits2_pos p)) in *.
  replace (Z.max (d + e - 53) (-1074) - e) with (d - 53) by lia.
  replace (Z.max (d + e - 53) (-1074)) with (d + e - 53) by lia.
  destruct (d - 53) as [|k|k] eqn:Hk.
  - apply binary_round_aux_normal; fold d; lia.
  - apply binary_round_aux_normal; fold d; lia.
  - assert (Hdz : Zpos (digits2_pos (Pos.iter xO p k)) = d + Zpos k).
    { apply digits_scaled; [lia | apply iter_xO_value]. }
    pose proof (binary_round_aux_normal s (Pos.iter xO p k) (d + e - 53)
                  loc_Exact) as H.
    rewrite Hdz in H.
    replace (d + Zpos k + (d + e - 53)) with (d + e) in H by lia.
    apply H; lia.
Qed.

Lemma normal_or_inf_not_nan (s : bool) (E : Z) (x : float) :
  normal_or_inf s E x -> is_nan x = false.
Proof. now intros [(mf & ef & -> & _) | (-> & _)]. Qed.

Lemma binary_normalize_not_nan (M e : Z) :
  -1022 <= e -> is_nan (binary_normalize prec emax M e false) = false.
Proof.
  intros He. destruct M as [|p|p]; cbn [binary_normalize]; [reflexivity| |].
  - apply (normal_or_inf_not_nan false (Zpos (digits2_pos p) + e)).
    apply binary_round_normal.
    pose proof (Pos2Z.is_pos (digits2_pos p)). lia.
  - apply (normal_or_inf_not_nan true (Zpos (digits2_pos p) + e)).
    apply binary_round_normal.
    pose proof (Pos2Z.is_pos (digits2_pos p)). lia.
Qed.

Lemma fsub_not_nan (x y : float) :
  finite_low x -> finite_low y -> is_nan (fsub x y) = false.
Proof.
  destruct x as [sx|sx| |sx mx ex], y as [sy|sy| |sy my ey];
    cbn [finite_low]; intros Hx Hy; try contradiction.
  - now destruct sx, sy.
  - reflexivity.
  - reflexivity.
  - unfold fsub, SFsub. apply binary_normalize_not_nan. lia.
Qed.

Lemma feqb_refl (x : float) : is_nan x = false -> feqb x x = true.
Proof.
  unfold feqb, SFeqb.
  destruct x as [s|s| |s m e]; intros H; try discriminate H.
  - reflexivity.
  - now destruct s.
  - rewrite SFcompare_finite.
    assert (Hl : lex e m e m = Eq) by (apply lex_Eq; auto).
    rewrite Hl. now destruct s.
Qed.

Lemma time_likeb_spec (x : float) : time_likeb x = true -> time_like x.
Proof.
  destruct x as [[|]|s| |[|] m e]; cbn [time_likeb]; intros H;
    try discriminate H.
  - now left.
  - apply andb_true_iff in H as [H H3]. apply andb_true_iff in H as [H1 H2].
    apply Z.eqb_eq in H1. apply Z.leb_le in H2. apply Z.leb_le in H3.
    right. exists m, e. auto.
Qed.

Lemma time_like_finite_low (x : float) : time_like x -> finite_low x.
Proof.
  intros [-> | (m & e & -> & _ & He)]; cbn [finite_low]; [exact I | lia].
Qed.

(** [ms / 1000] for the thousand values of a three-digit field. *)
Lemma millis_table :
  forallb (fun n => time_likeb (fdiv (of_Z (Z.of_nat n)) (of_Z 1000)))
          (List.seq 0 1000) = true.
Proof. vm_compute. reflexivity. Qed.

Lemma millis_quotient (n : Z) :
  0 <= n <= 999 -> time_like (fdiv (of_Z n) (of_Z 1000)).
Proof.
  intros Hn. apply time_likeb_spec.
  pose proof millis_table as T. rewrite forallb_forall in T.
  specialize (T (Z.to_nat n)). rewrite Z2Nat.id in T by lia.
  apply T. apply in_seq. lia.
Qed.

(** [float(n)] for a small positive count of seconds. *)
Lemma of_Z_small (n : Z) :
  0 <= n < 2 ^ 29 ->
  of_Z n = S754_zero false
  \/ exists m e, of_Z n = S754_finite false m e
                 /\ Zpos (digits2_pos m) = 53 /\ -52 <= e <= -23.
Proof.
  intros Hn. destruct n as [|p|p]; [now left | right | lia].
  unfold of_Z. cbn [binary_normalize].
  pose proof (digits2_pos_bounds p) as [Blo Bhi].
  pose proof (Pos2Z.is_pos (digits2_pos p)) as Hd.
  assert (Hd29 : Zpos (digits2_pos p) <= 29).
  { destruct (Z.le_gt_cases (Zpos (digits2_pos p)) 29) as [|Hgt]; [assumption|].
    exfalso.
    assert (2 ^ 29 <= 2 ^ (Zpos (digits2_pos p) - 1))
      by (apply Z.pow_le_mono_r; lia).
    lia. }
  destruct (binary_round_normal false p 0) as [(m & e & E & Hm & He & _) | (_ & H)];
    [lia | | lia].
  exists m, e. split; [exact E|]. split; [exact Hm | lia].
Qed.

Lemma shl_align_fst (m : positive) (e ez : Z) :
  ez <= e -> Zpos (fst (shl_align m e ez)) = Zpos m * 2 ^ (e - ez).
Proof.
  intros H. unfold shl_align.
  destruct (ez - e) as [|k|k] eqn:Hk; cbn [fst]; try lia.
  - replace (e - ez) with 0 by lia. cbn. lia.
  - rewrite iter_xO_value. f_equal. f_equal. lia.
Qed.

Lemma fadd_time_like (x y : float) :
  (x = S754_zero false
   \/ exists m e, x = S754_finite false m e
                  /\ Zpos (digits2_pos m) = 53 /\ -52 <= e <= -23) ->
  time_like y -> finite_low (fadd x y).
Proof.
  intros [-> | (mx & ex & -> & Hdx & Hex)] [-> | (my & ey & -> & Hdy & Hey)];
    cbn [fadd SFadd finite_low]; try exact I; try lia.
  unfold fadd, SFadd. cbn [cond_Zopp].
  set (ez := Z.min ex ey).
  rewrite !shl_align_fst by (unfold ez; lia).
  pose proof (digits2_pos_bounds mx) as [Xlo Xhi]. rewrite Hdx in Xlo, Xhi.
  pose proof (digits2_pos_bounds my) as [Ylo Yhi]. rewrite Hdy in Ylo, Yhi.
  assert (Hpx : 0 < 2 ^ (ex - ez)) by (apply Z.pow_pos_nonneg; unfold ez; lia).
  assert (Hpy : 0 < 2 ^ (ey - ez)) by (apply Z.pow_pos_nonneg; unfold ez; lia).
  assert (Hbx : 2 ^ (ex - ez) <= 2 ^ 40) by (apply Z.pow_le_mono_r; unfold ez; lia).
  assert (Hby : 2 ^ (ey - ez) <= 2 ^ 40) by (apply Z.pow_le_mono_r; unfold ez; lia).
  set (M := Zpos mx * 2 ^ (ex - ez) + Zpos my * 2 ^ (ey - ez)).
  assert (HM : 0 < M < 2 ^ 94).
  { unfold M. change (2 ^ 94) with (2 ^ 53 * 2 ^ 40 + 2 ^ 53 * 2 ^ 40).
    split; [nia|].
    apply Z.add_lt_mono.
    - apply Z.lt_le_trans with (2 ^ 53 * 2 ^ (ex - ez));
        [apply Z.mul_lt_mono_pos_r; lia | apply Z.mul_le_mono_nonneg_l; lia].
    - apply Z.lt_le_trans with (2 ^ 53 * 2 ^ (ey - ez));
        [apply Z.mul_lt_mono_pos_r; lia | apply Z.mul_le_mono_nonneg_l; lia]. }
  destruct M as [|pM|pM] eqn:EM; try lia.
  cbn [binary_normalize].
  pose proof (digits2_pos_bounds pM) as [Mlo Mhi].
  pose proof (Pos2Z.is_pos (digits2_pos pM)) as HdM.
  assert (HdM94 : Zpos (digits2_pos pM) <= 94).
  { destruct (Z.le_gt_cases (Zpos (digits2_pos pM)) 94) as [|Hgt]; [assumption|].
    exfalso.
    assert (2 ^ 94 <= 2 ^ (Zpos (digits2_pos pM) - 1))
      by (apply Z.pow_le_mono_r; lia).
    lia. }
  destruct (binary_round_normal false pM ez) as [(m & e & -> & _ & He & _) | (_ & H)];
    unfold ez in *; cbn [finite_low]; lia.
Qed.

(** ** CueTrackParser: the cues *)

Lemma digit_val_bounds (c : ascii) : isdigit c = true -> 0 <= digit_val c <= 9.
Proof. intros H. apply digit_code in H. unfold digit_val. lia. Qed.

Lemma seconds_of_bounds (h m s : str) :
  hms h m s -> 0 <= seconds_of h m s < 2 ^ 29.
Proof.
  intros (Hh & Hlh & Hm & Hlm & Hs & Hls).
  destruct m as [|m1 [|m2 [|]]]; try discriminate Hlm.
  destruct s as [|s1 [|s2 [|]]]; try discriminate Hls.
  change (2 ^ 29) with 536870912.
  destruct h as [|a [|b [|]]]; cbn in Hlh; try lia;
    cbn [forallb] in *; rewrite ?andb_true_r in *;
    repeat match goal with H : _ && _ = true |- _ =>
             apply andb_true_iff in H as [? ?] end;
    repeat match goal with H : isdigit _ = true |- _ =>
             apply digit_val_bounds in H end;
    unfold seconds_of, int_of_digits; cbn [fold_left]; lia.
Qed.

Lemma millis_bounds (ms : str) : millis ms -> 0 <= int_of_digits ms <= 999.
Proof.
  intros (Hd & Hl).
  destruct ms as [|a [|b [|c [|]]]]; try discriminate Hl.
  cbn [forallb] in Hd. rewrite andb_true_r in Hd.
  repeat match goal with H : _ && _ = true |- _ =>
           apply andb_true_iff in H as [? ?] end.
  repeat match goal with H : isdigit _ = true |- _ =>
           apply digit_val_bounds in H end.
  unfold int_of_digits; cbn [fold_left]; lia.
Qed.

Lemma time_value_finite (h m s ms : str) :
  hms h m s -> millis ms -> finite_low (time_value h m s ms).
Proof.
  intros H Hms. unfold time_value.
  apply fadd_time_like.
  - apply of_Z_small. now apply seconds_of_bounds.
  - apply millis_quotient. now apply millis_bounds.
Qed.

Lemma cue_of_match_ok (caps : captures) :
  block_captures caps ->
  exists c, cue_of_match caps = Ok c
            /\ feqb (duration c) (fsub (end_time c) (start_time c)) = true.
Proof.
  intros (idx & h1 & m1 & s1 & sep1 & ms1 & h2 & m2 & s2 & sep2 & ms2 & txt
          & Hidx & Hl & H1 & Hsep1 & Hms1 & H2 & Hsep2 & Hms2 & ->).
  unfold cue_of_match. cbn [group Nat.eqb].
  rewrite (parse_frac_text h1 m1 s1 sep1 ms1 H1 Hsep1 Hms1).
  rewrite (parse_frac_text h2 m2 s2 sep2 ms2 H2 Hsep2 Hms2).
  cbn [bind py_sub to_float].
  eexists. split; [reflexivity|].
  cbn [duration end_time start_time].
  apply feqb_refl, fsub_not_nan; now apply time_value_finite.
Qed.

Lemma cues_of_matches_ok (ms : list captures) :
  Forall block_captures ms ->
  exists cs, cues_of_matches ms = Ok cs
             /\ Forall (fun c => feqb (duration c)
                                      (fsub (end_time c) (start_time c)) = true) cs.
Proof.
  induction 1 as [|caps ms Hc Hms (cs & E & Hcs)]; cbn [cues_of_matches].
  - exists []. split; [reflexivity | constructor].
  - destruct (cue_of_match_ok caps Hc) as (c & Ec & Hgood).
    rewrite Ec, E. cbn [bind]. exists (c :: cs).
    split; [reflexivity | now constructor].
Qed.

Lemma sorted_by_index (cues : list SubtitleLine) :
  StronglySorted (fun a b => index a <= index b) (sort_by index Z.ltb cues).
Proof.
  assert (HS : StronglySorted (ascending index Z.ltb) (sort_by index Z.ltb cues)).
  { apply sort_by_sorted with (P := fun _ => True).
    - intros x y H. apply Z.ltb_lt in H. apply Z.ltb_ge. lia.
    - intros x y z _ H1 H2. apply Z.ltb_ge in H1, H2. apply Z.ltb_ge. lia.
    - apply Forall_forall. intros; exact I. }
  induction HS as [|a l HS IH Ha]; constructor; [exact IH|].
  eapply Forall_impl; [|exact Ha].
  intros b Hb. unfold ascending in Hb. now apply Z.ltb_ge in Hb.
Qed.

(** C4.  For every cue-track text the parser returns a list of cues, the
    list is in ascending order of index, and every cue of it satisfies
    [duration == end_time - start_time]. *)
Theorem parse_srt_file_sorted (content : str) :
  exists cues,
    parse_srt_file content = Ok cues
    /\ StronglySorted (fun a b => index a <= index b) cues
    /\ Forall (fun c => feqb (duration c)
                             (fsub (end_time c) (start_time c)) = true) cues.
Proof.
  unfold parse_srt_file.
  destruct (cues_of_matches_ok (findall block content)) as (cs & E & Hcs).
  { apply Forall_forall. intros caps. apply findall_block_captures. }
  rewrite E. cbn [bind]. eexists. split; [reflexivity|].
  split; [apply sorted_by_index|].
  eapply Permutation_Forall; [apply sort_by_perm | exact Hcs].
Qed.

(** ** Decimal strings *)

Lemma fold_digits (w : str) :
  forall acc,
    fold_left (fun a c => 10 * a + digit_val c) w acc
    = acc * 10 ^ Z.of_nat (List.length w) + int_of_digits w.
Proof.
  unfold int_of_digits.
  induction w as [|c w IH]; intros acc.
  - cbn. lia.
  - cbn [fold_left List.length]. rewrite IH, (IH (10 * 0 + digit_val c)).
    rewrite Nat2Z.inj_succ, Z.pow_succ_r by lia. lia.
Qed.

Lemma int_of_digits_app (a b : str) :
  int_of_digits (a ++ b)
  = int_of_digits a * 10 ^ Z.of_nat (List.length b) + int_of_digits b.
Proof.
  unfold int_of_digits at 1. rewrite fold_left_app.
  fold (int_of_digits a). apply fold_digits.
Qed.

Lemma digits_of_value (fuel : nat) :
  forall n, 0 <= n < 2 ^ Z.of_nat fuel -> int_of_digits (digits_of fuel n) = n.
Proof.
  induction fuel as [|f IH]; intros n Hn.
  - cbn in Hn. cbn. lia.
  - cbn [digits_of]. rewrite int_of_digits_app.
    pose proof (Z.mod_pos_bound n 10 ltac:(lia)) as Hm.
    unfold int_of_digits at 2. cbn [fold_left List.length].
    rewrite digit_char_val by lia.
    change (10 ^ Z.of_nat 1) with 10.
    destruct (Z.ltb_spec n 10) as [Hlt | Hge].
    + cbn. rewrite Z.mod_small by lia. lia.
    + rewrite IH.
      * pose proof (Z.div_mod n 10 ltac:(lia)). lia.
      * rewrite Nat2Z.inj_succ, Z.pow_succ_r in Hn by lia.
        split; [apply Z.div_pos; lia|].
        apply Z.div_lt_upper_bound; lia.
Qed.

Lemma digits_of_length (fuel : nat) :
  forall (n : Z) (k : nat),
    (1 <= k)%nat -> 0 <= n < 10 ^ Z.of_nat k ->
    (List.length (digits_of fuel n) <= k)%nat.
Proof.
  induction fuel as [|f IH]; intros n k Hk Hn; cbn [digits_of]; [cbn; lia|].
  rewrite length_app. cbn [List.length].
  destruct (Z.ltb_spec n 10) as [Hlt | Hge]; [cbn; lia|].
  destruct k as [|[|k]]; [lia | cbn in Hn; lia |].
  assert (List.length (digits_of f (n / 10)) <= S k)%nat; [|lia].
  apply IH; [lia|].
  rewrite (Nat2Z.inj_succ (S k)), Z.pow_succ_r in Hn by lia.
  split; [apply Z.div_pos; lia | apply Z.div_lt_upper_bound; lia].
Qed.

Lemma str_of_nonneg_spec (n : Z) :
  0 <= n ->
  forallb isdigit (str_of_nonneg n) = true
  /\ int_of_digits (str_of_nonneg n) = n
  /\ str_of_nonneg n <> [].
Proof.
  intros Hn. unfold str_of_nonneg.
  split; [now apply digits_of_isdigit|].
  split; [|apply digits_of_nonempty].
  apply digits_of_value. split; [exact Hn|].
  rewrite Nat2Z.inj_succ, Z2Nat.id by apply Z.log2_nonneg.
  destruct (Z.eq_dec n 0) as [-> | Hne]; [cbn; lia|].
  apply Z.log2_spec. lia.
Qed.

Lemma str_of_Z_nonneg (n : Z) : 0 <= n -> str_of_Z n = str_of_nonneg n.
Proof.
  intros Hn. unfold str_of_Z. destruct (Z.ltb_spec n 0); [lia | reflexivity].
Qed.

Lemma int_of_zeros (j : nat) : int_of_digits (repeat zero_char j) = 0.
Proof.
  induction j as [|j IH]; [reflexivity|].
  change (repeat zero_char (S j)) with ([zero_char] ++ repeat zero_char j)%list.
  rewrite int_of_digits_app, IH. cbn. lia.
Qed.

Lemma isdigit_zeros (j : nat) : forallb isdigit (repeat zero_char j) = true.
Proof. induction j as [|j IH]; [reflexivity | exact IH]. Qed.

(** The six fractional digits. *)
Lemma zfill6_spec (f : Z) :
  0 <= f < 10 ^ 6 ->
  forallb isdigit (zfill 6 (str_of_Z f)) = true
  /\ List.length (zfill 6 (str_of_Z f)) = 6%nat
  /\ int_of_digits (zfill 6 (str_of_Z f)) = f.
Proof.
  intros Hf. rewrite zfill_unsigned by lia.
  rewrite str_of_Z_nonneg by lia.
  destruct (str_of_nonneg_spec f ltac:(lia)) as (Hd & Hv & _).
  assert (Hl : (List.length (str_of_nonneg f) <= 6)%nat).
  { apply digits_of_length; [lia | exact Hf]. }
  unfold zero_padded. split; [|split].
  - now rewrite forallb_app, isdigit_zeros, Hd.
  - rewrite length_app, repeat_length. lia.
  - now rewrite int_of_digits_app, int_of_zeros, Hv.
Qed.

Lemma split_dot_digits (ip fp : str) :
  forallb isdigit ip = true ->
  split_dot (ip ++ "."%char :: fp) = (ip, Some fp).
Proof.
  induction ip as [|c ip IH]; intros H; [reflexivity|].
  cbn [forallb] in H. apply andb_true_iff in H as [Hc Hip].
  cbn [app split_dot].
  replace (Ascii.eqb c ".") with false.
  - now rewrite IH.
  - symmetry. apply Ascii.eqb_neq. intros ->. discriminate Hc.
Qed.

Lemma decimal_value_digits (ip fp : str) :
  forallb isdigit ip = true -> forallb isdigit fp = true -> ip <> [] ->
  decimal_value (ip ++ "."%char :: fp)
  = Some (Qmake (int_of_digits ip * 10 ^ Z.of_nat (List.length fp)
                 + int_of_digits fp)
                (Z.to_pos (10 ^ Z.of_nat (List.length fp)))).
Proof.
  intros Hi Hf Hne. unfold decimal_value.
  rewrite split_dot_digits by exact Hi.
  rewrite Hi, Hf. destruct ip as [|c ip]; [contradiction|].
  cbn [andb List.length Nat.eqb negb].
  now rewrite int_of_digits_app.
Qed.

(** The filter text of a remainder whose six-decimal rounding is [n]
    millionths, for [n] between one and two million. *)
Lemma atempo_value_format (x : float) :
  is_finite x = true -> sign_of x = false ->
  10 ^ 6 <= micros x <= 2 * 10 ^ 6 ->
  atempo_value (py "atempo=" ++ format_6f x) = Some (Qmake (micros x) 1000000).
Proof.
  intros Hfin Hs Hn.
  unfold atempo_value.
  change (startswith (py "atempo=" ++ format_6f x) (py "atempo=")) with true.
  change (skipn 7 (py "atempo=" ++ format_6f x)) with (format_6f x).
  cbv iota.
  assert (E : format_6f x
              = (str_of_Z (micros x / 10 ^ 6) ++ "."%char
                   :: zfill 6 (str_of_Z (micros x mod 10 ^ 6)))%list).
  { unfold format_6f. destruct x; try discriminate Hfin; cbn in Hs;
      rewrite Hs; reflexivity. }
  rewrite E.
  set (n := micros x) in *.
  pose proof (Z.mod_pos_bound n (10 ^ 6) ltac:(lia)) as Hm.
  destruct (zfill6_spec (n mod 10 ^ 6) Hm) as (Hfd & Hfl & Hfv).
  assert (Hq : 0 <= n / 10 ^ 6) by (apply Z.div_pos; lia).
  rewrite (str_of_Z_nonneg (n / 10 ^ 6)) by exact Hq.
  destruct (str_of_nonneg_spec (n / 10 ^ 6) Hq) as (Hid & Hiv & Hine).
  rewrite decimal_value_digits by assumption.
  rewrite Hfl, Hiv, Hfv.
  change (10 ^ Z.of_nat 6) with (10 ^ 6).
  f_equal. f_equal.
  pose proof (Z.div_mod n (10 ^ 6) ltac:(lia)). lia.
Qed.

(** ** Rounding to six decimals *)

Lemma round_half_even_spec (n d : Z) :
  0 <= n -> 0 < d ->
  - d <= 2 * (round_half_even n d * d - n) <= d.
Proof.
  intros Hn Hd. unfold round_half_even.
  pose proof (Z.div_mod n d ltac:(lia)) as E.
  pose proof (Z.mod_pos_bound n d Hd) as Hr.
  destruct (Z.compare_spec (2 * (n mod d)) d) as [Hc | Hc | Hc].
  - destruct (Z.even (n / d)); nia.
  - nia.
  - nia.
Qed.

(** ** Halving a double *)

Lemma fdiv_two (m : positive) (e : Z) :
  Zpos (digits2_pos m) = 53 -> -1072 <= e <= 972 ->
  fdiv (S754_finite false m e) two = S754_finite false m (e - 1).
Proof.
  intros Hd He. rewrite two_eq.
  unfold fdiv, SFdiv, SFdiv_core_binary. cbn [Zdigits2 xorb]. rewrite Hd.
  change (Zpos (digits2_pos 4503599627370496)) with 53.
  change (SpecFloat.fexp prec emax) with fexp64. rewrite fexp64_eq.
  replace (Z.min (Z.max (53 + e - (53 + -51) - 53) (-1074)) (e - -51))
    with (e - 2) by lia.
  replace (e - -51 - (e - 2)) with 53 by lia.
  cbv iota.
  rewrite Z.shiftl_mul_pow2 by lia. rewrite div_eucl_eq.
  replace (Zpos m * 2 ^ 53) with (Zpos m~0 * 4503599627370496)
    by (rewrite (Pos2Z.inj_xO m); change (2 ^ 53) with (2 * 4503599627370496); lia).
  rewrite Z.div_mul by lia. rewrite Z.mod_mul by lia.
  change (new_location 4503599627370496 0) with loc_Exact.
  unfold binary_round_aux, shr_fexp. cbn [Zdigits2 digits2_pos].
  rewrite Pos2Z.inj_succ, Hd.
  change (SpecFloat.fexp prec emax) with fexp64. rewrite !fexp64_eq.
  replace (Z.max (Z.succ 53 + (e - 2) - 53) (-1074) - (e - 2)) with 1 by lia.
  cbn [shr shr_record_of_loc SpecFloat.iter_pos shr_1 shr_m loc_of_shr_record
       round_nearest_even Zdigits2 orb].
  rewrite Hd, fexp64_eq.
  replace (Z.max (53 + (e - 2 + 1) - 53) (-1074) - (e - 2 + 1)) with 0 by lia.
  cbn [shr shr_record_of_loc shr_m].
  unfold emax, prec.
  destruct (Z.leb_spec (e - 2 + 1) (1024 - 53)) as [_ | Hgt]; [|lia].
  f_equal. lia.
Qed.

(** ** The two loops of the stretch planner *)

Lemma fgtb_one_iff (m : positive) (e : Z) :
  fgtb (S754_finite false m e) one = true
  <-> -52 < e \/ (-52 = e /\ 4503599627370496 < Zpos m).
Proof.
  unfold fgtb, fltb, SFltb. rewrite one_eq, SFcompare_finite.
  rewrite <- lex_Lt.
  destruct (lex (-52) 4503599627370496 e m); split; congruence.
Qed.

Lemma fgtb_two_iff (m : positive) (e : Z) :
  fgtb (S754_finite false m e) two = true
  <-> -51 < e \/ (-51 = e /\ 4503599627370496 < Zpos m).
Proof.
  unfold fgtb, fltb, SFltb. rewrite two_eq, SFcompare_finite.
  rewrite <- lex_Lt.
  destruct (lex (-51) 4503599627370496 e m); split; congruence.
Qed.

Lemma fltb_half_iff (m : positive) (e : Z) :
  fltb (S754_finite false m e) half = true
  <-> e < -53 \/ (e = -53 /\ Zpos m < 4503599627370496).
Proof.
  unfold fltb, SFltb. rewrite half_eq, SFcompare_finite.
  rewrite <- lex_Lt.
  destruct (lex e m (-53) 4503599627370496); split; congruence.
Qed.

Lemma speed_up_stop (fuel : nat) (x : float) (filters : list str) :
  fgtb x two = false -> speed_up fuel x filters = Some (x, filters).
Proof. intros H. destruct fuel; cbn [speed_up]; now rewrite H. Qed.

Lemma slow_down_stop (fuel : nat) (x : float) (filters : list str) :
  fltb x half = false -> slow_down fuel x filters = Some (x, filters).
Proof. intros H. destruct fuel; cbn [slow_down]; now rewrite H. Qed.

Lemma speed_up_spec (fuel : nat) :
  forall (m : positive) (e : Z) (filters : list str),
    Zpos (digits2_pos m) = 53 -> e <= 971 ->
    fgtb (S754_finite false m e) one = true ->
    e + 52 <= Z.of_nat fuel ->
    exists k : nat,
      speed_up fuel (S754_finite false m e) filters
      = Some (S754_finite false m (e - Z.of_nat k),
              (filters ++ repeat (py "atempo=2.0") k)%list)
      /\ fgtb (S754_finite false m (e - Z.of_nat k)) one = true
      /\ fgtb (S754_finite false m (e - Z.of_nat k)) two = false.
Proof.
  induction fuel as [|f IH]; intros m e filters Hd He H1 Hf.
  - exists 0%nat. apply fgtb_one_iff in H1.
    assert (H2 : fgtb (S754_finite false m e) two = false).
    { destruct (fgtb (S754_finite false m e) two) eqn:E; [|reflexivity].
      apply fgtb_two_iff in E. cbn in Hf. lia. }
    replace (e - Z.of_nat 0) with e by (cbn; lia).
    rewrite speed_up_stop by exact H2. cbn [repeat]. rewrite app_nil_r.
    split; [reflexivity|]. split; [now apply fgtb_one_iff | exact H2].
  - destruct (fgtb (S754_finite false m e) two) eqn:E.
    + pose proof E as E'. apply fgtb_two_iff in E'.
      cbn [speed_up]. rewrite E.
      rewrite fdiv_two by (try assumption; lia).
      destruct (IH m (e - 1) (filters ++ [py "atempo=2.0"])%list Hd)
        as (k & Hk & Hk1 & Hk2); [lia | apply fgtb_one_iff; lia | lia |].
      exists (S k).
      replace (e - Z.of_nat (S k)) with (e - 1 - Z.of_nat k) by lia.
      rewrite Hk, <- app_assoc. cbn [repeat app].
      split; [reflexivity|]. now split.
    + exists 0%nat.
      replace (e - Z.of_nat 0) with e by (cbn; lia).
      rewrite speed_up_stop by exact E. cbn [repeat]. rewrite app_nil_r.
      split; [reflexivity|]. now split.
Qed.

(** The remainder handed to the final stage: a double in (1, 2]. *)
Lemma remainder_shape (m : positive) (e : Z) :
  Zpos (digits2_pos m) = 53 ->
  fgtb (S754_finite false m e) one = true ->
  fgtb (S754_finite false m e) two = false ->
  (e = -52 /\ 4503599627370496 < Zpos m < 9007199254740992)
  \/ (e = -51 /\ m = 4503599627370496%positive).
Proof.
  intros Hd H1 H2. apply fgtb_one_iff in H1.
  assert (N2 : ~ (-51 < e \/ (-51 = e /\ 4503599627370496 < Zpos m))).
  { intros H. apply fgtb_two_iff in H. congruence. }
  pose proof (digits2_pos_bounds m) as [Blo Bhi]. rewrite Hd in Blo, Bhi.
  change (2 ^ (53 - 1)) with 4503599627370496 in Blo.
  change (2 ^ 53) with 9007199254740992 in Bhi.
  destruct (Z.eq_dec e (-52)) as [-> | Hne]; [left; lia|].
  right. assert (e = -51) by lia. subst e. split; [reflexivity|].
  assert (Zpos m = 4503599627370496) by lia. congruence.
Qed.

Lemma micros_remainder (m : positive) (e : Z) :
  (e = -52 /\ 4503599627370496 < Zpos m < 9007199254740992)
  \/ (e = -51 /\ m = 4503599627370496%positive) ->
  10 ^ 6 <= micros (S754_finite false m e) <= 2 * 10 ^ 6
  /\ - 2 ^ (- e)
     <= 2 * (micros (S754_finite false m e) * 2 ^ (- e) - Zpos m * 10 ^ 6)
     <= 2 ^ (- e).
Proof.
  intros [(-> & Hm) | (-> & ->)]; [|vm_compute; repeat split; discriminate].
  cbn [micros]. change (0 <=? -52) with false. cbv iota.
  change (- -52) with 52. change (2 ^ 52) with 4503599627370496.
  change (10 ^ 6) with 1000000.
  pose proof (round_half_even_spec (Zpos m * 1000000) 4503599627370496
                ltac:(lia) ltac:(lia)) as H.
  set (N := round_half_even (Zpos m * 1000000) 4503599627370496) in *.
  lia.
Qed.

(** ** Exact values *)

Lemma pow2_pos (a : Z) : 0 <= a -> 0 < 2 ^ a.
Proof. intros. apply Z.pow_pos_nonneg; lia. Qed.

Lemma Q_of_float_neg_exp (m : positive) (e : Z) :
  e < 0 ->
  Q_of_float (S754_finite false m e) = Qmake (Zpos m) (Z.to_pos (2 ^ (- e))).
Proof.
  intros He. cbn [Q_of_float].
  destruct (Z.leb_spec 0 e); [lia | reflexivity].
Qed.

Lemma Q_of_float_scaled (m : positive) (e : Z) (k : nat) :
  e - Z.of_nat k < 0 ->
  (Q_of_float (S754_finite false m e)
   == inject_Z (2 ^ Z.of_nat k)
      * Q_of_float (S754_finite false m (e - Z.of_nat k)))%Q.
Proof.
  intros Hr. rewrite (Q_of_float_neg_exp m (e - Z.of_nat k)) by exact Hr.
  pose proof (pow2_pos (Z.of_nat k) ltac:(lia)) as Hk.
  pose proof (pow2_pos (- (e - Z.of_nat k)) ltac:(lia)) as Hr'.
  cbn [Q_of_float].
  destruct (Z.leb_spec 0 e) as [He | He]; unfold Qeq, Qmult, inject_Z;
    cbn [Qnum Qden].
  - rewrite Pos.mul_1_l, Z2Pos.id by exact Hr'.
    replace (- (e - Z.of_nat k)) with (Z.of_nat k - e) by lia.
    assert (E : 2 ^ Z.of_nat k = 2 ^ e * 2 ^ (Z.of_nat k - e)).
    { rewrite <- pow2_split by lia. f_equal. lia. }
    rewrite E. ring.
  - pose proof (pow2_pos (- e) ltac:(lia)) as He'.
    rewrite Pos.mul_1_l, !Z2Pos.id by assumption.
    assert (E : 2 ^ (- (e - Z.of_nat k)) = 2 ^ Z.of_nat k * 2 ^ (- e)).
    { rewrite <- pow2_split by lia. f_equal. lia. }
    rewrite E. ring.
Qed.

Lemma atempo_two : atempo_value (py "atempo=2.0") = Some (20 # 10)%Q.
Proof. reflexivity. Qed.

Lemma chain_product_halvings (k : nat) (f : str) (v : Q) :
  atempo_value f = Some v ->
  exists P,
    chain_product (repeat (py "atempo=2.0") k ++ [f]) = Some P
    /\ (P == inject_Z (2 ^ Z.of_nat k) * v)%Q.
Proof.
  intros Hv. induction k as [|k (P & HP & EP)].
  - exists (v * 1)%Q. cbn [repeat app chain_product]. rewrite Hv.
    split; [reflexivity|]. change (2 ^ Z.of_nat 0) with 1. ring.
  - exists ((20 # 10) * P)%Q. cbn [repeat app chain_product].
    rewrite atempo_two, HP. split; [reflexivity|].
    rewrite EP, Nat2Z.inj_succ, Z.pow_succ_r by lia.
    rewrite inject_Z_mult.
    assert (E : ((20 # 10) == inject_Z 2)%Q) by reflexivity.
    rewrite E. ring.
Qed.

Lemma stages_in_range (k : nat) (f : str) (v : Q) :
  atempo_value f = Some v -> (1 # 2 <= v)%Q -> (v <= 2)%Q ->
  Forall (fun g => exists w, atempo_value g = Some w
                             /\ (1 # 2 <= w)%Q /\ (w <= 2)%Q)
         (repeat (py "atempo=2.0") k ++ [f]).
Proof.
  intros Hv Hlo Hhi. apply Forall_app. split.
  - apply Forall_forall. intros g Hg. apply repeat_spec in Hg. subst g.
    exists (20 # 10)%Q. split; [exact atempo_two|]. split; discriminate.
  - constructor; [|constructor]. exists v. auto.
Qed.

(** ** StretchPlanner *)

Lemma remainder_error (m : positive) (e : Z) :
  (e = -52 /\ 4503599627370496 < Zpos m < 9007199254740992)
  \/ (e = -51 /\ m = 4503599627370496%positive) ->
  let r := S754_finite false m e in
  (Qabs (Qmake (micros r) 1000000 - Q_of_float r) <= 1 # 2000000)%Q
  /\ (1 <= Qmake (micros r) 1000000)%Q
  /\ (Qmake (micros r) 1000000 <= 2)%Q
  /\ (1 < Q_of_float r)%Q.
Proof.
  intros Hs r.
  destruct (micros_remainder m e Hs) as (HN & HE).
  destruct Hs as [(-> & Hm) | (-> & ->)].
  - change (- -52) with 52 in HE. change (2 ^ 52) with 4503599627370496 in HE.
    change (10 ^ 6) with 1000000 in HE, HN.
    subst r. rewrite Q_of_float_neg_exp by lia.
    change (Z.to_pos (2 ^ (- -52))) with 4503599627370496%positive.
    set (N := micros (S754_finite false m (-52))) in *.
    split; [|split; [|split]].
    + apply Qabs_Qle_condition.
      unfold Qle, Qminus, Qplus, Qopp. cbn [Qnum Qden].
      rewrite !Pos2Z.inj_mul. lia.
    + unfold Qle. cbn [Qnum Qden]. lia.
    + unfold Qle. cbn [Qnum Qden]. lia.
    + unfold Qlt. cbn [Qnum Qden]. lia.
  - split; [|split; [|split]].
    + apply Qabs_Qle_condition. split; unfold Qle; vm_compute; discriminate.
    + unfold Qle; vm_compute; discriminate.
    + unfold Qle; vm_compute; discriminate.
    + unfold Qlt; vm_compute; reflexivity.
Qed.

Lemma error_scaled (c v rq P S : Q) :
  (0 < c)%Q -> (P == c * v)%Q -> (S == c * rq)%Q ->
  (Qabs (v - rq) <= 1 # 2000000)%Q ->
  (Qabs (P - S) <= c * (1 # 2000000))%Q.
Proof.
  intros Hc EP ES Hv.
  assert (E : (P - S == c * (v - rq))%Q) by (rewrite EP, ES; ring).
  rewrite E, Qabs_Qmult, (Qabs_pos c) by now apply Qlt_le_weak.
  apply Qmult_le_l; assumption.
Qed.

Lemma above_scaled (c rq S : Q) :
  (0 < c)%Q -> (S == c * rq)%Q -> (1 < rq)%Q -> (c < S)%Q.
Proof.
  intros Hc ES Hr. rewrite ES.
  setoid_replace c with (c * 1)%Q at 1 by ring.
  apply Qmult_lt_l; assumption.
Qed.

Lemma speed_shape (speed : float) :
  valid_binary prec emax speed = true ->
  fgtb speed one = true -> is_finite speed = true ->
  exists m e, speed = S754_finite false m e
              /\ Zpos (digits2_pos m) = 53 /\ -52 <= e <= 971.
Proof.
  intros V H1 F.
  destruct speed as [s|s| |s m e]; try discriminate F.
  - rewrite one_eq in H1. discriminate H1.
  - destruct s; [rewrite one_eq in H1; discriminate H1|].
    pose proof H1 as H1'. apply fgtb_one_iff in H1'.
    cbn [valid_binary] in V. apply bounded_digits in V as (_ & He & Hn).
    exists m, e. split; [reflexivity|]. split; [apply Hn; lia | lia].
Qed.

(** C2 (as amended).  For every finite double speed factor above 1.0 the
    chain is [k] times [atempo=2.0] followed by one final stage, where the
    remainder [r] is the factor halved [k] times exactly, [1 < r <= 2] (the
    halving stops at the first remainder that does not exceed 2.0, and the
    0.5 loop never runs), and the final stage is [r] printed with six
    decimals.  Every stage lies in [0.5, 2.0].  The product of the stage
    ratios differs from the factor by at most 0.5e-6 * 2^k, and
    [2^k < factor].  For the factor 5.3 the chain is 2.0, 2.0, 1.325000,
    of product 5.3. *)
Theorem atempo_chain (speed_factor : float) (fuel : nat) :
  valid_binary prec emax speed_factor = true ->
  is_finite speed_factor = true ->
  fgtb speed_factor one = true ->
  (1100 <= fuel)%nat ->
  (exists (k : nat) (r : float) (P : Q),
      atempo_filters fuel speed_factor
      = Some (repeat (py "atempo=2.0") k ++ [(py "atempo=" ++ format_6f r)%list])
      /\ (Q_of_float speed_factor == inject_Z (2 ^ Z.of_nat k) * Q_of_float r)%Q
      /\ fgtb r one = true /\ fgtb r two = false
      /\ atempo_value (py "atempo=" ++ format_6f r)
         = Some (Qmake (micros r) 1000000)
      /\ (Qabs (Qmake (micros r) 1000000 - Q_of_float r) <= 1 # 2000000)%Q
      /\ Forall (fun g => exists w, atempo_value g = Some w
                                    /\ (1 # 2 <= w)%Q /\ (w <= 2)%Q)
                (repeat (py "atempo=2.0") k ++ [(py "atempo=" ++ format_6f r)%list])
      /\ chain_product
           (repeat (py "atempo=2.0") k ++ [(py "atempo=" ++ format_6f r)%list])
         = Some P
      /\ (Qabs (P - Q_of_float speed_factor)
          <= inject_Z (2 ^ Z.of_nat k) * (1 # 2000000))%Q
      /\ (inject_Z (2 ^ Z.of_nat k) < Q_of_float speed_factor)%Q)
  /\ atempo_filters fuel (dec 53 1)
     = Some [py "atempo=2.0"; py "atempo=2.0"; py "atempo=1.325000"]
  /\ (exists P, chain_product [py "atempo=2.0"; py "atempo=2.0";
                               py "atempo=1.325000"] = Some P
                /\ (P == 53 # 10)%Q).
Proof.
  intros V F H1 Hfuel. split; [|split].
  - destruct (speed_shape speed_factor V H1 F) as (m & e & -> & Hd & He).
    destruct (speed_up_spec fuel m e [] Hd ltac:(lia) H1 ltac:(lia))
      as (k & Hup & Hr1 & Hr2).
    set (r := S754_finite false m (e - Z.of_nat k)) in *.
    pose proof (remainder_shape m (e - Z.of_nat k) Hd Hr1 Hr2) as Hs.
    destruct (remainder_error m (e - Z.of_nat k) Hs) as (Herr & Hlo & Hhi & Hgt).
    fold r in Herr, Hlo, Hhi, Hgt.
    destruct (micros_remainder m (e - Z.of_nat k) Hs) as (HN & _).
    fold r in HN.
    assert (Hv : atempo_value (py "atempo=" ++ format_6f r)
                 = Some (Qmake (micros r) 1000000)).
    { apply atempo_value_format; [reflexivity | reflexivity | exact HN]. }
    assert (Hhalf : fltb r half = false).
    { destruct (fltb r half) eqn:E; [|reflexivity].
      apply fltb_half_iff in E. apply fgtb_one_iff in Hr1. lia. }
    assert (ES : (Q_of_float (S754_finite false m e)
                  == inject_Z (2 ^ Z.of_nat k) * Q_of_float r)%Q).
    { apply Q_of_float_scaled. lia. }
    assert (Hc : (0 < inject_Z (2 ^ Z.of_nat k))%Q).
    { change 0%Q with (inject_Z 0). rewrite <- Zlt_Qlt. apply pow2_pos. lia. }
    destruct (chain_product_halvings k _ _ Hv) as (P & HP & EP).
    exists k, r, P.
    split.
    { unfold atempo_filters. rewrite Hup. cbn [app].
      now rewrite slow_down_stop by exact Hhalf. }
    split; [exact ES|]. split; [exact Hr1|]. split; [exact Hr2|].
    split; [exact Hv|]. split; [exact Herr|].
    split.
    { apply stages_in_range with (v := Qmake (micros r) 1000000);
        [exact Hv | | exact Hhi].
      apply Qle_trans with 1%Q; [discriminate | exact Hlo]. }
    split; [exact HP|].
    split.
    + now apply error_scaled with (v := Qmake (micros r) 1000000)
                                  (rq := Q_of_float r).
    + now apply above_scaled with (rq := Q_of_float r).
  - destruct fuel as [|[|[|f]]]; try lia. vm_compute. reflexivity.
  - eexists. split; [reflexivity | reflexivity].
Qed.

Lemma atempo_chain_witness :
  exists k r P,
    atempo_filters 1100 (dec 53 1)
    = Some (repeat (py "atempo=2.0") k ++ [(py "atempo=" ++ format_6f r)%list])
    /\ chain_product
         (repeat (py "atempo=2.0") k ++ [(py "atempo=" ++ format_6f r)%list])
       = Some P
    /\ (Qabs (P - Q_of_float (dec 53 1))
        <= inject_Z (2 ^ Z.of_nat k) * (1 # 2000000))%Q.
Proof.
  destruct (proj1 (atempo_chain (dec 53 1) 1100 eq_refl eq_refl eq_refl
                                ltac:(lia)))
    as (k & r & P & H1 & _ & _ & _ & _ & _ & _ & H2 & H3 & _).
  exists k, r, P. auto.
Defined.

(** C2 as stated fails for factors above 4: for [factor_above_four], the
    double nearest to 4.0000016, the chain is 2.0, 2.0, 1.000000, of
    product 4, which is more than 1e-6 away from the factor. *)
Lemma atempo_chain_error_above_tolerance :
  atempo_filters 1100 factor_above_four
  = Some [py "atempo=2.0"; py "atempo=2.0"; py "atempo=1.000000"]
  /\ fgtb factor_above_four one = true
  /\ exists P,
       chain_product [py "atempo=2.0"; py "atempo=2.0"; py "atempo=1.000000"]
       = Some P
       /\ ~ (Qabs (P - Q_of_float factor_above_four) <= 1 # 1000000)%Q.
Proof.
  split; [vm_compute; reflexivity|]. split; [vm_compute; reflexivity|].
  eexists. split; [reflexivity|].
  intros H. apply Qabs_Qle_condition in H as [H _].
  revert H. unfold Qle. vm_compute. intros H. now apply H.
Qed.

(** * Further properties of the code *)

(** ** Path utilities *)

Lemma rfind_from_none (s : str) :
  has_sep s = false ->
  forall i last, rfind_from "/" s i last = last.
Proof.
  induction s as [|x s IH]; intros H i last; [reflexivity|].
  cbn [has_sep existsb] in H. apply orb_false_iff in H as [Hx Hs].
  cbn [rfind_from]. rewrite Hx. apply IH. exact Hs.
Qed.

Lemma rfind_from_last (a b : str) :
  has_sep b = false ->
  forall i last,
    rfind_from "/" (a ++ "/"%char :: b) i last = i + Z.of_nat (List.length a).
Proof.
  intros Hb. induction a as [|x a IH]; intros i last.
  - cbn [app rfind_from List.length]. rewrite Ascii.eqb_refl.
    rewrite rfind_from_none by assumption. cbn. lia.
  - cbn [app rfind_from]. rewrite IH. cbn [List.length]. lia.
Qed.

Lemma rfind_none (s : str) : has_sep s = false -> rfind "/" s = -1.
Proof. intros H. unfold rfind. now apply rfind_from_none. Qed.

Lemma rfind_last (a b : str) :
  has_sep b = false -> rfind "/" (a ++ "/"%char :: b) = Z.of_nat (List.length a).
Proof. intros H. unfold rfind. now rewrite rfind_from_last. Qed.

Lemma sep_split (s : str) :
  has_sep s = false
  \/ exists a b, s = (a ++ "/"%char :: b)%list /\ has_sep b = false.
Proof.
  induction s as [|x s [IH | (a & b & -> & Hb)]].
  - left. reflexivity.
  - destruct (Ascii.eqb x "/") eqn:E.
    + right. apply Ascii.eqb_eq in E as ->. exists [], s. auto.
    + left. cbn [has_sep existsb]. now rewrite E.
  - right. exists (x :: a), b. auto.
Qed.

Lemma has_sep_app (a b : str) : has_sep (a ++ b) = has_sep a || has_sep b.
Proof. unfold has_sep. apply existsb_app. Qed.

Lemma firstn_length_app {A : Type} (a b : list A) :
  firstn (List.length a) (a ++ b) = a.
Proof.
  rewrite firstn_app, firstn_all, Nat.sub_diag. cbn. apply app_nil_r.
Qed.

Lemma skipn_length_app {A : Type} (a b : list A) :
  skipn (List.length a) (a ++ b) = b.
Proof.
  rewrite skipn_app, skipn_all, Nat.sub_diag. reflexivity.
Qed.

Lemma basename_nosep (s : str) : has_sep s = false -> basename s = s.
Proof. intros H. unfold basename. now rewrite rfind_none. Qed.

Lemma basename_last (a b : str) :
  has_sep b = false -> basename (a ++ "/"%char :: b) = b.
Proof.
  intros H. unfold basename. rewrite rfind_last by assumption.
  replace (Z.to_nat (Z.of_nat (List.length a) + 1))
    with (List.length (a ++ ["/"%char])) by (rewrite length_app; cbn; lia).
  change (a ++ "/"%char :: b)%list with (a ++ ["/"%char] ++ b)%list.
  rewrite app_assoc. apply skipn_length_app.
Qed.

Lemma all_sep_app (a b : str) : all_sep (a ++ b) = all_sep a && all_sep b.
Proof. unfold all_sep. apply forallb_app. Qed.

Lemma rstrip_sep_snoc (a : str) : rstrip_sep (a ++ ["/"%char]) = rstrip_sep a.
Proof. unfold rstrip_sep. rewrite rev_app_distr. reflexivity. Qed.

Lemma dirname_nosep (s : str) : has_sep s = false -> dirname s = [].
Proof. intros H. unfold dirname. now rewrite rfind_none. Qed.

Lemma dirname_last (a b : str) :
  has_sep b = false ->
  dirname (a ++ "/"%char :: b)
  = if all_sep a then (a ++ ["/"%char])%list else rstrip_sep a.
Proof.
  intros H. unfold dirname. rewrite rfind_last by assumption.
  replace (Z.to_nat (Z.of_nat (List.length a) + 1))
    with (List.length (a ++ ["/"%char])) by (rewrite length_app; cbn; lia).
  change (a ++ "/"%char :: b)%list with (a ++ ["/"%char] ++ b)%list.
  rewrite app_assoc, firstn_length_app.
  rewrite all_sep_app. change (all_sep ["/"%char]) with true.
  rewrite andb_true_r.
  assert (Hne : nonempty (a ++ ["/"%char]) = true) by (destruct a; reflexivity).
  rewrite Hne. cbn [andb].
  destruct (all_sep a); cbn [negb]; [reflexivity | apply rstrip_sep_snoc].
Qed.

Lemma lstrip_sep_shape (s : str) :
  all_sep s = false ->
  exists c t, lstrip_sep s = c :: t /\ Ascii.eqb c "/" = false.
Proof.
  induction s as [|x s IH]; intros H; [discriminate|].
  cbn [all_sep forallb] in H. cbn [lstrip_sep].
  destruct (Ascii.eqb x "/") eqn:E.
  - apply IH. exact H.
  - exists x, s. auto.
Qed.

Lemma all_sep_rev (s : str) : all_sep (rev s) = all_sep s.
Proof.
  induction s as [|x s IH]; [reflexivity|].
  cbn [rev]. rewrite all_sep_app, IH. cbn [all_sep forallb].
  rewrite andb_true_r. apply andb_comm.
Qed.

Lemma rstrip_sep_shape (a : str) :
  all_sep a = false ->
  exists h c, rstrip_sep a = (h ++ [c])%list /\ Ascii.eqb c "/" = false.
Proof.
  intros H. rewrite <- all_sep_rev in H.
  destruct (lstrip_sep_shape _ H) as (c & t & E & Hc).
  exists (rev t), c. unfold rstrip_sep. rewrite E. cbn [rev]. auto.
Qed.

Lemma dirname_shape (p : str) : dir_shape (dirname p).
Proof.
  destruct (sep_split p) as [H | (a & b & -> & H)].
  - rewrite dirname_nosep by assumption. constructor.
  - rewrite dirname_last by assumption.
    destruct (all_sep a) eqn:E.
    + apply dir_root; [now destruct a|].
      rewrite all_sep_app, E. reflexivity.
    + destruct (rstrip_sep_shape a E) as (h & c & -> & Hc).
      now apply dir_plain.
Qed.

Lemma startswith_sep (name : str) :
  has_sep name = false -> startswith name (py "/") = false.
Proof.
  destruct name as [|x name]; [reflexivity|].
  cbn [has_sep existsb]. intros H. apply orb_false_iff in H as [H _].
  cbn [py list_ascii_of_string startswith].
  rewrite Ascii.eqb_sym, H. reflexivity.
Qed.

Lemma endswith_sep_snoc (h : str) (c : ascii) :
  endswith_sep (h ++ [c]) = Ascii.eqb c "/".
Proof. unfold endswith_sep. rewrite rev_app_distr. reflexivity. Qed.

Lemma all_sep_endswith (h : str) :
  h <> [] -> all_sep h = true -> endswith_sep h = true.
Proof.
  intros Hne H.
  destruct (exists_last Hne) as (h' & c & ->).
  rewrite endswith_sep_snoc.
  rewrite all_sep_app in H. apply andb_true_iff in H as [_ H].
  cbn [all_sep forallb] in H. now rewrite andb_true_r in H.
Qed.

Lemma all_sep_has_sep (h : str) :
  h <> [] -> all_sep h = true -> exists h', h = (h' ++ ["/"%char])%list.
Proof.
  intros Hne H.
  destruct (exists_last Hne) as (h' & c & ->).
  rewrite all_sep_app in H. apply andb_true_iff in H as [_ H].
  cbn [all_sep forallb] in H. rewrite andb_true_r in H.
  apply Ascii.eqb_eq in H as ->. now exists h'.
Qed.

(** Joining a file name to a directory name of one of the three shapes. *)
Lemma join_shape (h name : str) :
  dir_shape h -> has_sep name = false ->
  join h name
  = match h with
    | [] => name
    | _ => if all_sep h then (h ++ name)%list
           else (h ++ "/"%char :: name)%list
    end.
Proof.
  intros Hs Hn. unfold join. rewrite (startswith_sep name Hn).
  destruct Hs as [|h Hne Ha|h c Hc].
  - reflexivity.
  - rewrite Ha, (all_sep_endswith h Hne Ha), orb_true_r.
    destruct h; [contradiction | reflexivity].
  - rewrite endswith_sep_snoc, Hc.
    rewrite all_sep_app. cbn [all_sep forallb]. rewrite Hc, andb_false_r.
    destruct (h ++ [c])%list eqn:E; [now destruct h | reflexivity].
Qed.

Lemma rstrip_sep_keep (h : str) (c : ascii) :
  Ascii.eqb c "/" = false -> rstrip_sep (h ++ [c]) = (h ++ [c])%list.
Proof.
  intros Hc. unfold rstrip_sep. rewrite rev_app_distr. cbn [rev app lstrip_sep].
  rewrite Hc. cbn [rev]. now rewrite rev_involutive.
Qed.

Lemma dirname_join (h name : str) :
  dir_shape h -> has_sep name = false ->
  dirname (join h name) = h /\ basename (join h name) = name.
Proof.
  intros Hs Hn. rewrite (join_shape h name Hs Hn).
  destruct Hs as [|h Hne Ha|h c Hc].
  - split; [now apply dirname_nosep | now apply basename_nosep].
  - destruct h as [|x h]; [contradiction|]. rewrite Ha.
    destruct (all_sep_has_sep (x :: h) Hne Ha) as (h' & E).
    rewrite E, <- app_assoc. cbn [app].
    rewrite dirname_last, basename_last by assumption.
    rewrite E, all_sep_app in Ha. apply andb_true_iff in Ha as [Ha _].
    rewrite Ha. auto.
  - assert (Ha : all_sep (h ++ [c]) = false).
    { rewrite all_sep_app. cbn [all_sep forallb]. now rewrite Hc, andb_false_r. }
    destruct (h ++ [c])%list as [|x t] eqn:E; [now destruct h|].
    cbv iota. rewrite Ha, <- E. rewrite <- E in Ha.
    rewrite dirname_last, basename_last by assumption.
    rewrite Ha. split; [now apply rstrip_sep_keep | reflexivity].
Qed.

(** X1.  Whatever the path of ffmpeg, the derived ffprobe path lies in the
    same directory ([dirname] is kept) and its file name is [ffprobe]: the
    file name of ffmpeg plays no part. *)
Theorem get_default_ffprobe_path_beside (ffmpeg_path : str) :
  dirname (get_default_ffprobe_path ffmpeg_path) = dirname ffmpeg_path
  /\ basename (get_default_ffprobe_path ffmpeg_path) = py "ffprobe".
Proof.
  unfold get_default_ffprobe_path.
  destruct (str_eqb ffmpeg_path (py "ffmpeg")) eqn:E.
  - apply str_eqb_eq in E as ->. split; reflexivity.
  - apply dirname_join; [apply dirname_shape | reflexivity].
Qed.

(** X2.  The ffprobe path derived from the default ffmpeg path is
    [ffprobe] inside the application directory exactly when a bundled
    [ffmpeg] exists there, and the bare name [ffprobe] (searched in PATH)
    otherwise; no test is made that the bundled ffprobe exists. *)
Theorem default_ffprobe_follows_ffmpeg (sys : sys_view) (os : os_view) :
  get_default_ffprobe_path (get_default_ffmpeg_path sys os)
  = if exists_ os (join (get_app_dir sys) (py "ffmpeg"))
    then join (get_app_dir sys) (py "ffprobe")
    else py "ffprobe".
Proof.
  assert (Hs : dir_shape (get_app_dir sys)).
  { unfold get_app_dir. destruct (frozen sys); apply dirname_shape. }
  unfold get_default_ffmpeg_path.
  destruct (exists_ os (join (get_app_dir sys) (py "ffmpeg"))); [|reflexivity].
  destruct (dirname_join (get_app_dir sys) (py "ffmpeg") Hs eq_refl) as [Hd _].
  unfold get_default_ffprobe_path.
  destruct (str_eqb (join (get_app_dir sys) (py "ffmpeg")) (py "ffmpeg")) eqn:E.
  - apply str_eqb_eq in E. rewrite E in Hd.
    rewrite <- Hd. reflexivity.
  - now rewrite Hd.
Qed.

(** ** The concat manifest determines the segment list *)

Lemma quote_eqb_false (d : ascii) (t u : str) :
  Ascii.eqb d quote = false -> (py "'\''" ++ t)%list <> d :: u.
Proof.
  intros Hd E. cbn [py list_ascii_of_string app] in E.
  injection E as E _. subst d. discriminate Hd.
Qed.

Lemma flat_map_escape_inj (p : str) :
  forall q, flat_map escape_char p = flat_map escape_char q -> p = q.
Proof.
  induction p as [|c p IH]; intros [|d q] H.
  - reflexivity.
  - exfalso. cbn [flat_map] in H. unfold escape_char in H.
    destruct (Ascii.eqb d quote); discriminate H.
  - exfalso. cbn [flat_map] in H. unfold escape_char in H.
    destruct (Ascii.eqb c quote); discriminate H.
  - cbn [flat_map] in H. unfold escape_char at 1 3 in H.
    destruct (Ascii.eqb c quote) eqn:Ec, (Ascii.eqb d quote) eqn:Ed.
    + apply Ascii.eqb_eq in Ec, Ed. subst c d.
      apply app_inv_head in H. f_equal. now apply IH.
    + exfalso. exact (quote_eqb_false d _ _ Ed H).
    + exfalso. symmetry in H. exact (quote_eqb_false c _ _ Ec H).
    + cbn [app] in H. injection H as -> H. f_equal. now apply IH.
Qed.

Lemma quoted_line_inj (p q : str) : quoted_line p = quoted_line q -> p = q.
Proof.
  unfold quoted_line. intros H.
  apply app_inv_head in H. apply app_inv_tail in H.
  now apply flat_map_escape_inj.
Qed.

Lemma map_quoted_line_inj (l1 : list str) :
  forall l2, map quoted_line l1 = map quoted_line l2 -> l1 = l2.
Proof.
  induction l1 as [|a l1 IH]; intros [|b l2] H; try discriminate H.
  - reflexivity.
  - cbn [map] in H.
    pose proof (f_equal (hd []) H) as Ha. pose proof (f_equal (@tl _) H) as Hl.
    cbn [hd tl] in Ha, Hl.
    f_equal; [now apply quoted_line_inj | now apply IH].
Qed.

(** X17.  Two lists of newline-free segment paths with the same manifest
    text are the same list: the quote escaping of [create_timeline] loses
    no information, and the entries keep their order and number. *)
Theorem concat_manifest_injective (l1 l2 : list str) :
  forallb no_newline l1 = true -> forallb no_newline l2 = true ->
  concat_manifest l1 = concat_manifest l2 -> l1 = l2.
Proof.
  intros H1 H2 E. apply map_quoted_line_inj.
  rewrite <- (lines_entries l1 H1), <- (lines_entries l2 H2).
  rewrite <- !concat_manifest_entries. now rewrite E.
Qed.

Lemma concat_manifest_injective_witness :
  [py "/tmp/it's.wav"; py "/tmp/b.wav"] = [py "/tmp/it's.wav"; py "/tmp/b.wav"].
Proof.
  apply (concat_manifest_injective
           [py "/tmp/it's.wav"; py "/tmp/b.wav"]
           [py "/tmp/it's.wav"; py "/tmp/b.wav"]); reflexivity.
Defined.

(** ** TimelineAssembler: what the walk keeps *)

Lemma clips_app (a b : list segment) : clips (a ++ b) = (clips a ++ clips b)%list.
Proof.
  induction a as [|[d p|p] a IH]; cbn [app clips]; [reflexivity | exact IH |].
  now rewrite IH.
Qed.

Lemma silences_app (a b : list segment) :
  silences (a ++ b) = (silences a ++ silences b)%list.
Proof.
  induction a as [|[d p|p] a IH]; cbn [app silences]; [reflexivity | | exact IH].
  now rewrite IH.
Qed.

Lemma timeline_fold_clips (temp_dir : str) (l : list AudioMatch) :
  forall (i : nat) (segs : list segment) (cur : float),
    clips (fst (fold_left (timeline_step temp_dir)
                          (combine (List.seq i (List.length l)) l) (segs, cur)))
    = (clips segs ++ flat_map clip_paths l)%list.
Proof.
  induction l as [|m l IH]; intros i segs cur.
  - cbn. now rewrite app_nil_r.
  - cbn [List.length List.seq combine fold_left flat_map].
    unfold timeline_step at 2. unfold clip_paths at 1.
    destruct (fgtb (fsub (start_time (subtitle m)) cur) epsilon);
      destruct (processed_path m) as [[|c p]|];
      rewrite IH, ?clips_app; cbn [clips app];
      rewrite <- ?app_assoc, ?app_nil_r; reflexivity.
Qed.

(** X16.  Without any assumption on the matches, the clip entries of the
    segment list are the non-empty processed paths of the matches taken in
    the sorted (start time) order: every such clip occurs once, a match
    whose processed path is missing or empty contributes none. *)
Theorem create_timeline_clips (matches : list AudioMatch) (temp_dir : str) :
  clips (fst (create_timeline matches temp_dir))
  = flat_map clip_paths (sort_by start_key fltb matches)
  /\ Permutation (flat_map clip_paths matches)
                 (clips (fst (create_timeline matches temp_dir))).
Proof.
  assert (E : clips (fst (create_timeline matches temp_dir))
              = flat_map clip_paths (sort_by start_key fltb matches)).
  { unfold create_timeline, timeline_segments, enumerate. cbn [fst].
    now rewrite timeline_fold_clips. }
  split; [exact E|].
  rewrite E. apply Permutation_flat_map, sort_by_perm.
Qed.

Lemma join_prefix (a : str) :
  exists pre, forall x, startswith x (py "/") = false -> join a x = (pre ++ x)%list.
Proof.
  destruct ((match a with [] => true | _ => false end) || endswith_sep a) eqn:E.
  - exists a. intros x Hx. unfold join. now rewrite Hx, E.
  - exists (a ++ py "/")%list. intros x Hx. unfold join.
    now rewrite Hx, E, <- app_assoc.
Qed.

Lemma int_of_zero_padded (n : nat) (d : str) :
  int_of_digits (zero_padded n d) = int_of_digits d.
Proof.
  unfold zero_padded. rewrite int_of_digits_app, int_of_zeros. lia.
Qed.

Lemma fmt04d_value (i : nat) : int_of_digits (fmt04d i) = Z.of_nat i.
Proof.
  unfold fmt04d. rewrite zfill_unsigned by lia.
  rewrite int_of_zero_padded, str_of_Z_nonneg by lia.
  apply str_of_nonneg_spec. lia.
Qed.

Lemma fmt04d_inj (i j : nat) : fmt04d i = fmt04d j -> i = j.
Proof.
  intros H. apply (f_equal int_of_digits) in H.
  rewrite !fmt04d_value in H. lia.
Qed.

Lemma silence_path_inj (temp_dir : str) (i j : nat) :
  join temp_dir (py "silence_" ++ fmt04d i ++ py "_before.wav")
  = join temp_dir (py "silence_" ++ fmt04d j ++ py "_before.wav") ->
  i = j.
Proof.
  destruct (join_prefix temp_dir) as (pre & Hpre).
  rewrite !Hpre by reflexivity. intros H.
  apply app_inv_head in H. apply app_inv_head in H. apply app_inv_tail in H.
  now apply fmt04d_inj.
Qed.

Lemma timeline_fold_silences (temp_dir : str) (l : list AudioMatch) :
  forall (i : nat) (segs : list segment) (cur : float),
  exists S,
    silences (fst (fold_left (timeline_step temp_dir)
                             (combine (List.seq i (List.length l)) l) (segs, cur)))
    = (silences segs ++ S)%list
    /\ Forall (fun dp =>
                 fgtb (fst dp) epsilon = true
                 /\ exists j, (i <= j < i + List.length l)%nat
                              /\ snd dp = join temp_dir
                                            (py "silence_" ++ fmt04d j
                                             ++ py "_before.wav")) S
    /\ NoDup (map snd S)
    /\ (List.length S <= List.length l)%nat.
Proof.
  induction l as [|m l IH]; intros i segs cur.
  - exists []. cbn. rewrite app_nil_r. repeat split; constructor.
  - cbn [List.length List.seq combine fold_left].
    unfold timeline_step at 2.
    set (gap := fsub (start_time (subtitle m)) cur).
    set (path := join temp_dir (py "silence_" ++ fmt04d i ++ py "_before.wav")).
    match goal with
    | |- context [fold_left _ _ (?s, ?c)] =>
        destruct (IH (S i) s c) as (S' & E & HF & HN & HL)
    end.
    assert (Hshift : Forall (fun dp =>
                 fgtb (fst dp) epsilon = true
                 /\ exists j, (i <= j < i + S (List.length l))%nat
                              /\ snd dp = join temp_dir
                                            (py "silence_" ++ fmt04d j
                                             ++ py "_before.wav")) S').
    { eapply Forall_impl; [|exact HF].
      intros dp (Hd & j & Hj & Hp). split; [exact Hd|]. exists j. split; [lia|exact Hp]. }
    destruct (fgtb gap epsilon) eqn:Eg.
    + exists ((gap, path) :: S'). rewrite E. split.
      { destruct (processed_path m) as [[|c p]|];
          rewrite ?silences_app; cbn [silences app];
          rewrite <- ?app_assoc, ?app_nil_r; reflexivity. }
      split.
      { constructor; [|exact Hshift]. cbn [fst snd]. split; [exact Eg|].
        exists i. split; [lia | reflexivity]. }
      split; [|cbn [List.length]; lia].
      cbn [map snd]. constructor; [|exact HN].
      intros Hin. apply in_map_iff in Hin as (dp & Hdp & Hin).
      rewrite Forall_forall in HF. destruct (HF dp Hin) as (_ & j & Hj & Hp).
      rewrite Hp in Hdp. apply silence_path_inj in Hdp. lia.
    + exists S'. rewrite E. split.
      { destruct (processed_path m) as [[|c p]|];
          rewrite ?silences_app; cbn [silences app];
          rewrite ?app_nil_r; reflexivity. }
      split; [exact Hshift|]. split; [exact HN | lia].
Qed.

(** X15.  Every silence the assembler asks for lasts more than 0.01 s (so
    never zero or negative, also when cues overlap), there is at most one
    per match, and no two silences are written to the same file. *)
Theorem create_timeline_silences (matches : list AudioMatch) (temp_dir : str) :
  let segs := fst (create_timeline matches temp_dir) in
  Forall (fun dp => fgtb (fst dp) epsilon = true) (silences segs)
  /\ NoDup (map snd (silences segs))
  /\ (List.length (silences segs) <= List.length matches)%nat.
Proof.
  cbv zeta. unfold create_timeline, timeline_segments, enumerate. cbn [fst].
  destruct (timeline_fold_silences temp_dir (sort_by start_key fltb matches)
              0%nat [] zero) as (S & E & HF & HN & HL).
  rewrite E. cbn [silences app].
  split; [|split; [exact HN|]].
  - eapply Forall_impl; [|exact HF]. now intros dp [H _].
  - rewrite <- (Permutation_length (sort_by_perm start_key fltb matches)) in HL.
    exact HL.
Qed.

(** ** The sign of a rounded quotient *)

Lemma shr_nonneg (mrs : shr_record) (e n : Z) :
  0 <= shr_m mrs -> 0 <= shr_m (fst (shr mrs e n)).
Proof.
  intros H. destruct (Z.le_gt_cases 0 n) as [Hn | Hn].
  - destruct (shr_spec mrs e n H Hn) as [E _]. rewrite E.
    apply Z.div_pos; [exact H | now apply pow2_pos].
  - destruct n; try lia. exact H.
Qed.

Lemma binary_round_aux_sign (s : bool) (m e : Z) (l : location) :
  0 <= m ->
  is_nan (binary_round_aux prec emax s m e l) = false
  /\ sign_of (binary_round_aux prec emax s m e l) = s.
Proof.
  intros Hm. unfold binary_round_aux, shr_fexp.
  set (n1 := SpecFloat.fexp prec emax (Zdigits2 m + e) - e).
  pose proof (shr_nonneg (shr_record_of_loc m l) e n1) as H1.
  rewrite shr_m_of_loc in H1. specialize (H1 Hm).
  destruct (shr (shr_record_of_loc m l) e n1) as [mrs1 e1]. cbn [fst] in H1.
  set (m2 := round_nearest_even (shr_m mrs1) (loc_of_shr_record mrs1)).
  assert (H2 : 0 <= m2).
  { pose proof (round_nearest_even_bounds (shr_m mrs1) (loc_of_shr_record mrs1)).
    unfold m2. lia. }
  set (n2 := SpecFloat.fexp prec emax (Zdigits2 m2 + e1) - e1).
  pose proof (shr_nonneg (shr_record_of_loc m2 loc_Exact) e1 n2) as H3.
  rewrite shr_m_of_loc in H3. specialize (H3 H2).
  destruct (shr (shr_record_of_loc m2 loc_Exact) e1 n2) as [mrs2 e2].
  cbn [fst] in H3.
  destruct (shr_m mrs2) as [|p|p]; [split; reflexivity | | lia].
  destruct (e2 <=? emax - prec); split; reflexivity.
Qed.

Lemma fdiv_finite_sign (sx : bool) (mx : positive) (ex : Z)
    (sy : bool) (my : positive) (ey : Z) :
  is_nan (fdiv (S754_finite sx mx ex) (S754_finite sy my ey)) = false
  /\ sign_of (fdiv (S754_finite sx mx ex) (S754_finite sy my ey)) = xorb sx sy.
Proof.
  unfold fdiv, SFdiv, SFdiv_core_binary. cbv zeta.
  rewrite div_eucl_eq. apply binary_round_aux_sign.
  apply Z.div_pos; [|lia].
  match goal with |- 0 <= match ?s with _ => _ end => destruct s end;
    try lia.
  apply Z.shiftl_nonneg. lia.
Qed.

(** ** The [atempo] loops on a factor that is not positive *)

Lemma nonpositive_cases (x : float) :
  nonpositive x ->
  (exists s, x = S754_zero s) \/ x = S754_infinity true
  \/ exists m e, x = S754_finite true m e.
Proof.
  unfold nonpositive, fleb, SFleb. rewrite zero_eq.
  destruct x as [s|[|]| |[|] m e]; cbn; intros H; try discriminate H.
  - left. now exists s.
  - right. now left.
  - right. right. now exists m, e.
Qed.

Lemma signed_nonpositive (x : float) :
  is_nan x = false -> sign_of x = true -> nonpositive x.
Proof.
  unfold nonpositive, fleb, SFleb. rewrite zero_eq.
  destruct x as [s|s| |s m e]; cbn; intros H1 H2; subst; try discriminate;
    reflexivity.
Qed.

Lemma nonpositive_zero (s : bool) : nonpositive (S754_zero s).
Proof. unfold nonpositive, fleb, SFleb. rewrite zero_eq. reflexivity. Qed.

Lemma nonpositive_below_half (x : float) : nonpositive x -> fltb x half = true.
Proof.
  intros H. rewrite half_eq.
  destruct (nonpositive_cases x H) as [(s & ->) | [-> | (m & e & ->)]];
    reflexivity.
Qed.

Lemma nonpositive_not_above_two (x : float) : nonpositive x -> fgtb x two = false.
Proof.
  intros H. unfold fgtb. rewrite two_eq.
  destruct (nonpositive_cases x H) as [(s & ->) | [-> | (m & e & ->)]];
    reflexivity.
Qed.

Lemma nonpositive_doubled (x : float) : nonpositive x -> nonpositive (fdiv x half).
Proof.
  intros H.
  destruct (nonpositive_cases x H) as [(s & ->) | [-> | (m & e & ->)]];
    rewrite half_eq.
  - apply nonpositive_zero.
  - apply signed_nonpositive; reflexivity.
  - destruct (fdiv_finite_sign true m e false 4503599627370496 (-53)) as [Hn Hs].
    now apply signed_nonpositive.
Qed.

Lemma slow_down_nonpositive (fuel : nat) :
  forall (x : float) (filters : list str),
    nonpositive x -> slow_down fuel x filters = None.
Proof.
  induction fuel as [|n IH]; intros x filters H; cbn [slow_down];
    rewrite (nonpositive_below_half x H); [reflexivity|].
  apply IH. now apply nonpositive_doubled.
Qed.

Lemma atempo_filters_never (fuel : nat) (x : float) :
  nonpositive x -> atempo_filters fuel x = None.
Proof.
  intros H. unfold atempo_filters.
  rewrite speed_up_stop by now apply nonpositive_not_above_two.
  now rewrite slow_down_nonpositive.
Qed.

(** X12.  For a speed factor that is zero, negative or minus infinity, the
    second [atempo] loop of [process_audio_speed] is still running after
    any number of iterations: dividing by 0.5 keeps the factor below 0.5,
    so no filter chain and no command is ever produced for a match that
    needs a speed-up with such a factor. *)
Theorem process_audio_speed_nonpositive (m : AudioMatch) :
  needs_speedup m = true -> fleb (speed_factor m) zero = true ->
  forall (fuel : nat) (output_dir ffmpeg_path : str),
    atempo_filters fuel (speed_factor m) = None
    /\ process_audio_speed fuel m output_dir ffmpeg_path = None.
Proof.
  intros Hn Hs fuel output_dir ffmpeg_path.
  assert (E : atempo_filters fuel (speed_factor m) = None)
    by now apply atempo_filters_never.
  split; [exact E|].
  unfold process_audio_speed.
  destruct (splitext (basename (audio_path m))) as [name ext].
  now rewrite Hn, E.
Qed.

Lemma process_audio_speed_nonpositive_witness :
  atempo_filters 5000
    (speed_factor (mkAudioMatch inverted_cue (py "0001.wav") one true
                                (fdiv one (duration inverted_cue)) None))
  = None.
Proof.
  apply (process_audio_speed_nonpositive
           (mkAudioMatch inverted_cue (py "0001.wav") one true
                         (fdiv one (duration inverted_cue)) None)
           eq_refl); [vm_compute; reflexivity | exact [] | exact []].
Defined.

Lemma negative_cases (x : float) :
  fltb x zero = true ->
  x = S754_infinity true \/ exists m e, x = S754_finite true m e.
Proof.
  unfold fltb, SFltb. rewrite zero_eq.
  destruct x as [s|[|]| |[|] m e]; cbn; intros H; try discriminate H.
  - now left.
  - right. now exists m, e.
Qed.

Lemma nonnegative_finite_cases (d : float) :
  fleb zero d = true -> is_finite d = true ->
  (exists s, d = S754_zero s) \/ exists m e, d = S754_finite false m e.
Proof.
  unfold fleb, SFleb. rewrite zero_eq.
  destruct d as [s|s| |[|] m e]; cbn; intros H F; try discriminate.
  - left. now exists s.
  - right. now exists m, e.
Qed.

(** X19.  A cue whose end lies before its start (negative duration) and
    whose clip has any finite duration of zero or more is given a match
    that needs a speed-up, with a factor that is not positive; processing
    that match never gets past the second [atempo] loop. *)
Theorem inverted_cue_never_processed (sub : SubtitleLine) (path : str)
    (clip_duration : float) :
  fltb (duration sub) zero = true ->
  fleb zero clip_duration = true -> is_finite clip_duration = true ->
  exists m,
    make_match sub path clip_duration = Ok m
    /\ needs_speedup m = true
    /\ fleb (speed_factor m) zero = true
    /\ forall (fuel : nat) (output_dir ffmpeg_path : str),
         process_audio_speed fuel m output_dir ffmpeg_path = None.
Proof.
  intros Hd Hc Hf.
  assert (Hneeds : fgtb clip_duration (duration sub) = true).
  { unfold fgtb, fltb, SFltb.
    destruct (negative_cases _ Hd) as [-> | (m & e & ->)];
      destruct (nonnegative_finite_cases _ Hc Hf) as [(s & ->) | (mc & ec & ->)];
      reflexivity. }
  assert (Hz : is_zero (duration sub) = false).
  { destruct (negative_cases _ Hd) as [-> | (m & e & ->)]; reflexivity. }
  assert (Hq : nonpositive (fdiv clip_duration (duration sub))).
  { destruct (negative_cases _ Hd) as [-> | (m & e & ->)];
      destruct (nonnegative_finite_cases _ Hc Hf) as [(s & ->) | (mc & ec & ->)];
      try apply nonpositive_zero.
    destruct (fdiv_finite_sign false mc ec true m e) as [Hn Hs].
    now apply signed_nonpositive. }
  unfold make_match. rewrite Hneeds. unfold py_truediv. rewrite Hz.
  cbn [bind]. eexists. split; [reflexivity|].
  cbn [needs_speedup speed_factor].
  split; [reflexivity|]. split; [exact Hq|].
  intros fuel output_dir ffmpeg_path.
  unfold process_audio_speed. cbn [audio_path needs_speedup speed_factor negb].
  destruct (splitext (basename path)) as [name ext].
  now rewrite atempo_filters_never.
Qed.

Lemma inverted_cue_never_processed_witness :
  exists m,
    make_match inverted_cue (py "0001.wav") one = Ok m
    /\ needs_speedup m = true
    /\ fleb (speed_factor m) zero = true
    /\ forall (fuel : nat) (output_dir ffmpeg_path : str),
         process_audio_speed fuel m output_dir ffmpeg_path = None.
Proof.
  apply (inverted_cue_never_processed inverted_cue (py "0001.wav") one);
    vm_compute; reflexivity.
Defined.

(** ** The processing loop feeds the assembler *)

Lemma atempo_filters_some (fuel : nat) (x : float) :
  valid_binary prec emax x = true -> is_finite x = true ->
  fgtb x one = true -> (1100 <= fuel)%nat ->
  exists filters, atempo_filters fuel x = Some filters.
Proof.
  intros V F H1 Hfuel.
  destruct (speed_shape x V H1 F) as (m & e & -> & Hd & He).
  destruct (speed_up_spec fuel m e [] Hd ltac:(lia) H1 ltac:(lia))
    as (k & Hup & Hr1 & Hr2).
  assert (Hhalf : fltb (S754_finite false m (e - Z.of_nat k)) half = false).
  { destruct (fltb (S754_finite false m (e - Z.of_nat k)) half) eqn:E;
      [|reflexivity].
    apply fltb_half_iff in E. apply fgtb_one_iff in Hr1. lia. }
  unfold atempo_filters. rewrite Hup.
  rewrite slow_down_stop by exact Hhalf. eexists. reflexivity.
Qed.

Lemma join_nonempty (a b : str) : b <> [] -> join a b <> [].
Proof.
  intros Hb. unfold join.
  destruct (startswith b (py "/")); [exact Hb|].
  destruct ((match a with [] => true | _ => false end) || endswith_sep a);
    intros E; apply app_eq_nil in E as [_ E];
    [contradiction | discriminate E || (now apply Hb)].
Qed.

Lemma process_audio_speed_result (fuel : nat) (m m' : AudioMatch)
    (output_dir ffmpeg_path : str) (cmd : list str) :
  process_audio_speed fuel m output_dir ffmpeg_path = Some (cmd, m') ->
  m' = set_processed_path m
         (join output_dir
               (fst (splitext (basename (audio_path m))) ++ py "_processed.wav"))
  /\ processed m'
  /\ last cmd [] = join output_dir
                     (fst (splitext (basename (audio_path m)))
                      ++ py "_processed.wav").
Proof.
  unfold process_audio_speed.
  destruct (splitext (basename (audio_path m))) as [name ext]. cbn [fst].
  set (out := join output_dir (name ++ py "_processed.wav")).
  assert (Hout : exists c p, out = c :: p).
  { destruct out as [|c p] eqn:E; [|now exists c, p].
    exfalso. revert E. apply join_nonempty. now destruct name. }
  intros H.
  assert (Hm : m' = set_processed_path m out /\ last cmd [] = out).
  { destruct (needs_speedup m); cbn [negb] in H.
    - destruct (atempo_filters fuel (speed_factor m)); [|discriminate H].
      injection H as <- <-. split; reflexivity.
    - injection H as <- <-. split; reflexivity. }
  destruct Hm as [-> Hl]. split; [reflexivity|]. split; [|exact Hl].
  destruct Hout as (c & p & E). exists c, p. cbn [set_processed_path processed_path].
  now rewrite E.
Qed.

(** X13.  When every match either needs no speed-up or has a valid finite
    factor above 1.0, the processing loop ends (1100 iterations of each
    [atempo] loop suffice), keeps the cues and their order, and leaves
    every match with a non-empty processed path; the assembler then emits
    exactly one clip per match: the segment list is the walk over the
    matches sorted by start time. *)
Theorem process_all_feeds_timeline (fuel : nat) (matches : list AudioMatch)
    (temp_dir ffmpeg_path : str) :
  (1100 <= fuel)%nat ->
  Forall (fun m => needs_speedup m = false
                   \/ (valid_binary prec emax (speed_factor m) = true
                       /\ is_finite (speed_factor m) = true
                       /\ fgtb (speed_factor m) one = true)) matches ->
  exists done,
    process_all fuel matches temp_dir ffmpeg_path = Some done
    /\ map subtitle done = map subtitle matches
    /\ map audio_path done = map audio_path matches
    /\ Forall processed done
    /\ map abstract (fst (create_timeline done temp_dir))
       = assemble_spec zero (sort_by start_key fltb done)
    /\ List.length (clips (fst (create_timeline done temp_dir)))
       = List.length matches.
Proof.
  intros Hfuel Hready.
  assert (H : exists done,
             process_all fuel matches temp_dir ffmpeg_path = Some done
             /\ map subtitle done = map subtitle matches
             /\ map audio_path done = map audio_path matches
             /\ Forall processed done).
  { induction Hready as [|m l Hm Hl (done & E & Hsub & Hpath & Hp)].
    - exists []. repeat split; constructor.
    - assert (Hone : exists cmd m',
                 process_audio_speed fuel m temp_dir ffmpeg_path = Some (cmd, m')).
      { unfold process_audio_speed.
        destruct (splitext (basename (audio_path m))) as [name ext].
        destruct Hm as [-> | (V & F & G)]; [cbn [negb]; eauto|].
        destruct (atempo_filters_some fuel _ V F G Hfuel) as (fs & ->).
        destruct (needs_speedup m); cbn [negb]; eauto. }
      destruct Hone as (cmd & m' & E1).
      destruct (process_audio_speed_result _ _ _ _ _ _ E1) as (Em & Hpm & _).
      exists (m' :: done). cbn [process_all]. rewrite E1, E.
      split; [reflexivity|].
      rewrite Em at 1 2. cbn [map set_processed_path subtitle audio_path].
      rewrite Hsub, Hpath.
      split; [reflexivity|]. split; [reflexivity|]. now constructor. }
  destruct H as (done & E & Hsub & Hpath & Hp).
  exists done. split; [exact E|]. split; [exact Hsub|]. split; [exact Hpath|].
  split; [exact Hp|].
  assert (Hsorted : Forall processed (sort_by start_key fltb done)).
  { eapply Permutation_Forall; [apply sort_by_perm | exact Hp]. }
  split.
  - unfold create_timeline, timeline_segments, enumerate. cbn [fst].
    now rewrite timeline_fold.
  - unfold create_timeline, timeline_segments, enumerate. cbn [fst].
    rewrite timeline_fold_clips. cbn [clips app].
    rewrite <- (length_map subtitle matches), <- Hsub, length_map.
    rewrite (Permutation_length (sort_by_perm start_key fltb done)).
    clear - Hsorted. induction Hsorted as [|m l (c & p & Hm) Hl IH]; [reflexivity|].
    cbn [flat_map]. unfold clip_paths at 1. rewrite Hm.
    cbn [app List.length]. now rewrite IH.
Qed.

Lemma process_all_feeds_timeline_witness :
  exists done,
    process_all 1100
      [mkAudioMatch (example_cue 2 (of_Z 2) (of_Z 3)) (py "/clips/0002.mp3")
                    (of_Z 3) true (of_Z 3) None;
       mkAudioMatch (example_cue 1 zero one) (py "/clips/0001.wav")
                    one false one None]
      (py "/tmp/srt_sync_0") (py "ffmpeg") = Some done
    /\ map processed_path done
       = [Some (py "/tmp/srt_sync_0/0002_processed.wav");
          Some (py "/tmp/srt_sync_0/0001_processed.wav")]
    /\ Forall processed done.
Proof.
  destruct (process_all_feeds_timeline 1100
      [mkAudioMatch (example_cue 2 (of_Z 2) (of_Z 3)) (py "/clips/0002.mp3")
                    (of_Z 3) true (of_Z 3) None;
       mkAudioMatch (example_cue 1 zero one) (py "/clips/0001.wav")
                    one false one None]
      (py "/tmp/srt_sync_0") (py "ffmpeg")) as (done & E & _ & _ & Hp & _).
  - lia.
  - constructor; [right; repeat split; vm_compute; reflexivity|].
    constructor; [left; reflexivity | constructor].
  - exists done. split; [exact E|]. split; [|exact Hp].
    vm_compute in E. injection E as <-. vm_compute. reflexivity.
Defined.

(** ** TimeCodec: what is rejected, and the range of the results *)

Lemma spaces_then_other (ws : str) :
  forall (ws' : str) (x x' : ascii) (u u' : str),
    forallb isspace ws = true -> forallb isspace ws' = true ->
    isspace x = false -> isspace x' = false ->
    (ws ++ x :: u)%list = (ws' ++ x' :: u')%list ->
    ws = ws' /\ x :: u = x' :: u'.
Proof.
  induction ws as [|a ws IH]; intros [|b ws'] x x' u u' H H' Hx Hx' E;
    cbn [app forallb] in *.
  - auto.
  - exfalso. injection E as -> _. apply andb_true_iff in H' as [H' _]. congruence.
  - exfalso. injection E as -> _. apply andb_true_iff in H as [H _]. congruence.
  - injection E as -> E.
    apply andb_true_iff in H as [_ H]. apply andb_true_iff in H' as [_ H'].
    destruct (IH ws' x x' u u' H H' Hx Hx' E) as [-> E']. auto.
Qed.

Lemma digits_prefix_length (h : str) :
  forall (h' : str) (x' : ascii) (rest rest' : str),
    forallb isdigit h = true -> isdigit x' = false ->
    (h ++ rest)%list = (h' ++ x' :: rest')%list ->
    (List.length h <= List.length h')%nat.
Proof.
  induction h as [|a h IH]; intros [|b h'] x' rest rest' H Hx E;
    cbn [app forallb List.length] in *; try lia.
  - exfalso. injection E as -> _. apply andb_true_iff in H as [H _]. congruence.
  - injection E as _ E. apply andb_true_iff in H as [_ H].
    specialize (IH h' x' rest rest' H Hx E). lia.
Qed.

(** X3.  A text whose first digit run (after leading whitespace) has three
    or more digits is rejected with ValueError, whatever follows: the hour
    field takes at most two digits, so a time of 100 hours or more cannot
    be written. *)
Theorem parse_srt_time_long_hours (ws h rest : str) :
  forallb isspace ws = true -> forallb isdigit h = true ->
  (3 <= List.length h)%nat ->
  parse_srt_time (ws ++ h ++ rest) = Raise ValueError.
Proof.
  intros Hws Hh Hlen.
  destruct (parse_ok_or_value_error (ws ++ h ++ rest)) as [(v & E) | E];
    [exfalso | exact E].
  apply parse_ok_matches_plain in E
    as (ws' & h' & m' & s' & rest' & Hws' & (Hh' & Hl' & _) & E).
  destruct h as [|a h]; [cbn in Hlen; lia|].
  destruct h' as [|b h']; [cbn in Hl'; lia|].
  cbn [forallb] in Hh, Hh'.
  apply andb_true_iff in Hh as [Ha Hh]. apply andb_true_iff in Hh' as [Hb Hh'].
  unfold plain_text in E. cbn [app] in E.
  apply spaces_then_other in E as [_ E];
    try assumption; try now apply digit_not_space.
  injection E as _ E. rewrite <- app_assoc in E. cbn [app] in E.
  apply digits_prefix_length in E; [|assumption|reflexivity].
  cbn [List.length] in Hlen, Hl'. lia.
Qed.

Lemma parse_srt_time_long_hours_witness :
  parse_srt_time (py " " ++ py "100" ++ py ":00:00,000") = Raise ValueError.
Proof.
  apply (parse_srt_time_long_hours (py " ") (py "100") (py ":00:00,000"));
    [reflexivity | reflexivity | cbn; lia].
Defined.

Lemma seconds_of_range (h m s : str) :
  hms h m s -> 0 <= seconds_of h m s <= 362439.
Proof.
  intros (Hh & Hlh & Hm & Hlm & Hs & Hls).
  destruct m as [|m1 [|m2 [|]]]; try discriminate Hlm.
  destruct s as [|s1 [|s2 [|]]]; try discriminate Hls.
  destruct h as [|a [|b [|]]]; cbn in Hlh; try lia;
    cbn [forallb] in *; rewrite ?andb_true_r in *;
    repeat match goal with H : _ && _ = true |- _ =>
             apply andb_true_iff in H as [? ?] end;
    repeat match goal with H : isdigit _ = true |- _ =>
             apply digit_val_bounds in H end;
    unfold seconds_of, int_of_digits; cbn [fold_left]; lia.
Qed.

Lemma fadd_nonnegative (x y : float) :
  (x = S754_zero false
   \/ exists m e, x = S754_finite false m e
                  /\ Zpos (digits2_pos m) = 53 /\ -52 <= e <= -23) ->
  time_like y ->
  is_finite (fadd x y) = true /\ sign_of (fadd x y) = false.
Proof.
  intros [-> | (mx & ex & -> & Hdx & Hex)] [-> | (my & ey & -> & Hdy & Hey)];
    cbn [fadd SFadd]; try (split; reflexivity).
  unfold fadd, SFadd. cbn [cond_Zopp].
  set (ez := Z.min ex ey).
  rewrite !shl_align_fst by (unfold ez; lia).
  pose proof (digits2_pos_bounds mx) as [Xlo Xhi]. rewrite Hdx in Xlo, Xhi.
  pose proof (digits2_pos_bounds my) as [Ylo Yhi]. rewrite Hdy in Ylo, Yhi.
  assert (Hpx : 0 < 2 ^ (ex - ez)) by (apply Z.pow_pos_nonneg; unfold ez; lia).
  assert (Hpy : 0 < 2 ^ (ey - ez)) by (apply Z.pow_pos_nonneg; unfold ez; lia).
  assert (Hbx : 2 ^ (ex - ez) <= 2 ^ 40) by (apply Z.pow_le_mono_r; unfold ez; lia).
  assert (Hby : 2 ^ (ey - ez) <= 2 ^ 40) by (apply Z.pow_le_mono_r; unfold ez; lia).
  set (M := Zpos mx * 2 ^ (ex - ez) + Zpos my * 2 ^ (ey - ez)).
  assert (HM : 0 < M < 2 ^ 94).
  { unfold M. change (2 ^ 94) with (2 ^ 53 * 2 ^ 40 + 2 ^ 53 * 2 ^ 40).
    split; [nia|].
    apply Z.add_lt_mono.
    - apply Z.lt_le_trans with (2 ^ 53 * 2 ^ (ex - ez));
        [apply Z.mul_lt_mono_pos_r; lia | apply Z.mul_le_mono_nonneg_l; lia].
    - apply Z.lt_le_trans with (2 ^ 53 * 2 ^ (ey - ez));
        [apply Z.mul_lt_mono_pos_r; lia | apply Z.mul_le_mono_nonneg_l; lia]. }
  destruct M as [|pM|pM] eqn:EM; try lia.
  cbn [binary_normalize].
  pose proof (digits2_pos_bounds pM) as [Mlo Mhi].
  pose proof (Pos2Z.is_pos (digits2_pos pM)) as HdM.
  assert (HdM94 : Zpos (digits2_pos pM) <= 94).
  { destruct (Z.le_gt_cases (Zpos (digits2_pos pM)) 94) as [|Hgt]; [assumption|].
    exfalso.
    assert (2 ^ 94 <= 2 ^ (Zpos (digits2_pos pM) - 1))
      by (apply Z.pow_le_mono_r; lia).
    lia. }
  destruct (binary_round_normal false pM ez) as [(m & e & -> & _) | (_ & H)];
    unfold ez in *; [lia | split; reflexivity | lia].
Qed.

Lemma time_value_nonnegative (h m s ms : str) :
  hms h m s -> millis ms ->
  is_finite (time_value h m s ms) = true /\ sign_of (time_value h m s ms) = false.
Proof.
  intros H Hms. unfold time_value.
  apply fadd_nonnegative.
  - apply of_Z_small. now apply seconds_of_bounds.
  - apply millis_quotient. now apply millis_bounds.
Qed.

(** The two ways [parse_srt_time] succeeds. *)
Lemma parse_srt_time_ok (t : str) (v : pynum) :
  parse_srt_time t = Ok v ->
  (exists h m s ms, hms h m s /\ millis ms /\ v = PyFloat (time_value h m s ms))
  \/ (exists h m s, hms h m s /\ v = PyInt (seconds_of h m s)).
Proof.
  rewrite parse_srt_time_unfold.
  destruct (re_match time_frac (normalized t)) as [[s2 c2]|] eqn:E1.
  - intros Hv. left.
    pose proof E1 as E. apply re_match_sound, time_frac_inv in E
      as (h & m & s & ms & H & Hms & E).
    rewrite E, re_match_frac in E1 by assumption.
    injection E1 as <-. cbn [group Nat.eqb] in Hv. injection Hv as <-.
    now exists h, m, s, ms.
  - destruct (re_match time_plain (normalized t)) as [[s2 c2]|] eqn:E2;
      [|discriminate].
    intros Hv. right.
    pose proof E2 as E. apply re_match_sound, time_plain_inv in E
      as (h & m & s & H & E).
    rewrite E, re_match_plain in E2 by assumption.
    injection E2 as <-. cbn [group Nat.eqb] in Hv. injection Hv as <-.
    now exists h, m, s.
Qed.

(** X4.  Whatever the input, a successful [parse_srt_time] returns either
    an int between 0 and 362439 (99:99:99) or a float that is finite and
    not negative: never a negative number, an infinity or a NaN. *)
Theorem parse_srt_time_range (time_str : str) (v : pynum) :
  parse_srt_time time_str = Ok v ->
  match v with
  | PyInt n => 0 <= n <= 362439
  | PyFloat f => is_finite f = true /\ sign_of f = false
  end.
Proof.
  intros H.
  destruct (parse_srt_time_ok _ _ H)
    as [(h & m & s & ms & Hh & Hms & ->) | (h & m & s & Hh & ->)].
  - now apply time_value_nonnegative.
  - now apply seconds_of_range.
Qed.

Lemma parse_srt_time_range_witness : 0 <= 359999 <= 362439.
Proof.
  exact (parse_srt_time_range (py "99:59:59") (PyInt 359999) eq_refl).
Defined.

(** ** CueTrackParser: cues with the same index *)

Section Stable.
Context {A K : Type}.
Variable key : A -> K.
Variable lt : K -> K -> bool.
Variable p : A -> bool.
Hypothesis lt_p :
  forall a b, p a = true -> p b = true -> lt (key a) (key b) = false.

Lemma filter_insert_by (x : A) (l : list A) :
  filter p (insert_by key lt x l) = filter p (x :: l).
Proof.
  induction l as [|y l IH]; [reflexivity|].
  cbn [insert_by]. destruct (lt (key y) (key x)) eqn:E; [|reflexivity].
  cbn [filter] in *. rewrite IH.
  destruct (p y) eqn:Py, (p x) eqn:Px; try reflexivity.
  rewrite (lt_p y x Py Px) in E. discriminate E.
Qed.

Lemma filter_sort_by (l : list A) :
  filter p (sort_by key lt l) = filter p l.
Proof.
  induction l as [|x l IH]; [reflexivity|].
  cbn [sort_by fold_right]. fold (sort_by key lt l).
  rewrite filter_insert_by. cbn [filter]. now rewrite IH.
Qed.
End Stable.

Lemma cues_of_matches_length (ms : list captures) :
  forall cs, cues_of_matches ms = Ok cs -> List.length cs = List.length ms.
Proof.
  induction ms as [|m ms IH]; intros cs H; cbn [cues_of_matches] in H.
  - injection H as <-. reflexivity.
  - destruct (cue_of_match m) as [c|e]; [|discriminate H].
    cbn [bind] in H.
    destruct (cues_of_matches ms) as [cs'|e]; [|discriminate H].
    cbn [bind] in H. injection H as <-. cbn [List.length]. now rewrite (IH cs').
Qed.

Lemma findall_cues (content : str) :
  exists file_order, cues_of_matches (findall block content) = Ok file_order.
Proof.
  destruct (cues_of_matches_ok (findall block content)) as (cs & E & _).
  - apply Forall_forall. intros caps. apply findall_block_captures.
  - now exists cs.
Qed.

(** X5.  The parser keeps every block the pattern finds, also blocks that
    repeat an index: the result is a permutation of the cues in file order,
    as long as the list of block matches, and the cues that share an index
    stay in file order. *)
Theorem parse_srt_file_keeps_duplicates (content : str) :
  exists file_order cues,
    cues_of_matches (findall block content) = Ok file_order
    /\ parse_srt_file content = Ok cues
    /\ Permutation file_order cues
    /\ List.length cues = List.length (findall block content)
    /\ forall k, filter (fun c => index c =? k) cues
                 = filter (fun c => index c =? k) file_order.
Proof.
  destruct (findall_cues content) as (file_order & E).
  exists file_order, (sort_by index Z.ltb file_order).
  split; [exact E|]. split; [unfold parse_srt_file; now rewrite E|].
  split; [apply sort_by_perm|]. split.
  - rewrite <- (Permutation_length (sort_by_perm index Z.ltb file_order)).
    now apply cues_of_matches_length.
  - intros k. apply filter_sort_by.
    intros a b Ha Hb. apply Z.eqb_eq in Ha, Hb. apply Z.ltb_ge. lia.
Qed.

(** ** CueTrackParser: the fields of a cue *)

Lemma fold_digits_nonneg (w : str) :
  forallb isdigit w = true ->
  forall acc, 0 <= acc ->
    0 <= fold_left (fun a c => 10 * a + digit_val c) w acc.
Proof.
  induction w as [|c w IH]; intros H acc Hacc; [exact Hacc|].
  cbn [forallb] in H. apply andb_true_iff in H as [Hc Hw].
  cbn [fold_left]. apply IH; [exact Hw|].
  apply digit_val_bounds in Hc. lia.
Qed.

Lemma int_of_digits_nonneg (w : str) :
  forallb isdigit w = true -> 0 <= int_of_digits w.
Proof. intros H. unfold int_of_digits. apply fold_digits_nonneg; [exact H | lia]. Qed.

Lemma lstrip_head (s : str) :
  lstrip s = [] \/ exists x u, lstrip s = x :: u /\ isspace x = false.
Proof.
  induction s as [|c s IH]; [now left|].
  cbn [lstrip]. destruct (isspace c) eqn:E; [exact IH|].
  right. now exists c, s.
Qed.

Lemma lstrip_fixed (s : str) :
  match s with
  | x :: _ => isspace x = false
  | [] => True
  end -> lstrip s = s.
Proof. destruct s as [|x s]; [reflexivity|]. cbn [lstrip]. now intros ->. Qed.

Lemma lstrip_idem (s : str) : lstrip (lstrip s) = lstrip s.
Proof.
  apply lstrip_fixed.
  destruct (lstrip_head s) as [-> | (x & u & -> & H)]; [exact I | exact H].
Qed.

Lemma rstrip_idem (s : str) : rstrip (rstrip s) = rstrip s.
Proof. unfold rstrip. now rewrite rev_involutive, lstrip_idem. Qed.

Lemma rstrip_head (x : ascii) (u : str) :
  isspace x = false -> exists u', rstrip (x :: u) = x :: u'.
Proof.
  intros H. exists (rstrip u).
  exact (rstrip_keep [] x u H).
Qed.

Lemma strip_idem (s : str) : strip (strip s) = strip s.
Proof.
  unfold strip.
  assert (E : lstrip (rstrip (lstrip s)) = rstrip (lstrip s)).
  { apply lstrip_fixed.
    destruct (lstrip_head s) as [-> | (x & u & -> & H)]; [exact I|].
    destruct (rstrip_head x u H) as (u' & ->). exact H. }
  rewrite E. apply rstrip_idem.
Qed.

Lemma blank_line_split (w : str) :
  blank_line w = true -> exists w1 w3, w = (w1 ++ nl :: nl :: w3)%list.
Proof.
  induction w as [|a w IH]; [discriminate|].
  cbn [blank_line]. destruct w as [|b w]; [discriminate|].
  intros H. apply orb_true_iff in H as [H | H].
  - apply andb_true_iff in H as [Ha Hb].
    apply Ascii.eqb_eq in Ha, Hb. subst. now exists [], w.
  - destruct (IH H) as (w1 & w3 & E). exists (a :: w1), w3.
    cbn [app]. now rewrite <- E.
Qed.

Lemma blank_line_cons (a : ascii) (w : str) :
  blank_line (a :: w) = false -> blank_line w = false.
Proof.
  cbn [blank_line]. destruct w as [|b w]; [reflexivity|].
  intros H. now apply orb_false_iff in H as [_ H].
Qed.

Lemma blank_line_suffix (a b : str) :
  blank_line (a ++ b) = false -> blank_line b = false.
Proof.
  induction a as [|x a IH]; [auto|].
  cbn [app]. intros H. apply IH. now apply blank_line_cons in H.
Qed.

Lemma blank_line_prefix (a : str) :
  forall b, blank_line (a ++ b) = false -> blank_line a = false.
Proof.
  induction a as [|x a IH]; intros b H; [reflexivity|].
  cbn [app] in H. pose proof (blank_line_cons _ _ H) as H'.
  apply IH in H'. cbn [blank_line] in *.
  destruct a as [|y a]; [reflexivity|].
  cbn [app] in H. apply orb_false_iff in H as [H _].
  now rewrite H, H'.
Qed.

Lemma blank_line_strip (w : str) :
  blank_line w = false -> blank_line (strip w) = false.
Proof.
  intros H. destruct (strip_decompose w) as (ws & ws' & _ & E).
  rewrite E in H. apply blank_line_suffix in H. now apply blank_line_prefix in H.
Qed.

(** The lazy quantifier stops at the first position where the rest of the
    pattern matches. *)
Lemma rep_lazy_first (p : ascii -> bool) (k : str -> answer)
    (res : str * captures) (s : str) :
  rep false p s 0 None k = Some res ->
  exists w s',
    s = (w ++ s')%list /\ k s' = Some res
    /\ forall w1 w2, w = (w1 ++ w2)%list -> w2 <> [] -> k (w2 ++ s') = None.
Proof.
  induction s as [|c s IH]; rewrite rep_unfold; cbv zeta; cbn [Nat.eqb];
    destruct (k _) as [r|] eqn:Ek; cbn [orelse]; intros H.
  - injection H as <-. exists [], []. split; [reflexivity|]. split; [exact Ek|].
    intros w1 w2 E. apply eq_sym, app_eq_nil in E as [_ ->]. congruence.
  - discriminate H.
  - injection H as <-. exists [], (c :: s). split; [reflexivity|].
    split; [exact Ek|].
    intros w1 w2 E. apply eq_sym, app_eq_nil in E as [_ ->]. congruence.
  - cbn [more andb Nat.pred option_map] in H. rewrite andb_true_r in H.
    destruct (p c); [|discriminate H].
    destruct (IH H) as (w & s' & -> & Hk & Hmin).
    exists (c :: w), s'. split; [reflexivity|]. split; [exact Hk|].
    intros [|x w1] w2 E Hne.
    + cbn [app] in E. subst w2. exact Ek.
    + cbn [app] in E. injection E as _ E. now apply (Hmin w1 w2).
Qed.

Lemma rmatch_sequence_tail (rs : list regex) (r1 r2 : regex) :
  forall (s : str) (c : captures) (k : str -> captures -> answer)
         (res : str * captures),
    rmatch (sequence (rs ++ [r1; r2])) s c k = Some res ->
    exists s1 c1, rmatch (Cat r1 r2) s1 c1 k = Some res.
Proof.
  induction rs as [|r rs IH]; intros s c k res H.
  - exists s, c. exact H.
  - assert (E : sequence ((r :: rs) ++ [r1; r2])
                = Cat r (sequence (rs ++ [r1; r2]))).
    { cbn [app]. destruct (rs ++ [r1; r2])%list eqn:E'; [now destruct rs|].
      reflexivity. }
    rewrite E, rmatch_cat in H.
    apply rmatch_sound in H as (s1 & c1 & _ & H). now apply IH in H.
Qed.

Lemma look_none (L : regex) (s : str) (c : captures) :
  rmatch (Look L) s c (fun s1 c1 => Some (s1, c1)) = None ->
  rmatch L s c (fun s1 c1 => Some (s1, c1)) = None.
Proof.
  cbn [rmatch]. destruct (rmatch L s c _) as [[s1 c1]|]; [discriminate | reflexivity].
Qed.

Lemma look_some (L : regex) (s : str) (c : captures) (rest : str)
    (caps : captures) :
  rmatch (Look L) s c (fun s1 c1 => Some (s1, c1)) = Some (rest, caps) ->
  exists sx, rmatch L s c (fun s1 c1 => Some (s1, c1)) = Some (sx, caps).
Proof.
  cbn [rmatch]. destruct (rmatch L s c _) as [[s1 c1]|]; [|discriminate].
  intros H. injection H as _ <-. now exists s1.
Qed.

Lemma lookahead_blank (B : regex) (x : str) (c : captures) :
  rmatch (Alt (Cat (Lit nl) (Lit nl)) B) (nl :: nl :: x) c
         (fun s1 c1 => Some (s1, c1)) <> None.
Proof.
  change (rmatch (Alt (Cat (Lit nl) (Lit nl)) B) (nl :: nl :: x) c
                 (fun s1 c1 => Some (s1, c1)))
    with (orelse (rmatch (Cat (Lit nl) (Lit nl)) (nl :: nl :: x) c
                         (fun s1 c1 => Some (s1, c1)))
                 (rmatch B (nl :: nl :: x) c (fun s1 c1 => Some (s1, c1)))).
  rewrite rmatch_cat, !rmatch_lit. discriminate.
Qed.

Lemma rmatch_grp_rep (i : nat) (g : bool) (lo : nat) (hi : option nat)
    (p : ascii -> bool) (s : str) (c : captures)
    (k : str -> captures -> answer) :
  rmatch (Grp i (Rep g lo hi p)) s c k
  = rep g p s lo hi (fun s1 => k s1 ((i, consumed s s1) :: c)).
Proof. reflexivity. Qed.

Lemma rmatch_look (r : regex) (s : str) (c : captures)
    (k : str -> captures -> answer) :
  rmatch (Look r) s c k
  = match rmatch r s c (fun s1 c1 => Some (s1, c1)) with
    | Some (_, c1) => k s c1
    | None => None
    end.
Proof. reflexivity. Qed.

(** The text of a block, as captured, up to a lookahead that accepts a
    blank line. *)
Lemma lazy_text_no_blank (B : regex) (s : str) (c : captures)
    (rest : str) (caps : captures) :
  group_free B = true ->
  rmatch (Cat (Grp 4 (Rep false 0 None any))
              (Look (Alt (Cat (Lit nl) (Lit nl)) B)))
         s c (fun s1 c1 => Some (s1, c1)) = Some (rest, caps) ->
  exists w, caps = (4%nat, w) :: c /\ blank_line w = false.
Proof.
  intros HB H.
  set (L := Alt (Cat (Lit nl) (Lit nl)) B) in *.
  assert (HL : group_free L = true) by exact HB.
  rewrite rmatch_cat, rmatch_grp_rep in H.
  apply rep_lazy_first in H as (w & s' & -> & Hk & Hmin).
  rewrite consumed_app in Hk.
  apply look_some in Hk as (sx & EL).
  apply rmatch_sound in EL as (s2 & c2 & HM & E2).
  injection E2 as _ <-.
  apply group_free_captures in HM; [|exact HL]. subst c2.
  exists w. split; [reflexivity|].
  destruct (blank_line w) eqn:Eb; [exfalso | reflexivity].
  apply blank_line_split in Eb as (w1 & w3 & ->).
  specialize (Hmin w1 (nl :: nl :: w3) eq_refl ltac:(discriminate)).
  apply look_none in Hmin. cbn [app] in Hmin.
  revert Hmin. apply lookahead_blank.
Qed.

Lemma block_text_no_blank (content : str) (caps : captures) :
  In caps (findall block content) -> blank_line (group 4 caps) = false.
Proof.
  intros Hin.
  apply findall_from_sound in Hin as (s & rest & H).
  unfold re_match in H.
  change block with
    (sequence ([Grp 1 (Rep true 1 None isdigit); spaces; Lit nl;
                Grp 2 stamp; spaces; Lit "-"; Lit "-"; Lit ">"; spaces;
                Grp 3 stamp; spaces; Lit nl]
               ++ [Grp 4 (Rep false 0 None any);
                   Look (Alt (Cat (Lit nl) (Lit nl))
                             (Cat (Rep true 0 None (Ascii.eqb nl)) Eos))])) in H.
  apply rmatch_sequence_tail in H as (s1 & c1 & H).
  apply lazy_text_no_blank in H as (w & -> & Hw); [|reflexivity].
  cbn [group Nat.eqb]. exact Hw.
Qed.

Lemma cue_of_match_fields (caps : captures) (c : SubtitleLine) :
  block_captures caps -> cue_of_match caps = Ok c ->
  0 <= index c
  /\ text c = strip (group 4 caps)
  /\ is_finite (start_time c) = true /\ sign_of (start_time c) = false
  /\ is_finite (end_time c) = true /\ sign_of (end_time c) = false.
Proof.
  intros (idx & h1 & m1 & s1 & sep1 & ms1 & h2 & m2 & s2 & sep2 & ms2 & txt
          & Hidx & Hl & H1 & Hsep1 & Hms1 & H2 & Hsep2 & Hms2 & ->).
  unfold cue_of_match. cbn [group Nat.eqb].
  rewrite (parse_frac_text h1 m1 s1 sep1 ms1 H1 Hsep1 Hms1).
  rewrite (parse_frac_text h2 m2 s2 sep2 ms2 H2 Hsep2 Hms2).
  cbn [bind py_sub to_float]. intros E. injection E as <-.
  cbn [index text start_time end_time].
  destruct (time_value_nonnegative h1 m1 s1 ms1 H1 Hms1) as [F1 S1].
  destruct (time_value_nonnegative h2 m2 s2 ms2 H2 Hms2) as [F2 S2].
  split; [now apply int_of_digits_nonneg|]. auto.
Qed.

Lemma cues_of_matches_In (ms : list captures) :
  forall cs c,
    cues_of_matches ms = Ok cs -> In c cs ->
    exists caps, In caps ms /\ cue_of_match caps = Ok c.
Proof.
  induction ms as [|m ms IH]; intros cs c H Hin; cbn [cues_of_matches] in H.
  - injection H as <-. contradiction.
  - destruct (cue_of_match m) as [c0|e] eqn:E0; [|discriminate H].
    cbn [bind] in H.
    destruct (cues_of_matches ms) as [cs'|e]; [|discriminate H].
    cbn [bind] in H. injection H as <-.
    destruct Hin as [<- | Hin].
    + exists m. split; [now left | exact E0].
    + destruct (IH cs' c eq_refl Hin) as (caps & Hc & Ec).
      exists caps. split; [now right | exact Ec].
Qed.

(** X6.  Every cue the parser returns has an index of zero or more, start
    and end times that are finite and not negative, and a text without
    leading or trailing whitespace and without an empty line inside: the
    text of a block ends at the first blank line. *)
Theorem parse_srt_file_cue_fields (content : str) (cues : list SubtitleLine) :
  parse_srt_file content = Ok cues ->
  Forall (fun c =>
            0 <= index c
            /\ strip (text c) = text c
            /\ blank_line (text c) = false
            /\ is_finite (start_time c) = true /\ sign_of (start_time c) = false
            /\ is_finite (end_time c) = true /\ sign_of (end_time c) = false)
         cues.
Proof.
  unfold parse_srt_file.
  destruct (cues_of_matches (findall block content)) as [cs|e] eqn:E;
    [|discriminate].
  cbn [bind]. intros H. injection H as <-.
  eapply Permutation_Forall; [apply sort_by_perm|].
  apply Forall_forall. intros c Hin.
  destruct (cues_of_matches_In _ _ _ E Hin) as (caps & Hcaps & Ec).
  destruct (cue_of_match_fields caps c (findall_block_captures _ _ Hcaps) Ec)
    as (Hi & Ht & Hrest).
  split; [exact Hi|]. rewrite Ht.
  split; [apply strip_idem|].
  split; [|exact Hrest].
  apply blank_line_strip. now apply block_text_no_blank with content.
Qed.

Lemma parse_srt_file_cue_fields_witness :
  exists cues,
    parse_srt_file example_track = Ok cues
    /\ Forall (fun c =>
                 0 <= index c
                 /\ strip (text c) = text c
                 /\ blank_line (text c) = false
                 /\ is_finite (start_time c) = true
                 /\ sign_of (start_time c) = false
                 /\ is_finite (end_time c) = true
                 /\ sign_of (end_time c) = false)
              cues.
Proof.
  destruct (parse_srt_file example_track) as [cues|e] eqn:E;
    [|vm_compute in E; discriminate E].
  exists cues. split; [reflexivity|].
  exact (parse_srt_file_cue_fields example_track cues E).
Defined.

(** ** ClipLocator: the directory scan *)

Lemma scan_files_some (os : os_view) (d r : str) (files : list str) (p : str) :
  scan_files os d r files = Some p ->
  exists f, In f files /\ candidate os d r f /\ p = join d f.
Proof.
  induction files as [|f files IH]; [discriminate|].
  cbn [scan_files]. destruct (accepts os d r f) eqn:E.
  - intros H. injection H as <-. exists f.
    split; [now left|]. split; [now apply accepts_candidate | reflexivity].
  - intros H. destruct (IH H) as (f' & Hin & Hc & Hp).
    exists f'. split; [now right | auto].
Qed.

Lemma scan_files_none_inv (os : os_view) (d r : str) (files : list str) :
  scan_files os d r files = None ->
  forall f, In f files -> ~ candidate os d r f.
Proof.
  induction files as [|f files IH]; [intros _ f []|].
  cbn [scan_files]. destruct (accepts os d r f) eqn:E; [discriminate|].
  intros H f' [<- | Hin].
  - intros Hc. apply accepts_candidate in Hc. congruence.
  - now apply IH.
Qed.

Lemma scan_formats_some (os : os_view) (d : str) (files formats : list str)
    (p : str) :
  scan_formats os d formats files = Some p ->
  exists r f, In r formats /\ In f files /\ candidate os d r f /\ p = join d f.
Proof.
  induction formats as [|r formats IH]; [discriminate|].
  cbn [scan_formats]. intros H. apply orelse_Some in H as [H | H].
  - apply scan_files_some in H as (f & Hin & Hc & Hp).
    exists r, f. split; [now left | auto].
  - destruct (IH H) as (r' & f & Hr & Hin & Hc & Hp).
    exists r', f. split; [now right | auto].
Qed.

Lemma scan_formats_none_inv (os : os_view) (d : str) (files formats : list str) :
  scan_formats os d formats files = None ->
  forall r f, In r formats -> In f files -> ~ candidate os d r f.
Proof.
  induction formats as [|r formats IH]; [intros _ r f []|].
  cbn [scan_formats].
  destruct (scan_files os d r files) eqn:E; [discriminate|].
  cbn [orelse]. intros H r' f [<- | Hr] Hf.
  - now apply (scan_files_none_inv os d r files E).
  - now apply IH.
Qed.

(** X7.  When the directory can be listed, the locator either returns a
    listed regular file with a whitelisted audio extension whose name
    matches one of the three index representations, or there is no such
    file at all and the answer is left to the fallback lookups: the scan
    never misses a candidate and never returns anything else. *)
Theorem find_audio_scan (os : os_view) (sub : SubtitleLine) (audio_dir : str)
    (all_files : list str) :
  listdir os audio_dir = Some all_files ->
  let formats := index_formats (index sub) in
  (exists r f,
      In r formats /\ In f all_files /\ candidate os audio_dir r f
      /\ find_audio_for_subtitle os sub audio_dir = Some (join audio_dir f))
  \/ ((forall r f, In r formats -> In f all_files ->
                   ~ candidate os audio_dir r f)
      /\ find_audio_for_subtitle os sub audio_dir
         = first_some (lookup_format os audio_dir) formats).
Proof.
  intros Hl formats. unfold find_audio_for_subtitle, scan_directory.
  rewrite Hl. fold formats.
  destruct (scan_formats os audio_dir formats all_files) as [p|] eqn:E.
  - left. apply scan_formats_some in E as (r & f & Hr & Hf & Hc & ->).
    exists r, f. auto.
  - right. split; [|reflexivity].
    now apply scan_formats_none_inv.
Qed.

Lemma find_audio_scan_witness :
  (exists r f,
      In r (index_formats (index example_cue7))
      /\ In f [py "007_extra.wav"; py "0007.wav"]
      /\ candidate example_dir (py "/clips") r f
      /\ find_audio_for_subtitle example_dir example_cue7 (py "/clips")
         = Some (join (py "/clips") f))
  \/ ((forall r f, In r (index_formats (index example_cue7)) ->
                   In f [py "007_extra.wav"; py "0007.wav"] ->
                   ~ candidate example_dir (py "/clips") r f)
      /\ find_audio_for_subtitle example_dir example_cue7 (py "/clips")
         = first_some (lookup_format example_dir (py "/clips"))
                      (index_formats (index example_cue7))).
Proof.
  exact (find_audio_scan example_dir example_cue7 (py "/clips")
           [py "007_extra.wav"; py "0007.wav"] eq_refl).
Defined.

(** ** ClipLocator: one clip, one index *)

Lemma isdigit_zero_padded (n : nat) (d : str) :
  forallb isdigit d = true -> forallb isdigit (zero_padded n d) = true.
Proof.
  intros H. unfold zero_padded. rewrite forallb_app, isdigit_zeros. exact H.
Qed.

Lemma index_formats_digits (idx : Z) (r : str) :
  0 <= idx -> In r (index_formats idx) ->
  forallb isdigit r = true /\ int_of_digits r = idx /\ r <> [].
Proof.
  intros Hi Hin.
  destruct (str_of_nonneg_spec idx Hi) as (Hd & Hv & Hne).
  unfold index_formats in Hin. rewrite !zfill_unsigned in Hin by exact Hi.
  rewrite str_of_Z_nonneg in Hin by exact Hi.
  assert (Hpad : forall n, zero_padded n (str_of_nonneg idx) <> []).
  { intros n E. unfold zero_padded in E. apply app_eq_nil in E as [_ E].
    contradiction. }
  destruct Hin as [<- | [<- | [<- | []]]].
  - split; [now apply isdigit_zero_padded|].
    split; [now rewrite int_of_zero_padded | apply Hpad].
  - split; [now apply isdigit_zero_padded|].
    split; [now rewrite int_of_zero_padded | apply Hpad].
  - auto.
Qed.

(** What may follow the index in the name of a candidate: nothing, or an
    underscore and more. *)
Lemma digit_run_unique (r1 : str) :
  forall (r2 t1 t2 : str),
    forallb isdigit r1 = true -> forallb isdigit r2 = true ->
    (t1 = [] \/ exists u, t1 = "_"%char :: u) ->
    (t2 = [] \/ exists u, t2 = "_"%char :: u) ->
    (r1 ++ t1)%list = (r2 ++ t2)%list -> r1 = r2.
Proof.
  induction r1 as [|a r1 IH]; intros [|b r2] t1 t2 H1 H2 T1 T2 E;
    cbn [app forallb] in *.
  - reflexivity.
  - exfalso. apply andb_true_iff in H2 as [Hb _].
    destruct T1 as [-> | (u & ->)]; [discriminate E|].
    injection E as <- _. vm_compute in Hb. discriminate Hb.
  - exfalso. apply andb_true_iff in H1 as [Ha _].
    destruct T2 as [-> | (u & ->)]; [discriminate E|].
    injection E as -> _. vm_compute in Ha. discriminate Ha.
  - injection E as -> E.
    apply andb_true_iff in H1 as [_ H1]. apply andb_true_iff in H2 as [_ H2].
    f_equal. now apply (IH r2 t1 t2).
Qed.

Lemma splitext_app (f : str) : f = (fst (splitext f) ++ snd (splitext f))%list.
Proof.
  unfold splitext.
  destruct (_ && _); cbn [fst snd];
    [symmetry; apply firstn_skipn | now rewrite app_nil_r].
Qed.

(** The name of a candidate for a non-negative index: its stem is the
    index in digits, alone or followed by an underscore. *)
Lemma candidate_stem (os : os_view) (d : str) (idx : Z) (r f : str) :
  0 <= idx -> In r (index_formats idx) -> candidate os d r f ->
  exists digits tail,
    fst (splitext f) = (digits ++ tail)%list
    /\ forallb isdigit digits = true /\ int_of_digits digits = idx
    /\ digits <> []
    /\ (tail = [] \/ exists u, tail = "_"%char :: u).
Proof.
  intros Hi Hr (_ & _ & Hs).
  destruct (index_formats_digits idx r Hi Hr) as (Hd & Hv & Hne).
  destruct Hs as [E | (rest & E)].
  - exists r, []. rewrite app_nil_r. split; [exact E|].
    split; [exact Hd|]. split; [exact Hv|]. split; [exact Hne|]. now left.
  - exists r, ("_"%char :: rest). split; [exact E|].
    split; [exact Hd|]. split; [exact Hv|]. split; [exact Hne|].
    right. now exists rest.
Qed.

Lemma stem_starts_with_digit (digits tail : str) :
  forallb isdigit digits = true -> digits <> [] ->
  startswith (digits ++ tail) (py "/") = false.
Proof.
  destruct digits as [|a digits]; [contradiction|].
  cbn [forallb]. intros H _. apply andb_true_iff in H as [Ha _].
  cbn [app py list_ascii_of_string startswith].
  destruct (Ascii.eqb "/" a) eqn:E; [|reflexivity].
  apply Ascii.eqb_eq in E. subst a. vm_compute in Ha. discriminate Ha.
Qed.

Lemma candidate_no_root (os : os_view) (d : str) (idx : Z) (r f : str) :
  0 <= idx -> In r (index_formats idx) -> candidate os d r f ->
  startswith f (py "/") = false.
Proof.
  intros Hi Hr Hc.
  destruct (candidate_stem os d idx r f Hi Hr Hc)
    as (digits & tail & E & Hd & _ & Hne & _).
  rewrite (splitext_app f), E, <- app_assoc.
  now apply stem_starts_with_digit.
Qed.

Lemma candidates_same_file (os : os_view) (d : str) (ia ib : Z)
    (ra rb f : str) :
  0 <= ia -> 0 <= ib ->
  In ra (index_formats ia) -> In rb (index_formats ib) ->
  candidate os d ra f -> candidate os d rb f -> ia = ib.
Proof.
  intros Ha Hb Hra Hrb Ca Cb.
  destruct (candidate_stem os d ia ra f Ha Hra Ca)
    as (da & ta & Ea & Hda & Va & _ & Ta).
  destruct (candidate_stem os d ib rb f Hb Hrb Cb)
    as (db & tb & Eb & Hdb & Vb & _ & Tb).
  rewrite Ea in Eb.
  apply digit_run_unique in Eb; try assumption.
  subst db. congruence.
Qed.

Lemma scan_directory_some (os : os_view) (d : str) (formats : list str)
    (p : str) :
  scan_directory os d formats = Some p ->
  exists r f, In r formats /\ candidate os d r f /\ p = join d f.
Proof.
  unfold scan_directory. destruct (listdir os d) as [files|]; [|discriminate].
  intros H. apply scan_formats_some in H as (r & f & Hr & _ & Hc & Hp).
  now exists r, f.
Qed.

(** X8.  Two cues with different (non-negative) indices are never given
    the same file by the directory scan: the digits in front of the file
    name determine the index. *)
Theorem scan_one_clip_one_index (os : os_view) (a b : SubtitleLine)
    (audio_dir p q : str) :
  0 <= index a -> 0 <= index b ->
  scan_directory os audio_dir (index_formats (index a)) = Some p ->
  scan_directory os audio_dir (index_formats (index b)) = Some q ->
  find_audio_for_subtitle os a audio_dir = Some p
  /\ find_audio_for_subtitle os b audio_dir = Some q
  /\ (p = q -> index a = index b).
Proof.
  intros Ha Hb Sa Sb.
  split; [unfold find_audio_for_subtitle; now rewrite Sa|].
  split; [unfold find_audio_for_subtitle; now rewrite Sb|].
  apply scan_directory_some in Sa as (ra & fa & Hra & Ca & ->).
  apply scan_directory_some in Sb as (rb & fb & Hrb & Cb & ->).
  intros E.
  destruct (join_prefix audio_dir) as (pre & Hpre).
  rewrite (Hpre fa) in E
    by exact (candidate_no_root os audio_dir (index a) ra fa Ha Hra Ca).
  rewrite (Hpre fb) in E
    by exact (candidate_no_root os audio_dir (index b) rb fb Hb Hrb Cb).
  apply app_inv_head in E. subst fb.
  now apply (candidates_same_file os audio_dir (index a) (index b) ra rb fa).
Qed.

Lemma scan_one_clip_one_index_witness :
  find_audio_for_subtitle example_dir example_cue7 (py "/clips")
  = Some (py "/clips/0007.wav")
  /\ find_audio_for_subtitle example_dir example_cue7 (py "/clips")
     = Some (py "/clips/0007.wav")
  /\ (py "/clips/0007.wav" = py "/clips/0007.wav"
      -> index example_cue7 = index example_cue7).
Proof.
  apply (scan_one_clip_one_index example_dir example_cue7 example_cue7
           (py "/clips") (py "/clips/0007.wav") (py "/clips/0007.wav"));
    solve [vm_compute; discriminate | vm_compute; reflexivity].
Defined.

(** X9.  The fallback does not ask whether what it finds is a regular
    file: when the scan finds nothing and a path [<index, four digits>.wav]
    exists in the directory in any form (a sub-directory of that name, for
    one), that path is returned as the clip. *)
Theorem find_audio_fallback_unchecked (os : os_view) (sub : SubtitleLine)
    (audio_dir : str) :
  scan_directory os audio_dir (index_formats (index sub)) = None ->
  exists_ os (join audio_dir (zfill 4 (str_of_Z (index sub)) ++ py ".wav"))
  = true ->
  find_audio_for_subtitle os sub audio_dir
  = Some (join audio_dir (zfill 4 (str_of_Z (index sub)) ++ py ".wav")).
Proof.
  intros Hs He. unfold find_audio_for_subtitle. rewrite Hs. cbn [orelse].
  unfold index_formats. cbn [first_some]. unfold lookup_format at 1.
  unfold extensions_list. cbn [map first_some]. unfold lookup_ext at 1.
  change (py "." ++ py "wav")%list with (py ".wav").
  now rewrite He.
Qed.

Lemma find_audio_fallback_unchecked_witness :
  find_audio_for_subtitle
    (mkOs (fun _ => Some [py "0007.wav"]) (fun _ => false)
          (fun p => str_eqb p (py "/clips/0007.wav")) (fun _ => []))
    example_cue7 (py "/clips")
  = Some (py "/clips/0007.wav").
Proof.
  apply (find_audio_fallback_unchecked
           (mkOs (fun _ => Some [py "0007.wav"]) (fun _ => false)
                 (fun p => str_eqb p (py "/clips/0007.wav")) (fun _ => []))
           example_cue7 (py "/clips")); reflexivity.
Defined.

(** ** The matching loop of [_sync_thread] *)

Lemma make_match_ok (sub : SubtitleLine) (path : str) (d : float)
    (m : AudioMatch) :
  make_match sub path d = Ok m ->
  subtitle m = sub /\ audio_path m = path /\ audio_duration m = d
  /\ needs_speedup m = fgtb d (duration sub)
  /\ processed_path m = None.
Proof.
  unfold make_match.
  destruct (fgtb d (duration sub)) eqn:E.
  - unfold py_truediv. destruct (is_zero (duration sub)); [discriminate|].
    cbn [bind]. intros H. injection H as <-. cbn. auto.
  - cbn [bind]. intros H. injection H as <-. cbn. auto.
Qed.

Lemma make_match_raise (sub : SubtitleLine) (path : str) (d : float) (e : exc) :
  make_match sub path d = Raise e ->
  e = ZeroDivisionError /\ is_zero (duration sub) = true
  /\ fgtb d (duration sub) = true.
Proof.
  unfold make_match.
  destruct (fgtb d (duration sub)) eqn:E; [|discriminate].
  unfold py_truediv. destruct (is_zero (duration sub)); [|discriminate].
  cbn [bind]. intros H. injection H as <-. auto.
Qed.

(** X10.  When the matching loop ends normally, its matches are exactly
    the cues for which a clip was found and probed, in cue order; each
    match records the clip that was found and its probed duration, needs a
    speed-up exactly when the clip is longer than the cue, and has no
    processed path yet. *)
Theorem match_all_matched (os : os_view) (probe : str -> option float)
    (audio_dir : str) (subtitles : list SubtitleLine)
    (matches : list AudioMatch) :
  match_all os probe audio_dir subtitles = Ok matches ->
  map subtitle matches = filter (matched os probe audio_dir) subtitles
  /\ Forall (fun m =>
               find_audio_for_subtitle os (subtitle m) audio_dir
               = Some (audio_path m)
               /\ probe (audio_path m) = Some (audio_duration m)
               /\ needs_speedup m
                  = fgtb (audio_duration m) (duration (subtitle m))
               /\ processed_path m = None) matches.
Proof.
  revert matches.
  induction subtitles as [|sub rest IH]; intros matches H;
    cbn [match_all] in H.
  - injection H as <-. split; [reflexivity | constructor].
  - cbn [filter]. unfold matched at 1.
    destruct (find_audio_for_subtitle os sub audio_dir) as [path|] eqn:Ef;
      [|now apply IH].
    destruct (probe path) as [d|] eqn:Ep; [|now apply IH].
    destruct (make_match sub path d) as [m|e] eqn:Em; [|discriminate H].
    cbn [bind] in H.
    destruct (match_all os probe audio_dir rest) as [ms|e]; [|discriminate H].
    cbn [bind] in H. injection H as <-.
    destruct (IH ms eq_refl) as [Hmap Hall].
    destruct (make_match_ok _ _ _ _ Em) as (Hs & Hp & Hd & Hn & Hpp).
    split.
    + cbn [map]. now rewrite Hs, Hmap.
    + constructor; [|exact Hall].
      rewrite Hs, Hp, Hd. auto.
Qed.

Lemma match_all_matched_witness :
  exists matches,
    match_all example_dir (fun _ => Some one) (py "/clips") [example_cue7]
    = Ok matches
    /\ map subtitle matches
       = filter (matched example_dir (fun _ => Some one) (py "/clips"))
                [example_cue7].
Proof.
  destruct (match_all example_dir (fun _ => Some one) (py "/clips")
                      [example_cue7]) as [matches|e] eqn:E;
    [|vm_compute in E; discriminate E].
  exists matches. split; [reflexivity|].
  exact (proj1 (match_all_matched example_dir (fun _ => Some one) (py "/clips")
                  [example_cue7] matches E)).
Defined.

Lemma match_all_raise (os : os_view) (probe : str -> option float)
    (audio_dir : str) (subtitles : list SubtitleLine) (e : exc) :
  match_all os probe audio_dir subtitles = Raise e -> e = ZeroDivisionError.
Proof.
  induction subtitles as [|sub rest IH]; cbn [match_all]; [discriminate|].
  destruct (find_audio_for_subtitle os sub audio_dir) as [path|]; [|exact IH].
  destruct (probe path) as [d|]; [|exact IH].
  destruct (make_match sub path d) as [m|e'] eqn:Em; cbn [bind].
  - destruct (match_all os probe audio_dir rest) as [ms|e'']; cbn [bind];
      [discriminate|].
    intros H. injection H as <-. now apply IH.
  - intros H. injection H as <-. now apply make_match_raise in Em as [-> _].
Qed.

(** X11.  One cue of duration zero whose clip is found and probed with a
    duration above zero makes the whole matching loop raise
    ZeroDivisionError, wherever the cue stands in the list: the division
    is not guarded, and no list of matches is produced. *)
Theorem match_all_zero_duration (os : os_view) (probe : str -> option float)
    (audio_dir : str) (subtitles : list SubtitleLine) (sub : SubtitleLine)
    (path : str) (clip_duration : float) :
  In sub subtitles ->
  find_audio_for_subtitle os sub audio_dir = Some path ->
  probe path = Some clip_duration ->
  is_zero (duration sub) = true ->
  fgtb clip_duration (duration sub) = true ->
  match_all os probe audio_dir subtitles = Raise ZeroDivisionError.
Proof.
  intros Hin Hf Hp Hz Hg.
  induction subtitles as [|s0 rest IH]; [contradiction|].
  cbn [match_all].
  destruct Hin as [-> | Hin].
  - rewrite Hf, Hp. unfold make_match, py_truediv. now rewrite Hg, Hz.
  - specialize (IH Hin).
    destruct (find_audio_for_subtitle os s0 audio_dir) as [p0|]; [|exact IH].
    destruct (probe p0) as [d0|]; [|exact IH].
    destruct (make_match s0 p0 d0) as [m|e] eqn:Em; cbn [bind].
    + now rewrite IH.
    + now apply make_match_raise in Em as [-> _].
Qed.

Lemma match_all_zero_duration_witness :
  match_all example_dir (fun _ => Some one) (py "/clips")
            [example_cue 7 zero one; example_cue 7 one one]
  = Raise ZeroDivisionError.
Proof.
  apply (match_all_zero_duration example_dir (fun _ => Some one) (py "/clips")
           [example_cue 7 zero one; example_cue 7 one one]
           (example_cue 7 one one) (py "/clips/0007.wav") one);
    [right; left; reflexivity | vm_compute; reflexivity ..].
Defined.

(** ** Processed files of different cues *)

Lemma join_prefix_shape (a : str) :
  exists pre,
    (pre = [] \/ exists pre', pre = (pre' ++ ["/"%char])%list)
    /\ forall x, startswith x (py "/") = false -> join a x = (pre ++ x)%list.
Proof.
  destruct a as [|c a].
  - exists []. split; [now left|]. intros x Hx. unfold join. now rewrite Hx.
  - destruct (endswith_sep (c :: a)) eqn:E.
    + exists (c :: a). split.
      * right. unfold endswith_sep in E.
        destruct (rev (c :: a)) as [|z t] eqn:Er; [discriminate E|].
        apply Ascii.eqb_eq in E. subst z.
        exists (rev t). rewrite <- (rev_involutive (c :: a)), Er. reflexivity.
      * intros x Hx. unfold join. now rewrite Hx, E.
    + exists ((c :: a) ++ ["/"%char])%list. split; [right; now eexists|].
      intros x Hx. unfold join. rewrite Hx, E. cbn [orb py list_ascii_of_string].
      now rewrite <- app_assoc.
Qed.

Lemma basename_join (d f : str) :
  has_sep f = false -> basename (join d f) = f.
Proof.
  intros Hf. destruct (join_prefix_shape d) as (pre & Hpre & Hj).
  rewrite Hj by now apply startswith_sep.
  destruct Hpre as [-> | (pre' & ->)].
  - now apply basename_nosep.
  - rewrite <- app_assoc. cbn [app]. now apply basename_last.
Qed.

(** X14.  For clips found by the directory scan among names without a
    slash (as [os.listdir] returns them), cues with different
    non-negative indices are processed into different files of the
    temporary directory: no processed clip overwrites that of another
    index. *)
Theorem processed_paths_distinct (os : os_view) (audio_dir : str)
    (all_files : list str) (ma mb ma' mb' : AudioMatch)
    (fuel : nat) (temp_dir ffmpeg_path : str) (ca cb : list str) :
  listdir os audio_dir = Some all_files ->
  forallb (fun f => negb (has_sep f)) all_files = true ->
  0 <= index (subtitle ma) -> 0 <= index (subtitle mb) ->
  index (subtitle ma) <> index (subtitle mb) ->
  scan_directory os audio_dir (index_formats (index (subtitle ma)))
  = Some (audio_path ma) ->
  scan_directory os audio_dir (index_formats (index (subtitle mb)))
  = Some (audio_path mb) ->
  process_audio_speed fuel ma temp_dir ffmpeg_path = Some (ca, ma') ->
  process_audio_speed fuel mb temp_dir ffmpeg_path = Some (cb, mb') ->
  processed_path ma' <> processed_path mb'.
Proof.
  intros Hl Hns Ha Hb Hab Sa Sb Pa Pb E.
  apply process_audio_speed_result in Pa as (-> & _ & _).
  apply process_audio_speed_result in Pb as (-> & _ & _).
  cbn [set_processed_path processed_path] in E. injection E as E.
  unfold scan_directory in Sa, Sb. rewrite Hl in Sa, Sb.
  apply scan_formats_some in Sa as (ra & fa & Hra & Hfa & Ca & Epa).
  apply scan_formats_some in Sb as (rb & fb & Hrb & Hfb & Cb & Epb).
  rewrite forallb_forall in Hns.
  assert (Hsa : has_sep fa = false) by (apply negb_true_iff; now apply Hns).
  assert (Hsb : has_sep fb = false) by (apply negb_true_iff; now apply Hns).
  rewrite Epa, Epb, !basename_join in E by assumption.
  destruct (candidate_stem os audio_dir _ ra fa Ha Hra Ca)
    as (da & ta & Ea & Hda & Va & Nea & Ta).
  destruct (candidate_stem os audio_dir _ rb fb Hb Hrb Cb)
    as (db & tb & Eb & Hdb & Vb & Neb & Tb).
  rewrite Ea, Eb in E.
  destruct (join_prefix temp_dir) as (pre & Hpre).
  rewrite <- !app_assoc in E.
  rewrite !Hpre in E by now apply stem_starts_with_digit.
  apply app_inv_head in E. rewrite !app_assoc in E. apply app_inv_tail in E.
  apply digit_run_unique in E; try assumption.
  subst db. congruence.
Qed.

Lemma processed_paths_distinct_witness :
  exists ca cb ma' mb',
    process_audio_speed 0
      (mkAudioMatch example_cue7 (py "/clips/007_extra.wav") one false one None)
      (py "/tmp/s") (py "ffmpeg") = Some (ca, ma')
    /\ process_audio_speed 0
         (mkAudioMatch (example_cue 8 zero one) (py "/clips/0008.wav")
                       one false one None)
         (py "/tmp/s") (py "ffmpeg") = Some (cb, mb')
    /\ processed_path ma' <> processed_path mb'.
Proof.
  do 4 eexists. split; [vm_compute; reflexivity|].
  split; [vm_compute; reflexivity|].
  eapply (processed_paths_distinct
           (mkOs (fun _ => Some [py "007_extra.wav"; py "0008.wav"])
                 (fun _ => true) (fun _ => true) (fun _ => []))
           (py "/clips") [py "007_extra.wav"; py "0008.wav"]
           (mkAudioMatch example_cue7 (py "/clips/007_extra.wav")
                         one false one None)
           (mkAudioMatch (example_cue 8 zero one) (py "/clips/0008.wav")
                         one false one None)
           _ _ 0%nat (py "/tmp/s") (py "ffmpeg") _ _);
    solve [vm_compute; reflexivity | vm_compute; discriminate].
Defined.

(** ** StretchPlanner: the loop for factors below 0.5 *)

Lemma fdiv_half (m : positive) (e : Z) :
  Zpos (digits2_pos m) = 53 -> -1074 <= e <= 970 ->
  fdiv (S754_finite false m e) half = S754_finite false m (e + 1).
Proof.
  intros Hd He. rewrite half_eq.
  unfold fdiv, SFdiv, SFdiv_core_binary. cbn [Zdigits2 xorb]. rewrite Hd.
  change (Zpos (digits2_pos 4503599627370496)) with 53.
  change (SpecFloat.fexp prec emax) with fexp64. rewrite fexp64_eq.
  replace (Z.min (Z.max (53 + e - (53 + -53) - 53) (-1074)) (e - -53))
    with e by lia.
  replace (e - -53 - e) with 53 by lia.
  cbv iota.
  rewrite Z.shiftl_mul_pow2 by lia. rewrite div_eucl_eq.
  replace (Zpos m * 2 ^ 53) with (Zpos m~0 * 4503599627370496)
    by (rewrite (Pos2Z.inj_xO m); change (2 ^ 53) with (2 * 4503599627370496); lia).
  rewrite Z.div_mul by lia. rewrite Z.mod_mul by lia.
  change (new_location 4503599627370496 0) with loc_Exact.
  unfold binary_round_aux, shr_fexp. cbn [Zdigits2 digits2_pos].
  rewrite Pos2Z.inj_succ, Hd.
  change (SpecFloat.fexp prec emax) with fexp64. rewrite !fexp64_eq.
  replace (Z.max (Z.succ 53 + e - 53) (-1074) - e) with 1 by lia.
  cbn [shr shr_record_of_loc SpecFloat.iter_pos shr_1 shr_m loc_of_shr_record
       round_nearest_even Zdigits2 orb].
  rewrite Hd, fexp64_eq.
  replace (Z.max (53 + (e + 1) - 53) (-1074) - (e + 1)) with 0 by lia.
  cbn [shr shr_record_of_loc shr_m].
  unfold emax, prec.
  destruct (Z.leb_spec (e + 1) (1024 - 53)) as [_ | Hgt]; [|lia].
  reflexivity.
Qed.

Lemma fltb_one_iff (m : positive) (e : Z) :
  fltb (S754_finite false m e) one = true
  <-> e < -52 \/ (e = -52 /\ Zpos m < 4503599627370496).
Proof.
  unfold fltb, SFltb. rewrite one_eq, SFcompare_finite.
  rewrite <- lex_Lt.
  destruct (lex e m (-52) 4503599627370496); split; congruence.
Qed.

Lemma mantissa_53 (m : positive) :
  Zpos (digits2_pos m) = 53 ->
  4503599627370496 <= Zpos m < 9007199254740992.
Proof.
  intros Hd. pose proof (digits2_pos_bounds m) as H. rewrite Hd in H.
  change (2 ^ (53 - 1)) with 4503599627370496 in H.
  change (2 ^ 53) with 9007199254740992 in H. exact H.
Qed.

Lemma slow_down_spec (m : positive) (k : nat) :
  Zpos (digits2_pos m) = 53 ->
  forall (fuel : nat) (filters : list str),
    -1074 <= -53 - Z.of_nat k -> (k <= fuel)%nat ->
    slow_down fuel (S754_finite false m (-53 - Z.of_nat k)) filters
    = Some (S754_finite false m (-53),
            (filters ++ repeat (py "atempo=0.5") k)%list).
Proof.
  intros Hd. pose proof (mantissa_53 m Hd) as Hm.
  induction k as [|k IH]; intros fuel filters He Hf.
  - replace (-53 - Z.of_nat 0) with (-53) by (cbn; lia).
    cbn [repeat]. rewrite app_nil_r. apply slow_down_stop.
    destruct (fltb (S754_finite false m (-53)) half) eqn:E; [|reflexivity].
    apply fltb_half_iff in E. lia.
  - destruct fuel as [|fuel]; [lia|].
    cbn [slow_down].
    assert (E : fltb (S754_finite false m (-53 - Z.of_nat (S k))) half = true)
      by (apply fltb_half_iff; lia).
    rewrite E, fdiv_half by (try assumption; lia).
    replace (-53 - Z.of_nat (S k) + 1) with (-53 - Z.of_nat k) by lia.
    rewrite IH by lia. rewrite <- app_assoc. reflexivity.
Qed.

Lemma micros_below_one (m : positive) :
  4503599627370496 <= Zpos m < 9007199254740992 ->
  5 * 10 ^ 5 <= micros (S754_finite false m (-53)) <= 10 ^ 6
  /\ - 2 ^ 53
     <= 2 * (micros (S754_finite false m (-53)) * 2 ^ 53 - Zpos m * 10 ^ 6)
     <= 2 ^ 53.
Proof.
  intros Hm. cbn [micros]. change (0 <=? -53) with false. cbv iota.
  change (- -53) with 53. change (2 ^ 53) with 9007199254740992.
  change (10 ^ 6) with 1000000. change (10 ^ 5) with 100000.
  pose proof (round_half_even_spec (Zpos m * 1000000) 9007199254740992
                ltac:(lia) ltac:(lia)) as H.
  set (N := round_half_even (Zpos m * 1000000) 9007199254740992) in *.
  lia.
Qed.

Lemma atempo_value_format_from_zero (x : float) :
  is_finite x = true -> sign_of x = false -> 0 <= micros x ->
  atempo_value (py "atempo=" ++ format_6f x) = Some (Qmake (micros x) 1000000).
Proof.
  intros Hfin Hs Hn.
  unfold atempo_value.
  change (startswith (py "atempo=" ++ format_6f x) (py "atempo=")) with true.
  change (skipn 7 (py "atempo=" ++ format_6f x)) with (format_6f x).
  cbv iota.
  assert (E : format_6f x
              = (str_of_Z (micros x / 10 ^ 6) ++ "."%char
                   :: zfill 6 (str_of_Z (micros x mod 10 ^ 6)))%list).
  { unfold format_6f. destruct x; try discriminate Hfin; cbn in Hs;
      rewrite Hs; reflexivity. }
  rewrite E.
  set (n := micros x) in *.
  pose proof (Z.mod_pos_bound n (10 ^ 6) ltac:(lia)) as Hm.
  destruct (zfill6_spec (n mod 10 ^ 6) Hm) as (Hfd & Hfl & Hfv).
  assert (Hq : 0 <= n / 10 ^ 6) by (apply Z.div_pos; lia).
  rewrite (str_of_Z_nonneg (n / 10 ^ 6)) by exact Hq.
  destruct (str_of_nonneg_spec (n / 10 ^ 6) Hq) as (Hid & Hiv & Hine).
  rewrite decimal_value_digits by assumption.
  rewrite Hfl, Hiv, Hfv.
  change (10 ^ Z.of_nat 6) with (10 ^ 6).
  f_equal. f_equal.
  pose proof (Z.div_mod n (10 ^ 6) ltac:(lia)). lia.
Qed.

Lemma below_one_error (m : positive) :
  4503599627370496 <= Zpos m < 9007199254740992 ->
  let r := S754_finite false m (-53) in
  (Qabs (Qmake (micros r) 1000000 - Q_of_float r) <= 1 # 2000000)%Q
  /\ (1 # 2 <= Qmake (micros r) 1000000)%Q
  /\ (Qmake (micros r) 1000000 <= 1)%Q.
Proof.
  intros Hm r.
  destruct (micros_below_one m Hm) as (HN & HE).
  change (2 ^ 53) with 9007199254740992 in HE.
  change (10 ^ 6) with 1000000 in HE, HN. change (10 ^ 5) with 100000 in HN.
  subst r. rewrite Q_of_float_neg_exp by lia.
  change (Z.to_pos (2 ^ (- -53))) with 9007199254740992%positive.
  set (N := micros (S754_finite false m (-53))) in *.
  split; [|split].
  - apply Qabs_Qle_condition.
    unfold Qle, Qminus, Qplus, Qopp. cbn [Qnum Qden].
    rewrite !Pos2Z.inj_mul. lia.
  - unfold Qle. cbn [Qnum Qden]. lia.
  - unfold Qle. cbn [Qnum Qden]. lia.
Qed.

Lemma atempo_half : atempo_value (py "atempo=0.5") = Some (05 # 10)%Q.
Proof. reflexivity. Qed.

Lemma chain_product_doublings (k : nat) (f : str) (v : Q) :
  atempo_value f = Some v ->
  exists P,
    chain_product (repeat (py "atempo=0.5") k ++ [f]) = Some P
    /\ (inject_Z (2 ^ Z.of_nat k) * P == v)%Q.
Proof.
  intros Hv. induction k as [|k (P & HP & EP)].
  - exists (v * 1)%Q. cbn [repeat app chain_product]. rewrite Hv.
    split; [reflexivity|]. change (2 ^ Z.of_nat 0) with 1. ring.
  - exists ((05 # 10) * P)%Q. cbn [repeat app chain_product].
    rewrite atempo_half, HP. split; [reflexivity|].
    rewrite <- EP, Nat2Z.inj_succ, Z.pow_succ_r by lia.
    rewrite inject_Z_mult.
    assert (E : (inject_Z 2 * (05 # 10) == 1)%Q) by reflexivity.
    transitivity (inject_Z (2 ^ Z.of_nat k) * (inject_Z 2 * (05 # 10)) * P)%Q;
      [ring | rewrite E; ring].
Qed.

Lemma slow_shape (x : float) :
  valid_binary prec emax x = true ->
  fleb min_normal x = true -> fltb x half = true ->
  exists m k,
    x = S754_finite false m (-53 - Z.of_nat k)
    /\ Zpos (digits2_pos m) = 53 /\ (1 <= k <= 1021)%nat.
Proof.
  intros V Hlo Hhi.
  destruct x as [s|s| |s m e].
  - discriminate Hlo.
  - destruct s; [discriminate Hlo | rewrite half_eq in Hhi; discriminate Hhi].
  - discriminate Hlo.
  - destruct s; [discriminate Hlo|].
    cbn [valid_binary] in V. apply bounded_digits in V as (Hd & He & Hn).
    assert (Hd53 : Zpos (digits2_pos m) = 53).
    { destruct (Z.eq_dec e (-1074)) as [-> | Hne]; [|apply Hn; lia].
      unfold fleb, SFleb, min_normal in Hlo. rewrite SFcompare_finite in Hlo.
      assert (Hm : 4503599627370496 <= Zpos m).
      { destruct (lex (-1074) 4503599627370496 (-1074) m) eqn:El;
          try discriminate Hlo.
        - apply lex_Eq in El as [_ <-]. lia.
        - apply lex_Lt in El. lia. }
      pose proof (digits2_pos_bounds m) as [_ Hup].
      destruct (Z.le_gt_cases 53 (Zpos (digits2_pos m))) as [|Hlt]; [lia|].
      exfalso.
      assert (2 ^ Zpos (digits2_pos m) <= 2 ^ 52)
        by (apply Z.pow_le_mono_r; lia).
      change (2 ^ 52) with 4503599627370496 in *. lia. }
    pose proof (mantissa_53 m Hd53) as Hm.
    apply fltb_half_iff in Hhi.
    exists m, (Z.to_nat (-53 - e)).
    split; [f_equal; lia|]. split; [exact Hd53 | lia].
Qed.

(** X18.  For every normal double below 0.5 handed to the chain as the
    speed factor, the first loop emits nothing, the second emits [k]
    stages of exactly 0.5 while doubling the factor, and the final stage
    is the remainder, a value from 0.5 up to but not including 1.0,
    printed with six decimals; every stage lies in [0.5, 2.0] and the
    product of the stages differs from the factor by at most
    0.5e-6 / 2^k. *)
Theorem atempo_chain_slow (speed_factor : float) (fuel : nat) :
  valid_binary prec emax speed_factor = true ->
  fleb min_normal speed_factor = true ->
  fltb speed_factor half = true ->
  (1100 <= fuel)%nat ->
  exists (k : nat) (r : float) (P : Q),
    atempo_filters fuel speed_factor
    = Some (repeat (py "atempo=0.5") k ++ [(py "atempo=" ++ format_6f r)%list])
    /\ (1 <= k)%nat
    /\ (Q_of_float r == inject_Z (2 ^ Z.of_nat k) * Q_of_float speed_factor)%Q
    /\ fltb r half = false /\ fltb r one = true
    /\ Forall (fun g => exists w, atempo_value g = Some w
                                  /\ (1 # 2 <= w)%Q /\ (w <= 2)%Q)
              (repeat (py "atempo=0.5") k ++ [(py "atempo=" ++ format_6f r)%list])
    /\ chain_product
         (repeat (py "atempo=0.5") k ++ [(py "atempo=" ++ format_6f r)%list])
       = Some P
    /\ (inject_Z (2 ^ Z.of_nat k) * Qabs (P - Q_of_float speed_factor)
        <= 1 # 2000000)%Q
    /\ (Qabs (P - Q_of_float speed_factor) <= 1 # 2000000)%Q.
Proof.
  intros V Hlo Hhi Hfuel.
  destruct (slow_shape speed_factor V Hlo Hhi) as (m & k & -> & Hd & Hk).
  pose proof (mantissa_53 m Hd) as Hm.
  set (x := S754_finite false m (-53 - Z.of_nat k)).
  set (r := S754_finite false m (-53)).
  destruct (below_one_error m Hm) as (Herr & Hvlo & Hvhi). fold r in Herr, Hvlo, Hvhi.
  destruct (micros_below_one m Hm) as (HN & _). fold r in HN.
  assert (Hv : atempo_value (py "atempo=" ++ format_6f r)
               = Some (Qmake (micros r) 1000000)).
  { apply atempo_value_format_from_zero; [reflexivity | reflexivity | lia]. }
  destruct (chain_product_doublings k _ _ Hv) as (P & HP & EP).
  assert (ES : (Q_of_float r == inject_Z (2 ^ Z.of_nat k) * Q_of_float x)%Q).
  { apply (Q_of_float_scaled m (-53) k). lia. }
  assert (Hc1 : (1 <= inject_Z (2 ^ Z.of_nat k))%Q).
  { change 1%Q with (inject_Z 1). rewrite <- Zle_Qle.
    pose proof (pow2_pos (Z.of_nat k) ltac:(lia)). lia. }
  assert (Hc : (0 <= inject_Z (2 ^ Z.of_nat k))%Q).
  { apply Qle_trans with 1%Q; [discriminate | exact Hc1]. }
  assert (Hscaled : (inject_Z (2 ^ Z.of_nat k) * Qabs (P - Q_of_float x)
                     <= 1 # 2000000)%Q).
  { rewrite <- (Qabs_pos (inject_Z (2 ^ Z.of_nat k))) at 1 by exact Hc.
    rewrite <- Qabs_Qmult.
    assert (E : (inject_Z (2 ^ Z.of_nat k) * (P - Q_of_float x)
                 == Qmake (micros r) 1000000 - Q_of_float r)%Q).
    { rewrite ES, <- EP. ring. }
    rewrite E. exact Herr. }
  exists k, r, P.
  split.
  { unfold atempo_filters.
    rewrite speed_up_stop.
    - unfold x. rewrite slow_down_spec by (try assumption; lia). reflexivity.
    - destruct (fgtb x two) eqn:E; [|reflexivity].
      apply fgtb_two_iff in E. lia. }
  split; [lia|]. split; [exact ES|].
  split.
  { destruct (fltb r half) eqn:E; [|reflexivity]. apply fltb_half_iff in E. lia. }
  split; [apply fltb_one_iff; lia|].
  split.
  { apply Forall_app. split.
    - apply Forall_forall. intros g Hg. apply repeat_spec in Hg. subst g.
      exists (05 # 10)%Q. split; [exact atempo_half|]. split; discriminate.
    - constructor; [|constructor]. exists (Qmake (micros r) 1000000).
      split; [exact Hv|]. split; [exact Hvlo|].
      apply Qle_trans with 1%Q; [exact Hvhi | discriminate]. }
  split; [exact HP|]. split; [exact Hscaled|].
  apply Qle_trans with (inject_Z (2 ^ Z.of_nat k) * Qabs (P - Q_of_float x))%Q;
    [|exact Hscaled].
  rewrite <- (Qmult_1_l (Qabs (P - Q_of_float x))) at 1.
  apply Qmult_le_compat_r; [exact Hc1 | apply Qabs_nonneg].
Qed.

Lemma atempo_chain_slow_witness :
  exists (k : nat) (r : float) (P : Q),
    atempo_filters 1100 (dec 2 1)
    = Some (repeat (py "atempo=0.5") k ++ [(py "atempo=" ++ format_6f r)%list])
    /\ chain_product
         (repeat (py "atempo=0.5") k ++ [(py "atempo=" ++ format_6f r)%list])
       = Some P
    /\ (Qabs (P - Q_of_float (dec 2 1)) <= 1 # 2000000)%Q.
Proof.
  destruct (atempo_chain_slow (dec 2 1) 1100)
    as (k & r & P & H1 & _ & _ & _ & _ & _ & H2 & _ & H3);
    [vm_compute; reflexivity .. | lia |].
  exists k, r, P. auto.
Defined.
